(** * ParticleService: the galaxy particle field of NEBULATRANSMUTE

    A shallow embedding of [src/services/particles.service.ts] and the
    properties its specification states about it.

    Conventions of the embedding.

    - A JavaScript [number] that carries a continuous quantity (times in
      milliseconds, speeds, angles, normalised coordinates) is a rational
      [Q].  What the two clock comparisons read is rounded as binary64
      arithmetic rounds it ([F64.round]): the interval [1000 / 60], the
      elapsed time and the re-based timer of [animate], and the time
      difference of [onMouseMove]; the remainder [%] of two binary64
      numbers is exact.  Everywhere else (speeds, angles, coordinates, the
      generator) the arithmetic is exact: rounding there, [NaN] and the
      infinities are outside the model.  A division whose divisor is zero
      has no meaning here (JavaScript yields [NaN] or an infinity); a
      theorem that needs the value of such a quotient assumes a positive
      divisor.  A [Float32Array] holds the exact value stored into it.
    - [window.innerWidth] and [window.innerHeight] are integers ([Z]), the
      loop index of the generator is an integer as well.
    - The class instance and the browser objects it talks to ([window], the
      timer and animation-frame queues) form one [World], threaded explicitly
      through every method.  [Date.now()] and [performance.now()] are inputs
      of the callbacks that read them.
    - Function objects have an identity ([FnRef]): [addEventListener] and
      [removeEventListener] compare callbacks by reference, and
      [Function.prototype.bind] allocates a new object at every call.
    - [Math.random()] is a stream of draws with a cursor in the world.
      The constructors of three.js read the same stream for the identifier
      of the object they make; how many draws each of them takes is the
      parameter [ctor_draws].  [Math.PI], [Math.cos] and [Math.sin] are
      parameters as well. *)

From Stdlib Require Import QArith Qpower Qround Qabs Qminmax ZArith List Bool
  Lia Lqa.
Import ListNotations.
Open Scope Q_scope.

(** ** JavaScript arithmetic on exact numbers *)

Module JS.

(** [x < y] as the boolean JavaScript computes. *)
Definition ltb (x y : Q) : bool := if Qlt_le_dec x y then true else false.

(** [x > y]. *)
Definition gtb (x y : Q) : bool := ltb y x.

(** Integer part of a rational, rounding toward zero. *)
Definition trunc (q : Q) : Z := Z.quot (Qnum q) (Zpos (Qden q)).

(** The [%] operator: the remainder has the sign of the dividend,
    [a % b = a - b * trunc (a / b)]. *)
Definition rem (a b : Q) : Q := a - b * inject_Z (trunc (a / b)).

(** [Math.pow(u, 3)]. *)
Definition pow3 (u : Q) : Q := u * u * u.

End JS.

(** ** Binary64 numbers

    The frame timer compares against [1000 / 60], which is not a binary64
    number, so what the comparison yields depends on how the quotient and
    the timer are rounded.  [round q] is the binary64 number nearest to [q],
    ties going to the even significand (53 bits; the exponent is not
    bounded, no value of the program coming near the largest or the
    smallest binary64 number). *)

Module F64.

Definition pow2 (z : Z) : Q := 2 ^ z.

(** The binade of a positive number: [pow2 (ilog2 q) <= q < pow2 (ilog2 q + 1)]. *)
Definition ilog2 (q : Q) : Z :=
  let a := (Z.log2 (Qnum q) - Z.log2 (Zpos (Qden q)))%Z in
  if Qle_bool (pow2 a) q then a else (a - 1)%Z.

(** The nearest integer, the even one of two that are equally near. *)
Definition rne (q : Q) : Z :=
  let f := Qfloor q in
  match Qcompare (q - inject_Z f) (1 # 2) with
  | Lt => f
  | Gt => (f + 1)%Z
  | Eq => if Z.even f then f else (f + 1)%Z
  end.

Definition round_pos (q : Q) : Q :=
  let u := pow2 (ilog2 q - 52) in inject_Z (rne (q / u)) * u.

Definition round (q : Q) : Q :=
  match Qcompare q 0 with
  | Eq => 0
  | Gt => round_pos q
  | Lt => - round_pos (- q)
  end.

(** [q] is a binary64 number. *)
Definition double (q : Q) : Prop := round q == q.

End F64.

(** ** The part of three.js the service uses *)

Module THREE.

Record Vector3 := mkVector3 { vx : Q; vy : Q; vz : Q }.

Record Color := mkColor { r : Q; g : Q; b : Q }.

(** [new THREE.Color(hex)]: the three bytes of [hex], each over 255 (no
    conversion between colour spaces). *)
Definition Color_of_hex (hex : Z) : Color :=
  {| r := inject_Z (Z.land (Z.shiftr hex 16) 255) / 255;
     g := inject_Z (Z.land (Z.shiftr hex 8) 255) / 255;
     b := inject_Z (Z.land hex 255) / 255 |}.

(** [c.clone().lerp(d, alpha)]: every channel moves from [c] toward [d] by
    the fraction [alpha]; [c] itself is left alone (the clone is changed). *)
Definition lerp (c d : Color) (alpha : Q) : Color :=
  {| r := r c + (r d - r c) * alpha;
     g := g c + (g d - g c) * alpha;
     b := b c + (b d - b c) * alpha |}.

(** The sprite of a point: [new THREE.Texture()] when no 2D context could be
    had, otherwise a canvas texture holding the gradient's colour stops
    (offset, red, green, blue, alpha). *)
Inductive Texture :=
| BlankTexture
| CanvasTexture (width height : Z) (stops : list (Q * (Z * Z * Z * Q))).

(** The classes the service instantiates whose instances carry an
    identifier.  three.js makes the identifier of an object from calls of
    [Math.random()] inside the constructor, so that a [new] moves the
    stream of [Math.random()] on; by how many draws is the library's
    affair, and a parameter of the service below. *)
Inductive Class :=
| C_WebGLRenderer
| C_Scene
| C_PerspectiveCamera
| C_BufferGeometry
| C_Texture
| C_CanvasTexture
| C_PointsMaterial
| C_Points.

(** The constructor that made a texture. *)
Definition class_of_texture (t : Texture) : Class :=
  match t with
  | BlankTexture => C_Texture
  | CanvasTexture _ _ _ => C_CanvasTexture
  end.

Inductive Blending := NormalBlending | AdditiveBlending.

Record PointsMaterial := mkPointsMaterial {
  mat_size : Q;
  mat_vertexColors : bool;
  mat_map : Texture;
  mat_blending : Blending;
  mat_depthWrite : bool;
  mat_transparent : bool;
  mat_opacity : Q;
  mat_sizeAttenuation : bool
}.

(** A [BufferGeometry] with its three attributes. *)
Record BufferGeometry := mkBufferGeometry {
  attr_position : list Q;
  attr_color : list Q;
  attr_size : list Q
}.

(** [THREE.Points]: geometry, material and the Euler angles of the object. *)
Record Points := mkPoints {
  geometry : BufferGeometry;
  material : PointsMaterial;
  rotation : Vector3
}.

Definition new_Points (geo : BufferGeometry) (mat : PointsMaterial) : Points :=
  {| geometry := geo; material := mat; rotation := mkVector3 0 0 0 |}.

Definition set_rotation (rot : Vector3) (m : Points) : Points :=
  {| geometry := geometry m; material := material m; rotation := rot |}.

(** [THREE.Scene]: only the number of objects added to it matters here. *)
Record Scene := mkScene { children : nat }.

Definition new_Scene : Scene := {| children := 0 |}.

Definition Scene_add (s : Scene) : Scene := {| children := S (children s) |}.

(** [THREE.PerspectiveCamera].  [projection] holds the parameters the
    projection matrix was last computed from, [lookingAt] the eye position
    and the target of the last [lookAt]. *)
Record PerspectiveCamera := mkPerspectiveCamera {
  fov : Q;
  aspect : Q;
  near : Q;
  far : Q;
  position : Vector3;
  projection : Q * Q * Q * Q;
  lookingAt : option (Vector3 * Vector3)
}.

Definition new_PerspectiveCamera (fov aspect near far : Q) : PerspectiveCamera :=
  {| fov := fov; aspect := aspect; near := near; far := far;
     position := mkVector3 0 0 0;
     projection := (fov, aspect, near, far);
     lookingAt := None |}.

Definition set_aspect (a : Q) (c : PerspectiveCamera) : PerspectiveCamera :=
  {| fov := fov c; aspect := a; near := near c; far := far c;
     position := position c; projection := projection c;
     lookingAt := lookingAt c |}.

Definition set_position (p : Vector3) (c : PerspectiveCamera) : PerspectiveCamera :=
  {| fov := fov c; aspect := aspect c; near := near c; far := far c;
     position := p; projection := projection c;
     lookingAt := lookingAt c |}.

Definition updateProjectionMatrix (c : PerspectiveCamera) : PerspectiveCamera :=
  {| fov := fov c; aspect := aspect c; near := near c; far := far c;
     position := position c;
     projection := (fov c, aspect c, near c, far c);
     lookingAt := lookingAt c |}.

Definition lookAt (x y z : Q) (c : PerspectiveCamera) : PerspectiveCamera :=
  {| fov := fov c; aspect := aspect c; near := near c; far := far c;
     position := position c; projection := projection c;
     lookingAt := Some (position c, mkVector3 x y z) |}.

(** [THREE.WebGLRenderer]: the options it was built with, the pixel ratio,
    the size of the output surface, the number of [render] calls so far and
    whether [dispose] has been called. *)
Record WebGLRenderer := mkWebGLRenderer {
  rd_canvas : nat;
  rd_alpha : bool;
  rd_antialias : bool;
  pixelRatio : Q;
  size : Z * Z;
  drawCalls : nat;
  disposed : bool
}.

Definition new_WebGLRenderer (canvas : nat) (alpha antialias : bool) : WebGLRenderer :=
  {| rd_canvas := canvas; rd_alpha := alpha; rd_antialias := antialias;
     pixelRatio := 1; size := (300, 150)%Z; drawCalls := 0; disposed := false |}.

Definition setPixelRatio (v : Q) (rd : WebGLRenderer) : WebGLRenderer :=
  {| rd_canvas := rd_canvas rd; rd_alpha := rd_alpha rd;
     rd_antialias := rd_antialias rd; pixelRatio := v; size := size rd;
     drawCalls := drawCalls rd; disposed := disposed rd |}.

Definition setSize (w h : Z) (rd : WebGLRenderer) : WebGLRenderer :=
  {| rd_canvas := rd_canvas rd; rd_alpha := rd_alpha rd;
     rd_antialias := rd_antialias rd; pixelRatio := pixelRatio rd;
     size := (w, h); drawCalls := drawCalls rd; disposed := disposed rd |}.

Definition render (rd : WebGLRenderer) : WebGLRenderer :=
  {| rd_canvas := rd_canvas rd; rd_alpha := rd_alpha rd;
     rd_antialias := rd_antialias rd; pixelRatio := pixelRatio rd;
     size := size rd; drawCalls := S (drawCalls rd); disposed := disposed rd |}.

Definition dispose (rd : WebGLRenderer) : WebGLRenderer :=
  {| rd_canvas := rd_canvas rd; rd_alpha := rd_alpha rd;
     rd_antialias := rd_antialias rd; pixelRatio := pixelRatio rd;
     size := size rd; drawCalls := drawCalls rd; disposed := true |}.

End THREE.

(** ** The browser objects the service talks to *)

Module DOM.

Inductive EventType := Resize | MouseMove.

(** The prototype methods of the class whose references are passed around. *)
Inductive Method := OnMouseMove | Animate.

(** Identity of a function object.
    - [FieldDebouncedOnResize]: the arrow function stored once in the
      instance field [debouncedOnResize];
    - [Proto m]: the method [m] as found on the prototype, what the
      expression [this.m] evaluates to, the same object at every evaluation;
    - [Bound m k]: the object made by the [k]-th allocation, a call
      [this.m.bind(this)];
    - [ResizeArrow k]: the closure [() => this.onResize()] made by the
      [k]-th allocation. *)
Inductive FnRef :=
| FieldDebouncedOnResize
| Proto (m : Method)
| Bound (m : Method) (serial : nat)
| ResizeArrow (serial : nat).

Definition EventType_eqb (a b : EventType) : bool :=
  match a, b with
  | Resize, Resize | MouseMove, MouseMove => true
  | _, _ => false
  end.

Definition Method_eqb (a b : Method) : bool :=
  match a, b with
  | OnMouseMove, OnMouseMove | Animate, Animate => true
  | _, _ => false
  end.

Definition FnRef_eqb (a b : FnRef) : bool :=
  match a, b with
  | FieldDebouncedOnResize, FieldDebouncedOnResize => true
  | Proto m, Proto n => Method_eqb m n
  | Bound m j, Bound n k => Method_eqb m n && Nat.eqb j k
  | ResizeArrow j, ResizeArrow k => Nat.eqb j k
  | _, _ => false
  end.

Definition Listener : Type := EventType * FnRef.

Definition Listener_eqb (a b : Listener) : bool :=
  EventType_eqb (fst a) (fst b) && FnRef_eqb (snd a) (snd b).

Record MouseEvent := mkMouseEvent { clientX : Q; clientY : Q }.

(** [window] with the queues of the event loop: the registered listeners,
    the pending timeouts (handle, callback, delay), the pending
    animation-frame callbacks (handle, callback) and the three allocators. *)
Record Window := mkWindow {
  innerWidth : Z;
  innerHeight : Z;
  devicePixelRatio : Q;
  context2d : bool;
  listeners : list Listener;
  timers : list (nat * FnRef * Q);
  frames : list (nat * FnRef);
  nextTimer : nat;
  nextFrame : nat;
  nextFn : nat
}.

Definition set_listeners (ls : list Listener) (w : Window) : Window :=
  {| innerWidth := innerWidth w; innerHeight := innerHeight w;
     devicePixelRatio := devicePixelRatio w; context2d := context2d w;
     listeners := ls; timers := timers w; frames := frames w;
     nextTimer := nextTimer w; nextFrame := nextFrame w; nextFn := nextFn w |}.

Definition set_timers (ts : list (nat * FnRef * Q)) (n : nat) (w : Window) : Window :=
  {| innerWidth := innerWidth w; innerHeight := innerHeight w;
     devicePixelRatio := devicePixelRatio w; context2d := context2d w;
     listeners := listeners w; timers := ts; frames := frames w;
     nextTimer := n; nextFrame := nextFrame w; nextFn := nextFn w |}.

Definition set_frames (fs : list (nat * FnRef)) (n : nat) (w : Window) : Window :=
  {| innerWidth := innerWidth w; innerHeight := innerHeight w;
     devicePixelRatio := devicePixelRatio w; context2d := context2d w;
     listeners := listeners w; timers := timers w; frames := fs;
     nextTimer := nextTimer w; nextFrame := n; nextFn := nextFn w |}.

Definition set_nextFn (n : nat) (w : Window) : Window :=
  {| innerWidth := innerWidth w; innerHeight := innerHeight w;
     devicePixelRatio := devicePixelRatio w; context2d := context2d w;
     listeners := listeners w; timers := timers w; frames := frames w;
     nextTimer := nextTimer w; nextFrame := nextFrame w; nextFn := n |}.

Definition set_inner (W H : Z) (w : Window) : Window :=
  {| innerWidth := W; innerHeight := H;
     devicePixelRatio := devicePixelRatio w; context2d := context2d w;
     listeners := listeners w; timers := timers w; frames := frames w;
     nextTimer := nextTimer w; nextFrame := nextFrame w; nextFn := nextFn w |}.

(** [f.bind(this)] and the evaluation of an arrow-function expression: a
    function object nobody else holds. *)
Definition alloc (mk : nat -> FnRef) (w : Window) : FnRef * Window :=
  (mk (nextFn w), set_nextFn (S (nextFn w)) w).

(** [window.addEventListener(type, fn)]: appended unless the same type and
    the same callback object are already registered. *)
Definition addEventListener (ty : EventType) (fn : FnRef) (w : Window) : Window :=
  if existsb (Listener_eqb (ty, fn)) (listeners w) then w
  else set_listeners (listeners w ++ [(ty, fn)]) w.

(** [window.removeEventListener(type, fn)]: removes the listener of that
    type whose callback is the object [fn]; nothing happens when there is
    none. *)
Definition removeEventListener (ty : EventType) (fn : FnRef) (w : Window) : Window :=
  set_listeners (filter (fun l => negb (Listener_eqb (ty, fn) l)) (listeners w)) w.

(** [setTimeout(fn, delay)]: a positive handle. *)
Definition setTimeout (fn : FnRef) (delay : Q) (w : Window) : nat * Window :=
  let id := S (nextTimer w) in
  (id, set_timers (timers w ++ [(id, fn, delay)]) id w).

(** [clearTimeout(handle)]; [null] and unknown handles are ignored. *)
Definition clearTimeout (handle : option nat) (w : Window) : Window :=
  match handle with
  | None => w
  | Some id =>
      set_timers (filter (fun t => negb (Nat.eqb (fst (fst t)) id)) (timers w))
                 (nextTimer w) w
  end.

(** [requestAnimationFrame(fn)]: a positive handle. *)
Definition requestAnimationFrame (fn : FnRef) (w : Window) : nat * Window :=
  let id := S (nextFrame w) in
  (id, set_frames (frames w ++ [(id, fn)]) id w).

Definition cancelAnimationFrame (id : nat) (w : Window) : Window :=
  set_frames (filter (fun f => negb (Nat.eqb (fst f) id)) (frames w))
             (nextFrame w) w.

(** A window nothing has been registered on. *)
Definition fresh (W H : Z) (dpr : Q) (ctx2d : bool) : Window :=
  {| innerWidth := W; innerHeight := H; devicePixelRatio := dpr;
     context2d := ctx2d; listeners := []; timers := []; frames := [];
     nextTimer := 0; nextFrame := 0; nextFn := 0 |}.

End DOM.

(** ** The service: fields *)

(** The [readonly] fields, and [fps] and [fpsInterval], which are set by
    their initialisers and assigned nowhere else.  [fpsInterval] holds the
    quotient as binary64 has it, 16.666666666666668. *)
Definition particleCount : nat := 4500.
Definition MAX_WIDTH : Z := 1920.
Definition MAX_HEIGHT : Z := 1080.
Definition MOUSE_MOVE_THROTTLE_MS : Q := 16.
Definition fps : Q := 60.
Definition fpsInterval : Q := F64.round (1000 / fps).

(** The mutable fields of a [ParticleService].  [then_] is the field
    [then]; [animationFrameId] is [0] until a frame has been requested, and
    [resizeTimeout] is [None] for [null]. *)
Record ParticleService := mkParticleService {
  canvas : option nat;
  renderer : option THREE.WebGLRenderer;
  scene : option THREE.Scene;
  camera : option THREE.PerspectiveCamera;
  particlesMesh : option THREE.Points;
  animationFrameId : nat;
  progress : Q;
  mouseX : Q;
  mouseY : Q;
  currentRotationSpeed : Q;
  targetRotationSpeed : Q;
  resizeTimeout : option nat;
  lastMouseMoveTime : Q;
  then_ : Q
}.

(** The field initialisers of the class. *)
Definition new_ParticleService : ParticleService :=
  {| canvas := None; renderer := None; scene := None; camera := None;
     particlesMesh := None; animationFrameId := 0%nat;
     progress := 0; mouseX := 0; mouseY := 0;
     currentRotationSpeed := 0.001; targetRotationSpeed := 0.001;
     resizeTimeout := None; lastMouseMoveTime := 0; then_ := 0 |}.

Definition set_canvas (v : option nat) (s : ParticleService) : ParticleService :=
  mkParticleService v (renderer s) (scene s) (camera s) (particlesMesh s)
    (animationFrameId s) (progress s) (mouseX s) (mouseY s)
    (currentRotationSpeed s) (targetRotationSpeed s) (resizeTimeout s)
    (lastMouseMoveTime s) (then_ s).

Definition set_renderer (v : option THREE.WebGLRenderer) (s : ParticleService) : ParticleService :=
  mkParticleService (canvas s) v (scene s) (camera s) (particlesMesh s)
    (animationFrameId s) (progress s) (mouseX s) (mouseY s)
    (currentRotationSpeed s) (targetRotationSpeed s) (resizeTimeout s)
    (lastMouseMoveTime s) (then_ s).

Definition set_scene (v : option THREE.Scene) (s : ParticleService) : ParticleService :=
  mkParticleService (canvas s) (renderer s) v (camera s) (particlesMesh s)
    (animationFrameId s) (progress s) (mouseX s) (mouseY s)
    (currentRotationSpeed s) (targetRotationSpeed s) (resizeTimeout s)
    (lastMouseMoveTime s) (then_ s).

Definition set_camera (v : option THREE.PerspectiveCamera) (s : ParticleService) : ParticleService :=
  mkParticleService (canvas s) (renderer s) (scene s) v (particlesMesh s)
    (animationFrameId s) (progress s) (mouseX s) (mouseY s)
    (currentRotationSpeed s) (targetRotationSpeed s) (resizeTimeout s)
    (lastMouseMoveTime s) (then_ s).

Definition set_particlesMesh (v : option THREE.Points) (s : ParticleService) : ParticleService :=
  mkParticleService (canvas s) (renderer s) (scene s) (camera s) v
    (animationFrameId s) (progress s) (mouseX s) (mouseY s)
    (currentRotationSpeed s) (targetRotationSpeed s) (resizeTimeout s)
    (lastMouseMoveTime s) (then_ s).

Definition set_animationFrameId (v : nat) (s : ParticleService) : ParticleService :=
  mkParticleService (canvas s) (renderer s) (scene s) (camera s) (particlesMesh s)
    v (progress s) (mouseX s) (mouseY s)
    (currentRotationSpeed s) (targetRotationSpeed s) (resizeTimeout s)
    (lastMouseMoveTime s) (then_ s).

Definition set_progress (v : Q) (s : ParticleService) : ParticleService :=
  mkParticleService (canvas s) (renderer s) (scene s) (camera s) (particlesMesh s)
    (animationFrameId s) v (mouseX s) (mouseY s)
    (currentRotationSpeed s) (targetRotationSpeed s) (resizeTimeout s)
    (lastMouseMoveTime s) (then_ s).

Definition set_mouseX (v : Q) (s : ParticleService) : ParticleService :=
  mkParticleService (canvas s) (renderer s) (scene s) (camera s) (particlesMesh s)
    (animationFrameId s) (progress s) v (mouseY s)
    (currentRotationSpeed s) (targetRotationSpeed s) (resizeTimeout s)
    (lastMouseMoveTime s) (then_ s).

Definition set_mouseY (v : Q) (s : ParticleService) : ParticleService :=
  mkParticleService (canvas s) (renderer s) (scene s) (camera s) (particlesMesh s)
    (animationFrameId s) (progress s) (mouseX s) v
    (currentRotationSpeed s) (targetRotationSpeed s) (resizeTimeout s)
    (lastMouseMoveTime s) (then_ s).

Definition set_currentRotationSpeed (v : Q) (s : ParticleService) : ParticleService :=
  mkParticleService (canvas s) (renderer s) (scene s) (camera s) (particlesMesh s)
    (animationFrameId s) (progress s) (mouseX s) (mouseY s)
    v (targetRotationSpeed s) (resizeTimeout s)
    (lastMouseMoveTime s) (then_ s).

Definition set_resizeTimeout (v : option nat) (s : ParticleService) : ParticleService :=
  mkParticleService (canvas s) (renderer s) (scene s) (camera s) (particlesMesh s)
    (animationFrameId s) (progress s) (mouseX s) (mouseY s)
    (currentRotationSpeed s) (targetRotationSpeed s) v
    (lastMouseMoveTime s) (then_ s).

Definition set_lastMouseMoveTime (v : Q) (s : ParticleService) : ParticleService :=
  mkParticleService (canvas s) (renderer s) (scene s) (camera s) (particlesMesh s)
    (animationFrameId s) (progress s) (mouseX s) (mouseY s)
    (currentRotationSpeed s) (targetRotationSpeed s) (resizeTimeout s)
    v (then_ s).

Definition set_then (v : Q) (s : ParticleService) : ParticleService :=
  mkParticleService (canvas s) (renderer s) (scene s) (camera s) (particlesMesh s)
    (animationFrameId s) (progress s) (mouseX s) (mouseY s)
    (currentRotationSpeed s) (targetRotationSpeed s) (resizeTimeout s)
    (lastMouseMoveTime s) v.

(** The instance, the window it is attached to and the number of
    [Math.random()] draws made so far. *)
Record World := mkWorld {
  svc : ParticleService;
  wnd : DOM.Window;
  rng : N
}.

Definition upd_svc (f : ParticleService -> ParticleService) (w : World) : World :=
  {| svc := f (svc w); wnd := wnd w; rng := rng w |}.

Definition upd_wnd (f : DOM.Window -> DOM.Window) (w : World) : World :=
  {| svc := svc w; wnd := f (wnd w); rng := rng w |}.

(** A newly constructed service in the window [wn]. *)
Definition new_World (wn : DOM.Window) : World :=
  {| svc := new_ParticleService; wnd := wn; rng := 0%N |}.

(** ** The service: methods *)

(** Draws of [Math.random()]: a computation that reads the stream at the
    cursor and moves the cursor on. *)
Definition Rand (A : Type) : Type := N -> A * N.

Definition ret {A : Type} (a : A) : Rand A := fun k => (a, k).

Definition bind {A B : Type} (m : Rand A) (f : A -> Rand B) : Rand B :=
  fun k => let (a, k') := m k in f a k'.

Notation "'let*' x ':=' m 'in' f" := (bind m (fun x => f))
  (at level 10, x name, m at level 100, f at level 200).

(** A [Float32Array]: [new Float32Array(n)] is [n] zeros, and a store
    outside the array is ignored. *)
Fixpoint store (a : list Q) (i : nat) (v : Q) : list Q :=
  match a, i with
  | [], _ => []
  | _ :: t, O => v :: t
  | h :: t, S j => h :: store t j v
  end.

(** The constants of one iteration of the generator's loop. *)
Record Particle := mkParticle {
  radius : Q;
  spinAngle : Q;
  branchAngle : Q;
  x : Q;
  y : Q;
  z : Q;
  mixedColor : THREE.Color;
  psize : Q
}.

(** The three typed arrays the loop fills. *)
Record Buffers := mkBuffers {
  positions : list Q;
  colors : list Q;
  sizes : list Q
}.

Definition colorInside : THREE.Color := THREE.Color_of_hex 0xffbf00.
Definition colorOutside : THREE.Color := THREE.Color_of_hex 0xffffff.

(** [animate]: [isProcessing] and [targetSpeed] as functions of the stored
    progress. *)
Definition isProcessing (progress : Q) : bool :=
  JS.gtb progress 0 && JS.ltb progress 100.

Definition targetSpeed (progress : Q) : Q :=
  if isProcessing progress then 0.05 else 0.001.

Section Service.

(** [Math.PI], [Math.cos], [Math.sin], the values [Math.random()] returns,
    in the order of the calls, and the number of calls of [Math.random()]
    three.js makes inside the constructor of each class. *)
Variable Math_PI : Q.
Variables Math_cos Math_sin : Q -> Q.
Variable random : N -> Q.
Variable ctor_draws : THREE.Class -> N.

Definition Math_random : Rand Q := fun k => (random k, N.succ k).

Definition setProgress (p : Q) (w : World) : World :=
  upd_svc (set_progress p) w.

Definition getTexture (w : World) : THREE.Texture :=
  if DOM.context2d (wnd w) then
    THREE.CanvasTexture 32 32
      [ (0, (255%Z, 255%Z, 255%Z, 1));
        (0.2, (255%Z, 255%Z, 255%Z, 0.8));
        (0.5, (255%Z, 255%Z, 255%Z, 0.2));
        (1, (0%Z, 0%Z, 0%Z, 0)) ]
  else THREE.BlankTexture.

(** The body of the loop of [createGalaxySystem], up to the stores. *)
Definition galaxyParticle (i : nat) : Rand Particle :=
  let* u := Math_random in
  let radius := u * 200 in
  let spinAngle := radius * 0.05 in
  let branchAngle := inject_Z (Z.of_nat (i mod 3)) * ((2 * Math_PI) / 3) in
  let* ux := Math_random in
  let* sx := Math_random in
  let randomX := JS.pow3 ux * (if JS.ltb sx 0.5 then 1 else -1) * 30 in
  let* uy := Math_random in
  let* sy := Math_random in
  let randomY := JS.pow3 uy * (if JS.ltb sy 0.5 then 1 else -1) * 30 in
  let* uz := Math_random in
  let* sz := Math_random in
  let randomZ := JS.pow3 uz * (if JS.ltb sz 0.5 then 1 else -1) * 30 in
  let x := Math_cos (branchAngle + spinAngle) * radius + randomX in
  let* v := Math_random in
  let y := (v - 0.5) * (radius * 0.2) + randomY in
  let z := Math_sin (branchAngle + spinAngle) * radius + randomZ in
  let mixedColor := THREE.lerp colorInside colorOutside (radius / 200) in
  let* s := Math_random in
  ret {| radius := radius; spinAngle := spinAngle; branchAngle := branchAngle;
         x := x; y := y; z := z; mixedColor := mixedColor; psize := s * 2 |}.

(** One iteration: the particle, then the seven stores. *)
Definition galaxyStep (i : nat) (bufs : Buffers) : Rand Buffers :=
  let* p := galaxyParticle i in
  ret {| positions :=
           store (store (store (positions bufs) (i * 3) (x p))
                        (i * 3 + 1) (y p))
                 (i * 3 + 2) (z p);
         colors :=
           store (store (store (colors bufs) (i * 3) (THREE.r (mixedColor p)))
                        (i * 3 + 1) (THREE.g (mixedColor p)))
                 (i * 3 + 2) (THREE.b (mixedColor p));
         sizes := store (sizes bufs) i (psize p) |}.

(** [n] iterations from index [i] on. *)
Fixpoint galaxyLoop (n i : nat) (bufs : Buffers) : Rand Buffers :=
  match n with
  | O => ret bufs
  | S n' => let* bufs' := galaxyStep i bufs in galaxyLoop n' (S i) bufs'
  end.

(** [createGalaxySystem].  The stream of [Math.random()] is read by the
    constructor of the geometry, then by the loop, then by the constructors
    of the texture ([getTexture], an argument of the material), of the
    material and of the points. *)
Definition createGalaxySystem (w : World) : World :=
  match scene (svc w) with
  | None => w
  | Some sc =>
      let k0 := (rng w + ctor_draws THREE.C_BufferGeometry)%N in
      let bufs0 :=
        {| positions := repeat 0 (particleCount * 3);
           colors := repeat 0 (particleCount * 3);
           sizes := repeat 0 particleCount |} in
      let (bufs, k1) := galaxyLoop particleCount 0 bufs0 k0 in
      let geometry :=
        THREE.mkBufferGeometry (positions bufs) (colors bufs) (sizes bufs) in
      let texture := getTexture w in
      let material :=
        {| THREE.mat_size := 5;
           THREE.mat_vertexColors := true;
           THREE.mat_map := texture;
           THREE.mat_blending := THREE.AdditiveBlending;
           THREE.mat_depthWrite := false;
           THREE.mat_transparent := true;
           THREE.mat_opacity := 0.9;
           THREE.mat_sizeAttenuation := true |} in
      let mesh := THREE.new_Points geometry material in
      {| svc := set_scene (Some (THREE.Scene_add sc))
                  (set_particlesMesh (Some mesh) (svc w));
         wnd := wnd w;
         rng := (k1 + ctor_draws (THREE.class_of_texture texture)
                 + ctor_draws THREE.C_PointsMaterial
                 + ctor_draws THREE.C_Points)%N |}
  end.

Definition onResize (w : World) : World :=
  match camera (svc w), renderer (svc w) with
  | Some cam, Some rd =>
      let newWidth := Z.min (DOM.innerWidth (wnd w)) MAX_WIDTH in
      let newHeight := Z.min (DOM.innerHeight (wnd w)) MAX_HEIGHT in
      let cam' :=
        THREE.updateProjectionMatrix
          (THREE.set_aspect (inject_Z newWidth / inject_Z newHeight) cam) in
      upd_svc (fun s =>
                 set_renderer (Some (THREE.setSize newWidth newHeight rd))
                   (set_camera (Some cam') s)) w
  | _, _ => w
  end.

(** [now] is what [performance.now()] returns; the difference is the
    binary64 one. *)
Definition onMouseMove (event : DOM.MouseEvent) (now : Q) (w : World) : World :=
  if JS.ltb (F64.round (now - lastMouseMoveTime (svc w)))
       MOUSE_MOVE_THROTTLE_MS then w
  else
    upd_svc (fun s =>
      set_mouseY
        (- (DOM.clientY event / inject_Z (DOM.innerHeight (wnd w))) * 2 + 1)
        (set_mouseX
           (DOM.clientX event / inject_Z (DOM.innerWidth (wnd w)) * 2 - 1)
           (set_lastMouseMoveTime now s))) w.

(** The field [debouncedOnResize]. *)
Definition debouncedOnResize (w : World) : World :=
  let wn1 := DOM.clearTimeout (resizeTimeout (svc w)) (wnd w) in
  let (fn, wn2) := DOM.alloc DOM.ResizeArrow wn1 in
  let (id, wn3) := DOM.setTimeout fn 150 wn2 in
  {| svc := set_resizeTimeout (Some id) (svc w); wnd := wn3; rng := rng w |}.

(** [now] is the first [Date.now()] of the call, [time] the second one.
    The two subtractions of the timer are rounded to binary64; the
    remainder of two binary64 numbers is one, so [%] needs no rounding. *)
Definition animate (now time : Q) (w : World) : World :=
  let (fn, wn1) := DOM.alloc (DOM.Bound DOM.Animate) (wnd w) in
  let (id, wn2) := DOM.requestAnimationFrame fn wn1 in
  let w1 :=
    {| svc := set_animationFrameId id (svc w); wnd := wn2; rng := rng w |} in
  let elapsed := F64.round (now - then_ (svc w1)) in
  if JS.gtb elapsed fpsInterval then
    let w2 :=
      upd_svc (set_then (F64.round (now - JS.rem elapsed fpsInterval))) w1 in
    match scene (svc w2), camera (svc w2), renderer (svc w2),
          particlesMesh (svc w2) with
    | Some sc, Some cam, Some rd, Some mesh =>
        let speed :=
          currentRotationSpeed (svc w2)
          + (targetSpeed (progress (svc w2)) - currentRotationSpeed (svc w2))
            * 0.05 in
        let rot := THREE.rotation mesh in
        let ry := THREE.vy rot + speed in
        let targetTiltX := mouseY (svc w2) * 0.2 in
        let targetTiltZ := mouseX (svc w2) * 0.1 in
        let rx := THREE.vx rot + (targetTiltX - THREE.vx rot) * 0.05 in
        let rz := THREE.vz rot + (targetTiltZ - THREE.vz rot) * 0.05 in
        let mesh' := THREE.set_rotation (THREE.mkVector3 rx ry rz) mesh in
        let t := time * 0.0005 in
        let pos := THREE.position cam in
        let cam' :=
          THREE.lookAt 0 0 0
            (THREE.set_position
               (THREE.mkVector3 (THREE.vx pos) (100 + Math_sin t * 10)
                  (THREE.vz pos)) cam) in
        upd_svc (fun s =>
          set_renderer (Some (THREE.render rd))
            (set_camera (Some cam')
               (set_particlesMesh (Some mesh')
                  (set_currentRotationSpeed speed s)))) w2
    | _, _, _, _ => w2
    end
  else w1.

(** [init(canvas)], steps 1 to 3 of its body: the renderer with its capped
    pixel ratio, the scene, and the camera placed at (0, 100, 400) and aimed
    at the origin. *)
Definition init_setup (canvas : nat) (w : World) : World :=
  let rd :=
    THREE.setPixelRatio (Qmin (DOM.devicePixelRatio (wnd w)) 1.5)
      (THREE.new_WebGLRenderer canvas true true) in
  let cam0 :=
    THREE.new_PerspectiveCamera 60
      (inject_Z (DOM.innerWidth (wnd w)) / inject_Z (DOM.innerHeight (wnd w)))
      0.1 1000 in
  let cam1 :=
    THREE.set_position
      (THREE.mkVector3 (THREE.vx (THREE.position cam0))
         (THREE.vy (THREE.position cam0)) 400) cam0 in
  let cam2 :=
    THREE.set_position
      (THREE.mkVector3 (THREE.vx (THREE.position cam1)) 100
         (THREE.vz (THREE.position cam1))) cam1 in
  let cam := THREE.lookAt 0 0 0 cam2 in
  {| svc :=
       set_camera (Some cam)
         (set_scene (Some THREE.new_Scene)
            (set_renderer (Some rd) (set_canvas (Some canvas) (svc w))));
     wnd := wnd w;
     rng := (rng w + ctor_draws THREE.C_WebGLRenderer
             + ctor_draws THREE.C_Scene
             + ctor_draws THREE.C_PerspectiveCamera)%N |}.

(** Step 5: the two [addEventListener] calls.  The resize listener is the
    stored field; the mouse listener is the result of
    [this.onMouseMove.bind(this)], an object made here and kept nowhere. *)
Definition init_listeners (w : World) : World :=
  let wn1 :=
    DOM.addEventListener DOM.Resize DOM.FieldDebouncedOnResize (wnd w) in
  let (bound, wn2) := DOM.alloc (DOM.Bound DOM.OnMouseMove) wn1 in
  {| svc := svc w;
     wnd := DOM.addEventListener DOM.MouseMove bound wn2;
     rng := rng w |}.

(** [init(canvas)]; [now] is the [Date.now()] that initialises the timer,
    [anow] and [atime] are the two read by the call of [animate]. *)
Definition init (canvas : nat) (now anow atime : Q) (w : World) : World :=
  let w1 := init_setup canvas w in
  let w2 := createGalaxySystem w1 in
  let w3 := init_listeners w2 in
  let w4 := onResize w3 in
  let w5 := upd_svc (set_then now) w4 in
  animate anow atime w5.

Definition destroy (w : World) : World :=
  let wn1 :=
    if negb (Nat.eqb (animationFrameId (svc w)) 0)
    then DOM.cancelAnimationFrame (animationFrameId (svc w)) (wnd w)
    else wnd w in
  let wn2 := DOM.removeEventListener DOM.Resize DOM.FieldDebouncedOnResize wn1 in
  let wn3 := DOM.clearTimeout (resizeTimeout (svc w)) wn2 in
  let wn4 := DOM.removeEventListener DOM.MouseMove (DOM.Proto DOM.OnMouseMove) wn3 in
  let s' :=
    match renderer (svc w) with
    | Some rd => set_renderer (Some (THREE.dispose rd)) (svc w)
    | None => svc w
    end in
  {| svc := s'; wnd := wn4; rng := rng w |}.

(** *** The event loop

    What the browser does with the callbacks it was given.  [Inputs] are the
    values a callback reads from its environment while it runs: the event
    object, and the clock ([performance.now()] for the mouse handler, the
    two [Date.now()] of [animate]). *)

Record Inputs := mkInputs {
  in_event : DOM.MouseEvent;
  in_now : Q;
  in_time : Q
}.

(** Calling a function object.  Every bound function and every arrow
    closure was made by the service with itself as [this]; a prototype
    method called as a listener runs with another [this] and leaves the
    service alone. *)
Definition invoke (fn : DOM.FnRef) (inp : Inputs) (w : World) : World :=
  match fn with
  | DOM.FieldDebouncedOnResize => debouncedOnResize w
  | DOM.Bound DOM.OnMouseMove _ => onMouseMove (in_event inp) (in_now inp) w
  | DOM.Bound DOM.Animate _ => animate (in_now inp) (in_time inp) w
  | DOM.ResizeArrow _ => onResize w
  | DOM.Proto _ => w
  end.

(** An event of type [ty] reaches the window: the listeners registered for
    it at that moment run in the order of registration. *)
Definition dispatchEvent (ty : DOM.EventType) (inp : Inputs) (w : World) : World :=
  fold_left
    (fun acc l =>
       if DOM.EventType_eqb (fst l) ty then invoke (snd l) inp acc else acc)
    (DOM.listeners (wnd w)) w.

(** The timeout with handle [id] expires, if it is still pending. *)
Definition fireTimer (id : nat) (inp : Inputs) (w : World) : World :=
  match find (fun t => Nat.eqb (fst (fst t)) id) (DOM.timers (wnd w)) with
  | Some (_, fn, _) => invoke fn inp (upd_wnd (DOM.clearTimeout (Some id)) w)
  | None => w
  end.

(** A display refresh: the animation-frame callbacks pending at that moment
    run, each once. *)
Definition runFrames (inp : Inputs) (w : World) : World :=
  fold_left (fun acc f => invoke (snd f) inp acc)
    (DOM.frames (wnd w))
    (upd_wnd (fun wn => DOM.set_frames [] (DOM.nextFrame wn) wn) w).

(** What can happen to a service: the calls of its host and the events of
    its window. *)
Inductive Action :=
| Init (canvas : nat) (now anow atime : Q)
| SetProgress (p : Q)
| Destroy
| WindowResized (W H : Z) (inp : Inputs)
| MouseMoved (inp : Inputs)
| TimerFired (id : nat) (inp : Inputs)
| Refreshed (inp : Inputs).

Definition step (a : Action) (w : World) : World :=
  match a with
  | Init c now anow atime => init c now anow atime w
  | SetProgress p => setProgress p w
  | Destroy => destroy w
  | WindowResized W H inp =>
      dispatchEvent DOM.Resize inp (upd_wnd (DOM.set_inner W H) w)
  | MouseMoved inp => dispatchEvent DOM.MouseMove inp w
  | TimerFired id inp => fireTimer id inp w
  | Refreshed inp => runFrames inp w
  end.

Definition run (acts : list Action) (w : World) : World :=
  fold_left (fun acc a => step a acc) acts w.

(** Scheduler callbacks in a row: [animate] once per time of [times], both
    clock readings of a callback being that time. *)
Definition callbacks (times : list Q) (w : World) : World :=
  fold_left (fun acc t => animate t t acc) times w.

End Service.

(** ** Observations used by the properties *)

(** Number of draw calls the renderer has issued ([0] without a renderer). *)
Definition draws (w : World) : nat :=
  match renderer (svc w) with
  | Some rd => THREE.drawCalls rd
  | None => 0%nat
  end.

(** The guard of the render logic in [animate]: all four handles are there. *)
Definition ready (w : World) : bool :=
  match scene (svc w), camera (svc w), renderer (svc w),
        particlesMesh (svc w) with
  | Some _, Some _, Some _, Some _ => true
  | _, _, _, _ => false
  end.

(** Rotation of the mesh about the vertical axis ([0] without a mesh). *)
Definition rotationY (w : World) : Q :=
  match particlesMesh (svc w) with
  | Some mesh => THREE.vy (THREE.rotation mesh)
  | None => 0
  end.

(** Size of the output surface and aspect ratio of the camera ([(0, 0)] and
    [0] when the handle is missing). *)
Definition outputSize (w : World) : Z * Z :=
  match renderer (svc w) with
  | Some rd => THREE.size rd
  | None => (0, 0)%Z
  end.

Definition cameraAspect (w : World) : Q :=
  match camera (svc w) with
  | Some cam => THREE.aspect cam
  | None => 0
  end.

(** The world after the first statement of [animate]: a new frame has been
    requested and its handle stored. *)
Definition rescheduled (w : World) : World :=
  {| svc := set_animationFrameId (S (DOM.nextFrame (wnd w))) (svc w);
     wnd :=
       DOM.set_frames
         (DOM.frames (wnd w)
          ++ [(S (DOM.nextFrame (wnd w)),
               DOM.Bound DOM.Animate (DOM.nextFn (wnd w)))])
         (S (DOM.nextFrame (wnd w)))
         (DOM.set_nextFn (S (DOM.nextFn (wnd w))) (wnd w));
     rng := rng w |}.

(** The elapsed time [animate] computes at the clock reading [now]. *)
Definition elapsed (now : Q) (w : World) : Q :=
  F64.round (now - then_ (svc w)).

(** The time since the last accepted event that [onMouseMove] computes at
    the reading [now] of [performance.now()]. *)
Definition since (now : Q) (w : World) : Q :=
  F64.round (now - lastMouseMoveTime (svc w)).


(** The largest clock reading the bounds on the frame rate are stated for:
    2^43 ms, which [Date.now()] reaches in the year 2248. *)
Definition clock_max : Q := 8796093022208.

(** Callback times [first], [first + period], ... ([n] of them). *)
Definition ticks (first period : Q) (n : nat) : list Q :=
  map (fun k => first + period * inject_Z (Z.of_nat k)) (seq 0 n).

(** The smoothed speed lies between the idle and the processing target. *)
Definition speed_in_range (w : World) : Prop :=
  0.001 <= currentRotationSpeed (svc w)
  /\ currentRotationSpeed (svc w) <= 0.05.

(** ** Shapes of states and actions *)

(** An action that is neither [init] nor [destroy]. *)
Definition keeps_running (a : Action) : bool :=
  match a with
  | Init _ _ _ _ | Destroy => false
  | _ => true
  end.

(** The service runs alone in its window: it has been initialised once and
    not destroyed, so that all handles are there, the window holds its two
    listeners and its one pending animation frame, whose handle is the stored
    one, and at most one pending timeout, the one whose handle is stored. *)
Definition running (w : World) : bool :=
  ready w
  && match DOM.listeners (wnd w) with
     | [(DOM.Resize, DOM.FieldDebouncedOnResize);
        (DOM.MouseMove, DOM.Bound DOM.OnMouseMove _)] => true
     | _ => false
     end
  && match DOM.frames (wnd w) with
     | [(id, DOM.Bound DOM.Animate _)] =>
         Nat.eqb id (animationFrameId (svc w)) && negb (Nat.eqb id 0)
     | _ => false
     end
  && match DOM.timers (wnd w), resizeTimeout (svc w) with
     | [], None => true
     | [], Some id => Nat.leb id (DOM.nextTimer (wnd w))
     | [(id, DOM.ResizeArrow _, _)], Some id' =>
         Nat.eqb id id' && Nat.leb id (DOM.nextTimer (wnd w))
     | _, _ => false
     end.

(** The window after a call of [requestAnimationFrame] with a newly bound
    [animate], and after the whole of [init]. *)
Definition request_frame (wn : DOM.Window) : DOM.Window :=
  DOM.set_frames
    (DOM.frames wn
     ++ [(S (DOM.nextFrame wn), DOM.Bound DOM.Animate (DOM.nextFn wn))])
    (S (DOM.nextFrame wn))
    (DOM.set_nextFn (S (DOM.nextFn wn)) wn).

Definition init_window (wn : DOM.Window) : DOM.Window :=
  request_frame
    (DOM.addEventListener DOM.MouseMove
       (DOM.Bound DOM.OnMouseMove (DOM.nextFn wn))
       (DOM.set_nextFn (S (DOM.nextFn wn))
          (DOM.addEventListener DOM.Resize DOM.FieldDebouncedOnResize wn))).

(** A resize event, given as the new width and height of the window and
    the inputs of the callbacks it runs. *)
Definition resized (e : Z * Z * Inputs) : Action :=
  WindowResized (fst (fst e)) (snd (fst e)) (snd e).

(** What [destroy] does to the window, given the stored frame handle and
    timeout handle. *)
Definition destroy_window (fid : nat) (rt : option nat) (wn : DOM.Window)
  : DOM.Window :=
  DOM.removeEventListener DOM.MouseMove (DOM.Proto DOM.OnMouseMove)
    (DOM.clearTimeout rt
       (DOM.removeEventListener DOM.Resize DOM.FieldDebouncedOnResize
          (if negb (Nat.eqb fid 0) then DOM.cancelAnimationFrame fid wn
           else wn))).

(** The camera where the service keeps it: the lens of [init], the eye on
    the line x = 0, z = 400 at a height within 10 of 100, aimed at the
    origin from where it stands. *)
Definition camera_placed (cam : THREE.PerspectiveCamera) : Prop :=
  THREE.fov cam = 60 /\ THREE.near cam = 0.1 /\ THREE.far cam = 1000
  /\ THREE.vx (THREE.position cam) = 0
  /\ THREE.vz (THREE.position cam) = 400
  /\ 90 <= THREE.vy (THREE.position cam)
  /\ THREE.vy (THREE.position cam) <= 110
  /\ THREE.lookingAt cam
     = Some (THREE.position cam, THREE.mkVector3 0 0 0).

(** The service between two calls: either never initialised, with no
    handle at all, or with all four handles, the camera placed, the pixel
    ratio and the output surface within their caps, and the camera's aspect
    and projection those of the output surface. *)
Definition view_ok (w : World) : Prop :=
  match camera (svc w), renderer (svc w) with
  | None, None => scene (svc w) = None /\ particlesMesh (svc w) = None
  | Some cam, Some rd =>
      ready w = true
      /\ camera_placed cam
      /\ THREE.pixelRatio rd <= 1.5
      /\ THREE.rd_alpha rd = true /\ THREE.rd_antialias rd = true
      /\ (fst (THREE.size rd) <= MAX_WIDTH)%Z
      /\ (snd (THREE.size rd) <= MAX_HEIGHT)%Z
      /\ THREE.aspect cam
         = inject_Z (fst (THREE.size rd)) / inject_Z (snd (THREE.size rd))
      /\ THREE.projection cam = (60, THREE.aspect cam, 0.1, 1000)
  | _, _ => False
  end.

(** The one action that builds the point cloud. *)
Definition rebuilds (a : Action) : bool :=
  match a with
  | Init _ _ _ _ => true
  | _ => false
  end.

(** Two states with the same canvas, the same scene, the same buffers and
    material in the mesh, and the same position in the random stream. *)
Definition same_cloud (w w' : World) : Prop :=
  canvas (svc w') = canvas (svc w)
  /\ scene (svc w') = scene (svc w)
  /\ option_map THREE.geometry (particlesMesh (svc w'))
     = option_map THREE.geometry (particlesMesh (svc w))
  /\ option_map THREE.material (particlesMesh (svc w'))
     = option_map THREE.material (particlesMesh (svc w))
  /\ rng w' = rng w.

(** Tilt of the mesh about the two horizontal axes ([0] without a mesh). *)
Definition rotationX (w : World) : Q :=
  match particlesMesh (svc w) with
  | Some mesh => THREE.vx (THREE.rotation mesh)
  | None => 0
  end.

Definition rotationZ (w : World) : Q :=
  match particlesMesh (svc w) with
  | Some mesh => THREE.vz (THREE.rotation mesh)
  | None => 0
  end.

(** One mounting of the view that hosts the service: [init], then
    [destroy]. *)
Definition mounting (e : nat * Q * Q * Q) : list Action :=
  [Init (fst (fst (fst e))) (snd (fst (fst e))) (snd (fst e)) (snd e);
   Destroy].

(** The mouse listeners [n] calls of [init] bind in a new window. *)
Definition bound_mouse_listeners (n : nat) : list DOM.Listener :=
  map (fun j => (DOM.MouseMove, DOM.Bound DOM.OnMouseMove (2 * j)))
    (seq 0 n).

(** The window [DOM.fresh W H dpr ctx] after [n] mountings. *)
Definition remounted_window (W H : Z) (dpr : Q) (ctx : bool) (n : nat)
  : DOM.Window :=
  {| DOM.innerWidth := W; DOM.innerHeight := H;
     DOM.devicePixelRatio := dpr; DOM.context2d := ctx;
     DOM.listeners := bound_mouse_listeners n;
     DOM.timers := []; DOM.frames := [];
     DOM.nextTimer := 0; DOM.nextFrame := n; DOM.nextFn := 2 * n |}.

(** ** Trial runs *)

(** A window of 1280 by 720 pixels, device pixel ratio 1, where a 2D
    context can be had. *)
Definition sample_window : DOM.Window := DOM.fresh 1280 720 1 true.

(** Draws 0, 0.1, ..., 0.9, 0, 0.1, ... *)
Definition sample_random (k : N) : Q := inject_Z (Z.of_N (k mod 10)) / 10.

(** A stand-in for [Math.cos] and [Math.sin] where their values play no
    part. *)
Definition flat (_ : Q) : Q := 0.

(** Four draws for every identifier: one for the scene, the camera, the
    geometry, the material and the points, two for a texture (its own and
    that of its source), none for the renderer. *)
Definition sample_draws (c : THREE.Class) : N :=
  match c with
  | THREE.C_WebGLRenderer => 0
  | THREE.C_Texture | THREE.C_CanvasTexture => 8
  | _ => 4
  end.

(** [init] at time 1000 in a 1280x720 window. *)
Definition booted : World :=
  Eval vm_compute in
    init 3 flat flat sample_random sample_draws 7 1000 1000 1000
      (new_World sample_window).

(** A stream whose every draw is one half. *)
Definition half_random (_ : N) : Q := 0.5.

(** * Auxiliary results *)

(** ** Comparisons and remainder *)

Lemma ltb_true_iff (a b : Q) : JS.ltb a b = true <-> a < b.
Proof.
  unfold JS.ltb. destruct (Qlt_le_dec a b) as [H | H]; split; intro K;
    try reflexivity; try assumption; try discriminate.
  exfalso. apply (Qlt_not_le _ _ K H).
Qed.

Lemma ltb_false_iff (a b : Q) : JS.ltb a b = false <-> b <= a.
Proof.
  unfold JS.ltb. destruct (Qlt_le_dec a b) as [H | H]; split; intro K;
    try reflexivity; try assumption; try discriminate.
  exfalso. apply (Qlt_not_le _ _ H K).
Qed.

Lemma gtb_true_iff (a b : Q) : JS.gtb a b = true <-> b < a.
Proof. unfold JS.gtb. apply ltb_true_iff. Qed.

Lemma gtb_false_iff (a b : Q) : JS.gtb a b = false <-> a <= b.
Proof. unfold JS.gtb. apply ltb_false_iff. Qed.

Lemma trunc_floor (q : Q) : 0 <= q -> JS.trunc q = Qfloor q.
Proof.
  destruct q as [n d]. unfold JS.trunc, Qfloor, Qle. simpl. intro H.
  apply Z.quot_div_nonneg; lia.
Qed.

(** For [0 < b <= a] the remainder [a % b] is [a] less a whole, positive
    number of [b]s, and is smaller than [b]. *)
Lemma rem_whole (a b : Q) :
  0 < b -> b <= a ->
  (1 <= JS.trunc (a / b))%Z
  /\ JS.rem a b == a - b * inject_Z (JS.trunc (a / b))
  /\ 0 <= JS.rem a b /\ JS.rem a b < b.
Proof.
  intros Hb Hab.
  assert (Hq : 1 <= a / b).
  { apply Qle_shift_div_l; [assumption | lra]. }
  assert (Hq0 : 0 <= a / b) by lra.
  unfold JS.rem. rewrite (trunc_floor _ Hq0).
  pose proof (Qfloor_le (a / b)) as Hlo.
  pose proof (Qlt_floor (a / b)) as Hhi.
  rewrite inject_Z_plus in Hhi. change (inject_Z 1) with 1 in Hhi.
  assert (H1 : (1 <= Qfloor (a / b))%Z).
  { change 1%Z with (Qfloor 1). apply Qfloor_resp_le. exact Hq. }
  assert (Hba : b * (a / b) == a).
  { field. intro E. rewrite E in Hb. apply (Qlt_irrefl _ Hb). }
  set (k := inject_Z (Qfloor (a / b))) in *.
  assert (Hk : b * k <= b * (a / b)).
  { apply Qmult_le_l; assumption. }
  assert (Hk1 : b * (a / b) < b * (k + 1)).
  { apply Qmult_lt_l; assumption. }
  repeat split; try assumption; try reflexivity; lra.
Qed.

(** ** Binary64 rounding *)

Lemma pow2_pos (z : Z) : 0 < F64.pow2 z.
Proof. apply Qpower_0_lt. reflexivity. Qed.

Lemma pow2_succ (z : Z) : F64.pow2 (z + 1) == 2 * F64.pow2 z.
Proof.
  unfold F64.pow2. rewrite Qpower_plus by discriminate.
  rewrite Qpower_1_r. ring.
Qed.

Lemma pow2_le (a b : Z) : (a <= b)%Z -> F64.pow2 a <= F64.pow2 b.
Proof. intro H. apply Qpower_le_compat_l; [exact H | discriminate]. Qed.

Lemma pow2_lt (a b : Z) : (a < b)%Z -> F64.pow2 a < F64.pow2 b.
Proof. intro H. apply Qpower_lt_compat_l; [exact H | reflexivity]. Qed.

Lemma pow2_lt_inv (a b : Z) : F64.pow2 a < F64.pow2 b -> (a < b)%Z.
Proof. intro H. apply (Qpower_lt_compat_l_inv 2); [exact H | reflexivity]. Qed.

Lemma pow2_Z (n : Z) : (0 <= n)%Z -> F64.pow2 n == inject_Z (2 ^ n).
Proof. intro H. unfold F64.pow2. rewrite Zpower_Qpower by exact H. reflexivity. Qed.

Lemma pow2_sub (a b : Z) : F64.pow2 (a - b) == F64.pow2 a / F64.pow2 b.
Proof. unfold F64.pow2. apply Qpower_minus. discriminate. Qed.

Lemma Q_num_den (q : Q) : q == inject_Z (Qnum q) / inject_Z (Zpos (Qden q)).
Proof.
  destruct q as [n d]. unfold Qeq, Qdiv, Qmult, Qinv, inject_Z. simpl. lia.
Qed.

(** The binade of a positive number. *)
Lemma ilog2_spec (q : Q) :
  0 < q ->
  F64.pow2 (F64.ilog2 q) <= q /\ q < F64.pow2 (F64.ilog2 q + 1).
Proof.
  intro Hq.
  assert (Hn : (0 < Qnum q)%Z).
  { destruct q as [n d]. unfold Qlt in Hq. simpl in *. lia. }
  assert (Hd : (0 < Zpos (Qden q))%Z) by reflexivity.
  destruct (Z.log2_spec _ Hn) as [N0 N1].
  destruct (Z.log2_spec _ Hd) as [D0 D1].
  pose proof (Z.log2_nonneg (Qnum q)) as Ln.
  pose proof (Z.log2_nonneg (Zpos (Qden q))) as Ld.
  set (ln := Z.log2 (Qnum q)) in *. set (ld := Z.log2 (Zpos (Qden q))) in *.
  assert (QN0 : F64.pow2 ln <= inject_Z (Qnum q)).
  { rewrite pow2_Z by exact Ln. rewrite <- Zle_Qle. exact N0. }
  assert (QN1 : inject_Z (Qnum q) < F64.pow2 (ln + 1)).
  { rewrite pow2_Z by lia. rewrite <- Zlt_Qlt. exact N1. }
  assert (QD0 : F64.pow2 ld <= inject_Z (Zpos (Qden q))).
  { rewrite pow2_Z by exact Ld. rewrite <- Zle_Qle. exact D0. }
  assert (QD1 : inject_Z (Zpos (Qden q)) < F64.pow2 (ld + 1)).
  { rewrite pow2_Z by lia. rewrite <- Zlt_Qlt. exact D1. }
  assert (Hqd : q * inject_Z (Zpos (Qden q)) == inject_Z (Qnum q)).
  { rewrite (Q_num_den q) at 1. field. intro E.
    assert (K : 0 < inject_Z (Zpos (Qden q))) by reflexivity.
    rewrite E in K. discriminate K. }
  pose proof (pow2_pos ld) as Pld. pose proof (pow2_pos ln) as Pln.
  assert (Hup : q < F64.pow2 (ln - ld + 1)).
  { replace (ln - ld + 1)%Z with ((ln + 1) - ld)%Z by lia.
    rewrite pow2_sub. apply Qlt_shift_div_l; [exact Pld |].
    assert (q * F64.pow2 ld <= q * inject_Z (Zpos (Qden q))).
    { apply Qmult_le_l; assumption. }
    lra. }
  assert (Hlo : F64.pow2 (ln - ld - 1) < q).
  { replace (ln - ld - 1)%Z with (ln - (ld + 1))%Z by lia.
    rewrite pow2_sub. apply Qlt_shift_div_r; [apply pow2_pos |].
    assert (q * inject_Z (Zpos (Qden q)) < q * F64.pow2 (ld + 1)).
    { apply Qmult_lt_l; assumption. }
    lra. }
  unfold F64.ilog2. fold ln ld.
  destruct (Qle_bool (F64.pow2 (ln - ld)) q) eqn:E.
  - apply Qle_bool_iff in E. split; assumption.
  - assert (K : q < F64.pow2 (ln - ld)).
    { apply Qnot_le_lt. intro C. apply Qle_bool_iff in C. congruence. }
    replace (ln - ld - 1 + 1)%Z with (ln - ld)%Z by lia.
    split; [apply Qlt_le_weak; exact Hlo | exact K].
Qed.

Lemma ilog2_unique (q : Q) (e : Z) :
  F64.pow2 e <= q -> q < F64.pow2 (e + 1) -> F64.ilog2 q = e.
Proof.
  intros H0 H1.
  assert (Hq : 0 < q) by (pose proof (pow2_pos e); lra).
  destruct (ilog2_spec q Hq) as [S0 S1].
  assert (A : (F64.ilog2 q < e + 1)%Z) by (apply pow2_lt_inv; lra).
  assert (B : (e < F64.ilog2 q + 1)%Z) by (apply pow2_lt_inv; lra).
  lia.
Qed.

Lemma ilog2_comp (x y : Q) : 0 < x -> x == y -> F64.ilog2 x = F64.ilog2 y.
Proof.
  intros Hx E. destruct (ilog2_spec x Hx) as [S0 S1].
  symmetry. apply ilog2_unique; rewrite <- E; assumption.
Qed.

Lemma ilog2_mono (x y : Q) : 0 < x -> x <= y -> (F64.ilog2 x <= F64.ilog2 y)%Z.
Proof.
  intros Hx Hxy. assert (Hy : 0 < y) by lra.
  destruct (ilog2_spec x Hx) as [X0 X1]. destruct (ilog2_spec y Hy) as [Y0 Y1].
  assert (A : (F64.ilog2 x < F64.ilog2 y + 1)%Z) by (apply pow2_lt_inv; lra).
  lia.
Qed.

(** Rounding to the nearest integer, ties to even. *)
Lemma rne_cases (q : Q) :
  (F64.rne q = Qfloor q /\ q - inject_Z (Qfloor q) <= 1 # 2)
  \/ (F64.rne q = (Qfloor q + 1)%Z /\ 1 # 2 <= q - inject_Z (Qfloor q)).
Proof.
  unfold F64.rne.
  destruct (Qcompare (q - inject_Z (Qfloor q)) (1 # 2)) eqn:E.
  - apply Qeq_alt in E. destruct (Z.even (Qfloor q)); [left | right];
      (split; [reflexivity | rewrite E; apply Qle_refl]).
  - apply Qlt_alt in E. left. split; [reflexivity | lra].
  - apply Qgt_alt in E. right. split; [reflexivity | lra].
Qed.

Lemma rne_near (q : Q) :
  q - (1 # 2) <= inject_Z (F64.rne q) /\ inject_Z (F64.rne q) <= q + (1 # 2).
Proof.
  pose proof (Qfloor_le q) as F0. pose proof (Qlt_floor q) as F1.
  rewrite inject_Z_plus in F1. change (inject_Z 1) with 1 in F1.
  destruct (rne_cases q) as [[-> H] | [-> H]].
  - split; lra.
  - rewrite inject_Z_plus. change (inject_Z 1) with 1. split; lra.
Qed.

Lemma rne_comp (x y : Q) : x == y -> F64.rne x = F64.rne y.
Proof.
  intro E. unfold F64.rne. rewrite (Qfloor_comp _ _ E).
  assert (K : Qcompare (x - inject_Z (Qfloor y)) (1 # 2)
              = Qcompare (y - inject_Z (Qfloor y)) (1 # 2)).
  { apply Qcompare_comp; [rewrite E; reflexivity | reflexivity]. }
  rewrite K. reflexivity.
Qed.

Lemma rne_Z (z : Z) : F64.rne (inject_Z z) = z.
Proof.
  unfold F64.rne. rewrite Qfloor_Z.
  assert (E : Qcompare (inject_Z z - inject_Z z) (1 # 2) = Lt).
  { apply Qlt_alt.
    assert (K : inject_Z z - inject_Z z == 0) by ring.
    rewrite K. reflexivity. }
  rewrite E. reflexivity.
Qed.

Lemma rne_mono (x y : Q) : x <= y -> (F64.rne x <= F64.rne y)%Z.
Proof.
  intro H.
  pose proof (Qfloor_resp_le _ _ H) as Hf.
  destruct (Z.eq_dec (Qfloor x) (Qfloor y)) as [E | N].
  - unfold F64.rne. rewrite E.
    destruct (Qcompare (x - inject_Z (Qfloor y)) (1 # 2)) eqn:Cx;
      [apply Qeq_alt in Cx | apply Qlt_alt in Cx | apply Qgt_alt in Cx];
      (destruct (Qcompare (y - inject_Z (Qfloor y)) (1 # 2)) eqn:Cy;
       [apply Qeq_alt in Cy | apply Qlt_alt in Cy | apply Qgt_alt in Cy]);
      try (destruct (Z.even (Qfloor y))); try lia;
      exfalso; lra.
  - assert (L : (Qfloor x + 1 <= Qfloor y)%Z) by lia.
    destruct (rne_cases x) as [[-> _] | [-> _]];
      destruct (rne_cases y) as [[-> _] | [-> _]]; lia.
Qed.

(** A positive number rounds into its own binade, the upper end included. *)
Lemma round_pos_bounds (q : Q) :
  0 < q ->
  F64.pow2 (F64.ilog2 q) <= F64.round_pos q
  /\ F64.round_pos q <= F64.pow2 (F64.ilog2 q + 1).
Proof.
  intro Hq. destruct (ilog2_spec q Hq) as [S0 S1].
  unfold F64.round_pos. set (e := F64.ilog2 q) in *.
  pose proof (pow2_pos (e - 52)) as Pu.
  set (u := F64.pow2 (e - 52)) in *.
  assert (E0 : F64.pow2 e == inject_Z (2 ^ 52) * u).
  { unfold u. rewrite <- pow2_Z by lia. unfold F64.pow2.
    rewrite <- Qpower_plus by discriminate. apply Qpower_comp; [reflexivity | lia]. }
  assert (E1 : F64.pow2 (e + 1) == inject_Z (2 ^ 53) * u).
  { unfold u. rewrite <- pow2_Z by lia. unfold F64.pow2.
    rewrite <- Qpower_plus by discriminate. apply Qpower_comp; [reflexivity | lia]. }
  assert (M0 : inject_Z (2 ^ 52) <= q / u).
  { apply Qle_shift_div_l; [exact Pu | lra]. }
  assert (M1 : q / u <= inject_Z (2 ^ 53)).
  { apply Qle_shift_div_r; [exact Pu | lra]. }
  apply rne_mono in M0. apply rne_mono in M1. rewrite rne_Z in M0, M1.
  rewrite E0, E1.
  split; apply Qmult_le_compat_r; try lra; rewrite <- Zle_Qle; assumption.
Qed.

Lemma round_pos_comp (x y : Q) :
  0 < x -> x == y -> F64.round_pos x = F64.round_pos y.
Proof.
  intros Hx E. unfold F64.round_pos. rewrite (ilog2_comp x y Hx E).
  rewrite (rne_comp (x / F64.pow2 (F64.ilog2 y - 52))
             (y / F64.pow2 (F64.ilog2 y - 52))); [reflexivity |].
  rewrite E. reflexivity.
Qed.

Lemma round_pos_mono (x y : Q) :
  0 < x -> x <= y -> F64.round_pos x <= F64.round_pos y.
Proof.
  intros Hx Hxy. assert (Hy : 0 < y) by lra.
  pose proof (ilog2_mono x y Hx Hxy) as He.
  destruct (Z.eq_dec (F64.ilog2 x) (F64.ilog2 y)) as [E | N].
  - unfold F64.round_pos. rewrite E.
    pose proof (pow2_pos (F64.ilog2 y - 52)) as Pu.
    apply Qmult_le_compat_r; [| lra].
    rewrite <- Zle_Qle. apply rne_mono.
    apply Qmult_le_compat_r; [exact Hxy |].
    apply Qlt_le_weak. apply Qinv_lt_0_compat. exact Pu.
  - destruct (round_pos_bounds x Hx) as [_ Bx].
    destruct (round_pos_bounds y Hy) as [By _].
    assert (L : F64.pow2 (F64.ilog2 x + 1) <= F64.pow2 (F64.ilog2 y))
      by (apply pow2_le; lia).
    lra.
Qed.

Lemma round_pos_pos (q : Q) : 0 < q -> 0 < F64.round_pos q.
Proof.
  intro Hq. destruct (round_pos_bounds q Hq) as [B _].
  pose proof (pow2_pos (F64.ilog2 q)). lra.
Qed.

Lemma round_cases (q : Q) :
  (q == 0 /\ F64.round q = 0)
  \/ (0 < q /\ F64.round q = F64.round_pos q)
  \/ (q < 0 /\ F64.round q = - F64.round_pos (- q)).
Proof.
  unfold F64.round. destruct (Qcompare q 0) eqn:E.
  - left. apply Qeq_alt in E. split; [exact E | reflexivity].
  - right. right. apply Qlt_alt in E. split; [exact E | reflexivity].
  - right. left. apply Qgt_alt in E. split; [exact E | reflexivity].
Qed.

(** Rounding depends on the value only, and is monotone. *)
Lemma round_comp (x y : Q) : x == y -> F64.round x = F64.round y.
Proof.
  intro E.
  destruct (round_cases x) as [[Hx ->] | [[Hx ->] | [Hx ->]]];
    destruct (round_cases y) as [[Hy ->] | [[Hy ->] | [Hy ->]]];
    try reflexivity; try (exfalso; lra).
  - apply round_pos_comp; assumption.
  - f_equal. apply round_pos_comp; [lra | rewrite E; reflexivity].
Qed.

Lemma round_mono (x y : Q) : x <= y -> F64.round x <= F64.round y.
Proof.
  intro H.
  destruct (round_cases x) as [[Hx ->] | [[Hx ->] | [Hx ->]]];
    destruct (round_cases y) as [[Hy ->] | [[Hy ->] | [Hy ->]]];
    try (exfalso; lra); try lra.
  - pose proof (round_pos_pos y Hy). lra.
  - apply round_pos_mono; assumption.
  - assert (K : 0 < - x) by lra. pose proof (round_pos_pos _ K). lra.
  - assert (K : 0 < - x) by lra. pose proof (round_pos_pos _ K).
    pose proof (round_pos_pos y Hy). lra.
  - assert (K : 0 < - y) by lra.
    assert (L : - y <= - x) by lra.
    pose proof (round_pos_mono _ _ K L). lra.
Qed.

(** The relative error of rounding is at most 2^-53. *)
Lemma round_pos_error (q : Q) :
  0 < q ->
  q - q * F64.pow2 (-53) <= F64.round_pos q
  /\ F64.round_pos q <= q + q * F64.pow2 (-53).
Proof.
  intro Hq. destruct (ilog2_spec q Hq) as [S0 _].
  unfold F64.round_pos. set (e := F64.ilog2 q) in *.
  pose proof (pow2_pos (e - 52)) as Pu.
  set (u := F64.pow2 (e - 52)) in *.
  destruct (rne_near (q / u)) as [N0 N1].
  assert (Eq : q / u * u == q) by (field; lra).
  assert (Hu : u * (1 # 2) <= q * F64.pow2 (-53)).
  { assert (E : u * (1 # 2) == F64.pow2 e * F64.pow2 (-53)).
    { unfold u, F64.pow2.
      replace (e - 52)%Z with (e + -53 + 1)%Z by lia.
      rewrite !Qpower_plus by discriminate. rewrite Qpower_1_r. field. }
    rewrite E. apply Qmult_le_compat_r; [exact S0 |].
    apply Qlt_le_weak. apply pow2_pos. }
  set (r := inject_Z (F64.rne (q / u))) in *.
  assert (A : (q / u - (1 # 2)) * u <= r * u)
    by (apply Qmult_le_compat_r; lra).
  assert (B : r * u <= (q / u + (1 # 2)) * u)
    by (apply Qmult_le_compat_r; lra).
  split; nra.
Qed.

Lemma round_error (q : Q) :
  Qabs (F64.round q - q) <= Qabs q * F64.pow2 (-53).
Proof.
  pose proof (pow2_pos (-53)) as P.
  destruct (round_cases q) as [[Hq ->] | [[Hq ->] | [Hq ->]]].
  - rewrite Hq. vm_compute. discriminate.
  - destruct (round_pos_error q Hq) as [A B].
    rewrite (Qabs_pos q) by lra.
    apply Qabs_case; intro; nra.
  - assert (K : 0 < - q) by lra.
    destruct (round_pos_error _ K) as [A B].
    rewrite (Qabs_neg q) by lra.
    apply Qabs_case; intro; nra.
Qed.

Lemma pow2_add (a b : Z) : F64.pow2 (a + b) == F64.pow2 a * F64.pow2 b.
Proof. unfold F64.pow2. apply Qpower_plus. discriminate. Qed.

Lemma round_within (x lo hi : Q) :
  F64.round lo == lo -> F64.round hi == hi -> lo <= x -> x <= hi ->
  lo <= F64.round x /\ F64.round x <= hi.
Proof. intros Hl Hh H0 H1. apply round_mono in H0, H1. lra. Qed.

Lemma round_close (x b : Q) :
  - b <= x -> x <= b ->
  x - b * F64.pow2 (-53) <= F64.round x
  /\ F64.round x <= x + b * F64.pow2 (-53).
Proof.
  intros H0 H1. pose proof (round_error x) as E.
  assert (Ha : Qabs x <= b) by (apply Qabs_Qle_condition; split; assumption).
  pose proof (pow2_pos (-53)) as P.
  assert (Hb : Qabs x * F64.pow2 (-53) <= b * F64.pow2 (-53)).
  { apply Qmult_le_compat_r; lra. }
  apply Qabs_Qle_condition in E. destruct E as [E0 E1]. split; lra.
Qed.

(** A positive number whose quotient by the unit of its binade is whole is
    a binary64 number. *)
Lemma round_pos_exact (x : Q) (m : Z) :
  0 < x ->
  x / F64.pow2 (F64.ilog2 x - 52) == inject_Z m ->
  F64.round_pos x == x.
Proof.
  intros Hx E. unfold F64.round_pos.
  rewrite (rne_comp _ _ E), rne_Z, <- E.
  field. pose proof (pow2_pos (F64.ilog2 x - 52)). lra.
Qed.

Lemma round_pos_idem (q : Q) :
  0 < q -> F64.round_pos (F64.round_pos q) == F64.round_pos q.
Proof.
  intro Hq. destruct (round_pos_bounds q Hq) as [B0 B1].
  pose proof (round_pos_pos q Hq) as Hv.
  set (e := F64.ilog2 q) in *.
  pose proof (pow2_pos (e - 52)) as Pu.
  assert (Ev : F64.round_pos q
               == inject_Z (F64.rne (q / F64.pow2 (e - 52))) * F64.pow2 (e - 52))
    by reflexivity.
  set (r := F64.rne (q / F64.pow2 (e - 52))) in *.
  set (v := F64.round_pos q) in *.
  destruct (Qlt_le_dec v (F64.pow2 (e + 1))) as [Lt | Ge].
  - assert (Il : F64.ilog2 v = e) by (apply ilog2_unique; assumption).
    apply (round_pos_exact v r Hv). rewrite Il, Ev. field. lra.
  - assert (Ee : v == F64.pow2 (e + 1)) by lra.
    assert (Il : F64.ilog2 v = (e + 1)%Z).
    { apply ilog2_unique; [lra |]. rewrite Ee. apply pow2_lt. lia. }
    apply (round_pos_exact v (2 ^ 52) Hv). rewrite Il, Ee.
    rewrite <- pow2_Z by lia.
    replace (e + 1)%Z with (52 + (e + 1 - 52))%Z at 1 by lia.
    rewrite pow2_add. field.
    pose proof (pow2_pos (e + 1 - 52)). lra.
Qed.

(** What rounding returns is a binary64 number. *)
Lemma round_idem (q : Q) : F64.double (F64.round q).
Proof.
  unfold F64.double.
  destruct (round_cases q) as [[Hq ->] | [[Hq ->] | [Hq ->]]].
  - reflexivity.
  - pose proof (round_pos_pos q Hq) as Hv.
    destruct (round_cases (F64.round_pos q)) as [[K _] | [[_ ->] | [K _]]];
      try (exfalso; lra).
    apply round_pos_idem. exact Hq.
  - assert (Hn : 0 < - q) by lra.
    pose proof (round_pos_pos _ Hn) as Hv.
    destruct (round_cases (- F64.round_pos (- q)))
      as [[K _] | [[K _] | [_ ->]]]; try (exfalso; lra).
    assert (E : - - F64.round_pos (- q) == F64.round_pos (- q)) by ring.
    assert (P : 0 < - - F64.round_pos (- q)) by lra.
    rewrite (round_pos_comp _ _ P E).
    rewrite (round_pos_idem _ Hn). reflexivity.
Qed.








(** ** Typed arrays *)

Lemma store_length (a : list Q) (i : nat) (v : Q) :
  length (store a i v) = length a.
Proof.
  revert i. induction a as [| h t IH]; intros [| j]; simpl; try reflexivity.
  now rewrite IH.
Qed.

Lemma nth_store_eq (a : list Q) (i : nat) (v d : Q) :
  (i < length a)%nat -> nth i (store a i v) d = v.
Proof.
  revert i. induction a as [| h t IH]; intros [| j] H; simpl in *;
    try lia; try reflexivity.
  apply IH. lia.
Qed.

Lemma nth_store_neq (a : list Q) (i j : nat) (v d : Q) :
  i <> j -> nth j (store a i v) d = nth j a d.
Proof.
  revert i j. induction a as [| h t IH]; intros [| i] [| j] H; simpl;
    try reflexivity; try lia.
  apply IH. lia.
Qed.

(** ** The point cloud generator *)

Section Generator.

Variable Math_PI : Q.
Variables Math_cos Math_sin : Q -> Q.
Variable random : N -> Q.
Variable ctor_draws : THREE.Class -> N.

Let particle (i : nat) (k : N) : Particle :=
  fst (galaxyParticle Math_PI Math_cos Math_sin random i k).

Let loop := galaxyLoop Math_PI Math_cos Math_sin random.

(** One iteration makes nine draws. *)
Lemma galaxyParticle_cursor (i : nat) (k : N) :
  snd (galaxyParticle Math_PI Math_cos Math_sin random i k) = (k + 9)%N.
Proof. unfold galaxyParticle, bind, Math_random, ret. simpl. lia. Qed.

Lemma particle_radius (i : nat) (k : N) :
  radius (particle i k) = random k * 200.
Proof. reflexivity. Qed.

Lemma particle_psize (i : nat) (k : N) :
  psize (particle i k) = random (k + 8)%N * 2.
Proof.
  unfold particle, galaxyParticle, bind, Math_random, ret. simpl.
  do 2 f_equal. lia.
Qed.

Lemma particle_mixedColor (i : nat) (k : N) :
  mixedColor (particle i k)
  = THREE.lerp colorInside colorOutside (radius (particle i k) / 200).
Proof. reflexivity. Qed.

Lemma galaxyStep_eq (i : nat) (bufs : Buffers) (k : N) :
  galaxyStep Math_PI Math_cos Math_sin random i bufs k
  = ({| positions :=
          store (store (store (positions bufs) (i * 3) (x (particle i k)))
                       (i * 3 + 1) (y (particle i k)))
                (i * 3 + 2) (z (particle i k));
        colors :=
          store (store (store (colors bufs) (i * 3)
                          (THREE.r (mixedColor (particle i k))))
                       (i * 3 + 1) (THREE.g (mixedColor (particle i k))))
                (i * 3 + 2) (THREE.b (mixedColor (particle i k)));
        sizes := store (sizes bufs) i (psize (particle i k)) |},
     (k + 9)%N).
Proof.
  unfold galaxyStep, bind at 1.
  pose proof (galaxyParticle_cursor i k) as Hc.
  unfold particle.
  destruct (galaxyParticle Math_PI Math_cos Math_sin random i k) as [p k'].
  simpl in *. subst k'. reflexivity.
Qed.

Lemma loop_S (n i : nat) (bufs : Buffers) (k : N) :
  loop (S n) i bufs k
  = loop n (S i)
      (fst (galaxyStep Math_PI Math_cos Math_sin random i bufs k)) (k + 9)%N.
Proof.
  unfold loop. simpl. unfold bind at 1. rewrite galaxyStep_eq. reflexivity.
Qed.

Lemma loop_cursor (n i : nat) (bufs : Buffers) (k : N) :
  snd (loop n i bufs k) = (k + 9 * N.of_nat n)%N.
Proof.
  revert i bufs k. induction n as [| n IH]; intros i bufs k.
  - simpl. lia.
  - rewrite loop_S, IH. lia.
Qed.

Lemma loop_lengths (n i : nat) (bufs : Buffers) (k : N) :
  length (sizes (fst (loop n i bufs k))) = length (sizes bufs)
  /\ length (colors (fst (loop n i bufs k))) = length (colors bufs)
  /\ length (positions (fst (loop n i bufs k))) = length (positions bufs).
Proof.
  revert i bufs k. induction n as [| n IH]; intros i bufs k.
  - simpl. auto.
  - rewrite loop_S. destruct (IH (S i)
      (fst (galaxyStep Math_PI Math_cos Math_sin random i bufs k)) (k + 9)%N)
      as (H1 & H2 & H3).
    rewrite H1, H2, H3, galaxyStep_eq. simpl.
    now rewrite !store_length.
Qed.

(** Iterations from index [i] on leave the entries of the earlier
    particles alone. *)
Lemma loop_frame (n i : nat) (bufs : Buffers) (k : N) :
  (forall j, (j < i)%nat ->
     nth j (sizes (fst (loop n i bufs k))) 0 = nth j (sizes bufs) 0)
  /\ (forall j, (j < i * 3)%nat ->
     nth j (colors (fst (loop n i bufs k))) 0 = nth j (colors bufs) 0).
Proof.
  revert i bufs k. induction n as [| n IH]; intros i bufs k.
  - simpl. auto.
  - rewrite loop_S. destruct (IH (S i)
      (fst (galaxyStep Math_PI Math_cos Math_sin random i bufs k)) (k + 9)%N)
      as (H1 & H2).
    split; intros j Hj.
    + rewrite H1 by lia. rewrite galaxyStep_eq. simpl.
      apply nth_store_neq. lia.
    + rewrite H2 by lia. rewrite galaxyStep_eq. simpl.
      rewrite !nth_store_neq by lia. reflexivity.
Qed.

(** After the loop, the slots of particle [j] hold its size and the three
    channels of its colour. *)
Lemma loop_filled (n i : nat) (bufs : Buffers) (k : N) (j : nat) :
  (i <= j < i + n)%nat ->
  (j < length (sizes bufs))%nat ->
  (j * 3 + 2 < length (colors bufs))%nat ->
  let p := particle j (k + 9 * N.of_nat (j - i))%N in
  let out := fst (loop n i bufs k) in
  nth j (sizes out) 0 = psize p
  /\ nth (j * 3) (colors out) 0 = THREE.r (mixedColor p)
  /\ nth (j * 3 + 1) (colors out) 0 = THREE.g (mixedColor p)
  /\ nth (j * 3 + 2) (colors out) 0 = THREE.b (mixedColor p).
Proof.
  revert i bufs k. induction n as [| n IH]; intros i bufs k Hj Hs Hc; [lia |].
  cbv zeta. rewrite loop_S.
  set (bufs1 := fst (galaxyStep Math_PI Math_cos Math_sin random i bufs k)).
  assert (Hl1 : length (sizes bufs1) = length (sizes bufs)
                /\ length (colors bufs1) = length (colors bufs)).
  { unfold bufs1. rewrite galaxyStep_eq. simpl. now rewrite !store_length. }
  destruct Hl1 as [Hls Hlc].
  destruct (Nat.eq_dec j i) as [-> | Hne].
  - destruct (loop_frame n (S i) bufs1 (k + 9)%N) as [F1 F2].
    rewrite F1, !F2 by lia.
    replace (k + 9 * N.of_nat (i - i))%N with k by lia.
    unfold bufs1. rewrite galaxyStep_eq. simpl.
    rewrite nth_store_eq by lia.
    rewrite (nth_store_neq _ (i * 3 + 2) (i * 3)) by lia.
    rewrite (nth_store_neq _ (i * 3 + 1) (i * 3)) by lia.
    rewrite nth_store_eq by lia.
    rewrite (nth_store_neq _ (i * 3 + 2) (i * 3 + 1)) by lia.
    rewrite nth_store_eq by (rewrite store_length; lia).
    rewrite nth_store_eq by (rewrite !store_length; lia).
    auto.
  - replace (k + 9 * N.of_nat (j - i))%N
      with (k + 9 + 9 * N.of_nat (j - S i))%N by lia.
    apply IH; lia.
Qed.

(** With a scene, [createGalaxySystem] installs a mesh whose size and colour
    attributes are the arrays the loop filled, and moves the cursor of the
    random stream past the draws of all particles. *)
Lemma createGalaxySystem_mesh (w : World) (sc : THREE.Scene) :
  scene (svc w) = Some sc ->
  exists mesh,
    particlesMesh (svc (createGalaxySystem Math_PI Math_cos Math_sin random ctor_draws w))
    = Some mesh
    /\ forall i, (i < particleCount)%nat ->
       let p :=
         particle i
           (rng w + ctor_draws THREE.C_BufferGeometry + 9 * N.of_nat i)%N in
       nth i (THREE.attr_size (THREE.geometry mesh)) 0 = psize p
       /\ nth (i * 3) (THREE.attr_color (THREE.geometry mesh)) 0
          = THREE.r (mixedColor p)
       /\ nth (i * 3 + 1) (THREE.attr_color (THREE.geometry mesh)) 0
          = THREE.g (mixedColor p)
       /\ nth (i * 3 + 2) (THREE.attr_color (THREE.geometry mesh)) 0
          = THREE.b (mixedColor p).
Proof.
  intro Hsc. unfold createGalaxySystem. rewrite Hsc.
  set (bufs0 := {| positions := repeat 0 (particleCount * 3);
                   colors := repeat 0 (particleCount * 3);
                   sizes := repeat 0 particleCount |}).
  pose proof (fun i =>
                loop_filled particleCount 0 bufs0
                  (rng w + ctor_draws THREE.C_BufferGeometry)%N i) as HF.
  unfold loop in HF.
  destruct (galaxyLoop Math_PI Math_cos Math_sin random particleCount 0 bufs0
              (rng w + ctor_draws THREE.C_BufferGeometry)%N) as [bufs k].
  eexists. split; [reflexivity |].
  intros i Hi. cbv zeta. simpl THREE.geometry. simpl THREE.attr_size.
  simpl THREE.attr_color.
  specialize (HF i).
  replace (i - 0)%nat with i in HF by lia.
  apply HF.
  - lia.
  - change (sizes bufs0) with (repeat 0 particleCount).
    rewrite repeat_length. exact Hi.
  - change (colors bufs0) with (repeat 0 (particleCount * 3)).
    rewrite repeat_length. lia.
Qed.

End Generator.

(** ** The frame scheduler and the animation updater *)

Section Updater.

Variable Math_sin : Q -> Q.

(** The gate stays shut up to and including one interval. *)
Lemma animate_shut (now time : Q) (w : World) :
  elapsed now w <= fpsInterval ->
  animate Math_sin now time w = rescheduled w.
Proof.
  unfold elapsed. intro H. apply gtb_false_iff in H.
  unfold animate, DOM.alloc, DOM.requestAnimationFrame.
  cbn -[fpsInterval F64.round JS.gtb].
  rewrite H. reflexivity.
Qed.

(** Past one interval the timer is re-based, whatever the handles. *)
Lemma animate_open_then (now time : Q) (w : World) :
  fpsInterval < elapsed now w ->
  then_ (svc (animate Math_sin now time w))
  = F64.round (now - JS.rem (elapsed now w) fpsInterval).
Proof.
  unfold elapsed. intro H. apply gtb_true_iff in H.
  destruct w as [[cv rd sc cam mesh fid pr mx my cur tgt rt lm th] wn k].
  unfold animate, DOM.alloc, DOM.requestAnimationFrame.
  cbn -[fpsInterval F64.round JS.gtb JS.rem targetSpeed] in *.
  rewrite H.
  destruct sc, cam, rd, mesh; reflexivity.
Qed.

(** Past one interval and with all handles, the frame's work is done. *)
Lemma animate_open_work (now time : Q) (w : World) :
  fpsInterval < elapsed now w ->
  ready w = true ->
  let w' := animate Math_sin now time w in
  currentRotationSpeed (svc w')
  = currentRotationSpeed (svc w)
    + (targetSpeed (progress (svc w)) - currentRotationSpeed (svc w)) * 0.05
  /\ rotationY w' = rotationY w + currentRotationSpeed (svc w')
  /\ draws w' = S (draws w)
  /\ ready w' = true.
Proof.
  unfold elapsed. intros H Hr. apply gtb_true_iff in H.
  destruct w as [[cv rd sc cam mesh fid pr mx my cur tgt rt lm th] wn k].
  unfold ready, rotationY, draws in *.
  unfold animate, DOM.alloc, DOM.requestAnimationFrame.
  cbn -[fpsInterval F64.round JS.gtb JS.rem targetSpeed] in *.
  rewrite H.
  destruct sc, cam, rd, mesh; try discriminate.
  cbn -[fpsInterval F64.round JS.gtb JS.rem targetSpeed].
  repeat split; reflexivity.
Qed.

(** Past one interval but with a handle missing, only the timer moves. *)
Lemma animate_open_idle (now time : Q) (w : World) :
  fpsInterval < elapsed now w ->
  ready w = false ->
  animate Math_sin now time w
  = upd_svc
      (set_then (F64.round (now - JS.rem (elapsed now w) fpsInterval)))
      (rescheduled w).
Proof.
  unfold elapsed. intros H Hr. apply gtb_true_iff in H.
  destruct w as [[cv rd sc cam mesh fid pr mx my cur tgt rt lm th] wn k].
  unfold ready in Hr.
  unfold animate, DOM.alloc, DOM.requestAnimationFrame.
  cbn -[fpsInterval F64.round JS.gtb JS.rem targetSpeed] in *.
  rewrite H.
  destruct sc, cam, rd, mesh; try discriminate; reflexivity.
Qed.

End Updater.

Lemma isProcessing_true_iff (p : Q) :
  isProcessing p = true <-> 0 < p /\ p < 100.
Proof.
  unfold isProcessing. rewrite andb_true_iff, gtb_true_iff, ltb_true_iff.
  reflexivity.
Qed.

Lemma targetSpeed_processing (p : Q) :
  0 < p -> p < 100 -> targetSpeed p = 0.05.
Proof.
  intros H0 H1. unfold targetSpeed.
  destruct (isProcessing p) eqn:E; [reflexivity |].
  assert (K : isProcessing p = true) by (apply isProcessing_true_iff; auto).
  congruence.
Qed.

Lemma targetSpeed_idle (p : Q) :
  ~ (0 < p /\ p < 100) -> targetSpeed p = 0.001.
Proof.
  intro H. unfold targetSpeed.
  destruct (isProcessing p) eqn:E; [| reflexivity].
  apply isProcessing_true_iff in E. contradiction.
Qed.

Section Scheduler.

Variable Math_sin : Q -> Q.

(** The interval the code holds: the binary64 number nearest to 1000/60,
    a little more than 50/3. *)
Lemma fpsInterval_value : fpsInterval == 4691249611844267 # 281474976710656.
Proof. vm_compute. reflexivity. Qed.

Lemma fpsInterval_pos : 0 < fpsInterval.
Proof. vm_compute. reflexivity. Qed.

Lemma fpsInterval_double : F64.round fpsInterval == fpsInterval.
Proof. vm_compute. reflexivity. Qed.

(** The gate opens only when more than one interval has passed. *)
Lemma elapsed_open (now : Q) (w : World) :
  fpsInterval < elapsed now w -> fpsInterval < now - then_ (svc w).
Proof.
  unfold elapsed. intro H.
  destruct (Qlt_le_dec fpsInterval (now - then_ (svc w))) as [K | K];
    [exact K |].
  apply round_mono in K. pose proof fpsInterval_double. lra.
Qed.

(** Whatever the gate decides, [animate] has requested the next frame. *)
Lemma animate_reschedules (now time : Q) (w : World) :
  let w' := animate Math_sin now time w in
  animationFrameId (svc w') = S (DOM.nextFrame (wnd w))
  /\ wnd w' = wnd (rescheduled w).
Proof.
  destruct (Qlt_le_dec fpsInterval (elapsed now w)) as [H | H].
  - destruct (ready w) eqn:Hr.
    + unfold elapsed in H. apply gtb_true_iff in H.
      destruct w as [[cv rd sc cam mesh fid pr mx my cur tgt rt lm th] wn k].
      unfold ready in Hr.
      unfold animate, DOM.alloc, DOM.requestAnimationFrame.
      cbn -[fpsInterval F64.round JS.gtb JS.rem targetSpeed] in *.
      rewrite H.
      destruct sc, cam, rd, mesh; try discriminate. split; reflexivity.
    + cbv zeta. rewrite (animate_open_idle Math_sin now time w H Hr).
      split; reflexivity.
  - cbv zeta. rewrite (animate_shut Math_sin now time w H). split; reflexivity.
Qed.

(** One callback, for a clock and a timer between 0 and [clock_max]: either
    it leaves the timer and the draw count alone, or it draws at most once
    and moves the timer forward by one interval, less the rounding, to a
    time not after the callback, bar the rounding.  The two roundings of a
    re-basing are each below 2^-9 ms. *)
Lemma animate_advance (now time : Q) (w : World) :
  0 <= now -> now <= clock_max ->
  -17 <= then_ (svc w) -> then_ (svc w) <= clock_max ->
  let w' := animate Math_sin now time w in
  (-17 <= then_ (svc w') /\ then_ (svc w') <= clock_max)
  /\ ((draws w' = draws w /\ then_ (svc w') = then_ (svc w))
      \/ ((draws w <= draws w' <= S (draws w))%nat
          /\ then_ (svc w) + fpsInterval - (1 # 256) <= then_ (svc w')
          /\ then_ (svc w') <= now + (1 # 256))).
Proof.
  intros N0 N1 T0 T1. cbv zeta.
  destruct (Qlt_le_dec fpsInterval (elapsed now w)) as [H | H].
  - pose proof (elapsed_open now w H) as Hx.
    assert (Hle : fpsInterval <= elapsed now w) by lra.
    destruct (rem_whole _ _ fpsInterval_pos Hle) as (K1 & Kr & R0 & R1).
    pose proof fpsInterval_value as HI.
    assert (Hc : (clock_max + 17) * F64.pow2 (-53) <= 1 # 512)
      by (vm_compute; discriminate).
    assert (HM : clock_max == 8796093022208) by reflexivity.
    destruct (round_close (now - then_ (svc w)) (clock_max + 17)) as [E0 E1];
      [lra | lra |].
    fold (elapsed now w) in E0, E1.
    assert (Kq : 1 <= inject_Z (JS.trunc (elapsed now w / fpsInterval))).
    { change 1 with (inject_Z 1). rewrite <- Zle_Qle. exact K1. }
    assert (Kd : fpsInterval * 1
                 <= fpsInterval
                    * inject_Z (JS.trunc (elapsed now w / fpsInterval))).
    { apply Qmult_le_l; [exact fpsInterval_pos | exact Kq]. }
    set (q := inject_Z (JS.trunc (elapsed now w / fpsInterval))) in *.
    set (e := elapsed now w) in *.
    set (rm := JS.rem e fpsInterval) in *.
    destruct (round_close (now - rm) (clock_max + 17)) as [Y0 Y1];
      [lra | lra |].
    assert (A : F64.round (-17) == -17) by (vm_compute; reflexivity).
    assert (B : F64.round clock_max == clock_max) by (vm_compute; reflexivity).
    destruct (round_within (now - rm) (-17) clock_max A B) as [W0 W1];
      [lra | lra |].
    rewrite (animate_open_then Math_sin now time w H).
    fold e. fold rm.
    split; [split; assumption |].
    right. split; [| split; lra].
    destruct (ready w) eqn:Hr.
    + destruct (animate_open_work Math_sin now time w H Hr) as (_ & _ & Hd & _).
      rewrite Hd. lia.
    + rewrite (animate_open_idle Math_sin now time w H Hr).
      unfold draws. simpl. lia.
  - rewrite (animate_shut Math_sin now time w H).
    split; [split; assumption |]. left. split; reflexivity.
Qed.

(** Over any run of callbacks none of which comes after [bound], every draw
    is paid for by one interval of timer advance, less the rounding. *)
Lemma callbacks_advance (times : list Q) (bound : Q) :
  forall w : World,
    (forall t, In t times -> 0 <= t /\ t <= clock_max /\ t <= bound) ->
    -17 <= then_ (svc w) -> then_ (svc w) <= clock_max ->
    then_ (svc w) <= bound + (1 # 256) ->
    let w' := callbacks Math_sin times w in
    (draws w <= draws w')%nat
    /\ inject_Z (Z.of_nat (draws w' - draws w)) * (fpsInterval - (1 # 256))
       <= then_ (svc w') - then_ (svc w)
    /\ then_ (svc w') <= bound + (1 # 256).
Proof.
  induction times as [| t times IH]; intros w Hall T0 T1 Hth; cbv zeta.
  - simpl. split; [lia |]. rewrite Nat.sub_diag. split; [| exact Hth].
    change (inject_Z (Z.of_nat 0)) with 0. lra.
  - unfold callbacks. simpl fold_left.
    fold (callbacks Math_sin times (animate Math_sin t t w)).
    destruct (Hall t (or_introl eq_refl)) as (Ht0 & Ht1 & Htb).
    assert (Hall' : forall u, In u times ->
                              0 <= u /\ u <= clock_max /\ u <= bound)
      by (intros u Hu; apply Hall; right; exact Hu).
    pose proof (animate_advance t t w Ht0 Ht1 T0 T1) as Hstep.
    cbv zeta in Hstep. destruct Hstep as [[T0' T1'] Hstep].
    set (w1 := animate Math_sin t t w) in *.
    assert (Hth1 : then_ (svc w1) <= bound + (1 # 256)).
    { destruct Hstep as [[_ E] | (_ & _ & E)]; [rewrite E; exact Hth | lra]. }
    destruct (IH w1 Hall' T0' T1' Hth1) as (D & R & B).
    set (w' := callbacks Math_sin times w1) in *.
    pose proof fpsInterval_value as HI.
    destruct Hstep as [[Ed Et] | (Hd & Hadv & _)].
    + rewrite <- Ed, <- Et. auto.
    + split; [lia |]. split; [| exact B].
      assert (Hn : (draws w' - draws w <= S (draws w' - draws w1))%nat) by lia.
      assert (HnQ : inject_Z (Z.of_nat (draws w' - draws w))
                    <= inject_Z (Z.of_nat (draws w' - draws w1)) + 1).
      { change 1 with (inject_Z 1). rewrite <- inject_Z_plus, <- Zle_Qle. lia. }
      assert (Hm : inject_Z (Z.of_nat (draws w' - draws w))
                   * (fpsInterval - (1 # 256))
                   <= (inject_Z (Z.of_nat (draws w' - draws w1)) + 1)
                      * (fpsInterval - (1 # 256))).
      { apply Qmult_le_compat_r; [exact HnQ | lra]. }
      lra.
Qed.

End Scheduler.

(** Lists of callback times checked by computation. *)
Lemma times_within (lo hi : Q) (times : list Q) :
  forallb (fun t => Qle_bool lo t && Qle_bool t hi) times = true ->
  forall t, In t times -> lo <= t /\ t <= hi.
Proof.
  intros H t Ht. rewrite forallb_forall in H. specialize (H t Ht).
  apply andb_true_iff in H. destruct H as [A B].
  apply Qle_bool_iff in A. apply Qle_bool_iff in B. split; assumption.
Qed.

Lemma times_below (hi : Q) (times : list Q) :
  forallb (fun t => Qle_bool t hi) times = true ->
  forall t, In t times -> t <= hi.
Proof.
  intros H t Ht. rewrite forallb_forall in H. specialize (H t Ht).
  apply Qle_bool_iff in H. exact H.
Qed.



(** ** The methods along a run *)

Lemma targetSpeed_cases (p : Q) :
  targetSpeed p = 0.05 \/ targetSpeed p = 0.001.
Proof. unfold targetSpeed. destruct (isProcessing p); auto. Qed.

Lemma fold_left_invariant {A B : Type} (P : A -> Prop) (f : A -> B -> A) :
  (forall a b, P a -> P (f a b)) ->
  forall (l : list B) (a : A), P a -> P (fold_left f l a).
Proof.
  intros Hf l. induction l as [| b l IH]; intros a Ha; simpl; auto.
Qed.

Section Run.

Variable Math_PI : Q.
Variables Math_cos Math_sin : Q -> Q.
Variable random : N -> Q.
Variable ctor_draws : THREE.Class -> N.

Lemma createGalaxySystem_wnd (w : World) :
  wnd (createGalaxySystem Math_PI Math_cos Math_sin random ctor_draws w) = wnd w.
Proof.
  unfold createGalaxySystem. destruct (scene (svc w)); [| reflexivity].
  destruct (galaxyLoop _ _ _ _ _ _ _ _). reflexivity.
Qed.

Lemma createGalaxySystem_speed (w : World) :
  currentRotationSpeed
    (svc (createGalaxySystem Math_PI Math_cos Math_sin random ctor_draws w))
  = currentRotationSpeed (svc w).
Proof.
  unfold createGalaxySystem. destruct (scene (svc w)); [| reflexivity].
  destruct (galaxyLoop _ _ _ _ _ _ _ _). reflexivity.
Qed.

Lemma onResize_wnd (w : World) : wnd (onResize w) = wnd w.
Proof.
  unfold onResize. destruct (camera (svc w)), (renderer (svc w)); reflexivity.
Qed.

Lemma onResize_speed (w : World) :
  currentRotationSpeed (svc (onResize w)) = currentRotationSpeed (svc w).
Proof.
  unfold onResize. destruct (camera (svc w)), (renderer (svc w)); reflexivity.
Qed.

Lemma onMouseMove_speed (ev : DOM.MouseEvent) (now : Q) (w : World) :
  currentRotationSpeed (svc (onMouseMove ev now w))
  = currentRotationSpeed (svc w).
Proof. unfold onMouseMove. destruct (JS.ltb _ _); reflexivity. Qed.

Lemma destroy_speed (w : World) :
  currentRotationSpeed (svc (destroy w)) = currentRotationSpeed (svc w).
Proof. unfold destroy. simpl. destruct (renderer (svc w)); reflexivity. Qed.

Lemma animate_speed (now time : Q) (w : World) :
  speed_in_range w -> speed_in_range (animate Math_sin now time w).
Proof.
  intros [Hlo Hhi]. unfold speed_in_range.
  destruct (Qlt_le_dec fpsInterval (elapsed now w)) as [H | H].
  - destruct (ready w) eqn:Hr.
    + destruct (animate_open_work Math_sin now time w H Hr) as (Hs & _).
      rewrite Hs.
      destruct (targetSpeed_cases (progress (svc w))) as [-> | ->];
        split; lra.
    + rewrite (animate_open_idle Math_sin now time w H Hr). simpl. auto.
  - rewrite (animate_shut Math_sin now time w H). simpl. auto.
Qed.

Lemma set_then_speed (v : Q) (w : World) :
  currentRotationSpeed (svc (upd_svc (set_then v) w))
  = currentRotationSpeed (svc w).
Proof. reflexivity. Qed.

Lemma init_listeners_speed (w : World) :
  currentRotationSpeed (svc (init_listeners w))
  = currentRotationSpeed (svc w).
Proof. reflexivity. Qed.

Lemma init_setup_speed (c : nat) (w : World) :
  currentRotationSpeed (svc (init_setup ctor_draws c w))
  = currentRotationSpeed (svc w).
Proof. reflexivity. Qed.

Lemma init_speed (c : nat) (now anow atime : Q) (w : World) :
  speed_in_range w ->
  speed_in_range (init Math_PI Math_cos Math_sin random ctor_draws c now anow atime w).
Proof.
  intro H. unfold init. cbv zeta. apply animate_speed.
  unfold speed_in_range in *.
  rewrite set_then_speed, onResize_speed, init_listeners_speed,
    createGalaxySystem_speed, init_setup_speed.
  exact H.
Qed.

Lemma invoke_speed (fn : DOM.FnRef) (inp : Inputs) (w : World) :
  speed_in_range w -> speed_in_range (invoke Math_sin fn inp w).
Proof.
  intro H. destruct fn as [| m | [|] k | k]; simpl; try exact H.
  - unfold speed_in_range. rewrite onMouseMove_speed. exact H.
  - apply animate_speed. exact H.
  - unfold speed_in_range. rewrite onResize_speed. exact H.
Qed.

Lemma step_speed (a : Action) (w : World) :
  speed_in_range w ->
  speed_in_range (step Math_PI Math_cos Math_sin random ctor_draws a w).
Proof.
  intro H. destruct a; simpl.
  - apply init_speed. exact H.
  - exact H.
  - unfold speed_in_range. rewrite destroy_speed. exact H.
  - unfold dispatchEvent. apply fold_left_invariant; [| exact H].
    intros acc l Hacc. destruct (DOM.EventType_eqb _ _); [| exact Hacc].
    apply invoke_speed. exact Hacc.
  - unfold dispatchEvent. apply fold_left_invariant; [| exact H].
    intros acc l Hacc. destruct (DOM.EventType_eqb _ _); [| exact Hacc].
    apply invoke_speed. exact Hacc.
  - unfold fireTimer. destruct (find _ _) as [[[i fn] d] |]; [| exact H].
    apply invoke_speed. exact H.
  - unfold runFrames. apply fold_left_invariant; [| exact H].
    intros acc f Hacc. apply invoke_speed. exact Hacc.
Qed.

Lemma createGalaxySystem_ready (w : World) (sc : THREE.Scene)
      (cam : THREE.PerspectiveCamera) (rd : THREE.WebGLRenderer) :
  scene (svc w) = Some sc ->
  camera (svc w) = Some cam ->
  renderer (svc w) = Some rd ->
  ready (createGalaxySystem Math_PI Math_cos Math_sin random ctor_draws w) = true.
Proof.
  intros Hsc Hcam Hrd. unfold createGalaxySystem, ready. rewrite Hsc.
  destruct (galaxyLoop _ _ _ _ _ _ _ _). simpl. rewrite Hcam, Hrd.
  reflexivity.
Qed.

Lemma init_listeners_ready (w : World) : ready (init_listeners w) = ready w.
Proof. reflexivity. Qed.

Lemma onResize_ready (w : World) : ready (onResize w) = ready w.
Proof.
  unfold onResize, ready.
  destruct (camera (svc w)) eqn:Ec, (renderer (svc w)) eqn:Er;
    simpl; rewrite ?Ec, ?Er; reflexivity.
Qed.

Lemma set_then_ready (v : Q) (w : World) :
  ready (upd_svc (set_then v) w) = ready w.
Proof. reflexivity. Qed.

Lemma animate_ready (now time : Q) (w : World) :
  ready w = true -> ready (animate Math_sin now time w) = true.
Proof.
  intro Hr.
  destruct (Qlt_le_dec fpsInterval (elapsed now w)) as [H | H].
  - apply (animate_open_work Math_sin now time w H Hr).
  - rewrite (animate_shut Math_sin now time w H). exact Hr.
Qed.

(** After [init] all four handles are there. *)
Lemma init_ready (c : nat) (now anow atime : Q) (w : World) :
  ready (init Math_PI Math_cos Math_sin random ctor_draws c now anow atime w) = true.
Proof.
  unfold init. cbv zeta. apply animate_ready.
  rewrite set_then_ready, onResize_ready, init_listeners_ready.
  apply (createGalaxySystem_ready (init_setup ctor_draws c w) THREE.new_Scene
           (THREE.lookAt 0 0 0
              (THREE.set_position (THREE.mkVector3 0 100 400)
                 (THREE.set_position (THREE.mkVector3 0 0 400)
                    (THREE.new_PerspectiveCamera 60
                       (inject_Z (DOM.innerWidth (wnd w))
                        / inject_Z (DOM.innerHeight (wnd w))) 0.1 1000))))
           (THREE.setPixelRatio (Qmin (DOM.devicePixelRatio (wnd w)) 1.5)
              (THREE.new_WebGLRenderer c true true)));
    reflexivity.
Qed.

(** [init] leaves the timer at the time it read, when its own call of
    [animate] comes within one interval of that reading. *)
Lemma init_then (c : nat) (now anow atime : Q) (w : World) :
  F64.round (anow - now) <= fpsInterval ->
  then_ (svc (init Math_PI Math_cos Math_sin random ctor_draws c now anow atime w)) = now.
Proof.
  intro H. unfold init. cbv zeta. rewrite animate_shut; [reflexivity |].
  unfold elapsed. exact H.
Qed.

(** The speed of a new service is in range, and no action takes it out. *)
Lemma run_speed (acts : list Action) (wn : DOM.Window) :
  speed_in_range
    (run Math_PI Math_cos Math_sin random ctor_draws acts (new_World wn)).
Proof.
  unfold run. apply fold_left_invariant.
  - intros acc a Hacc. apply step_speed. exact Hacc.
  - split; simpl; lra.
Qed.

End Run.

(** ** Registration and deregistration of the listeners *)

Lemma Method_eqb_eq (a b : DOM.Method) : DOM.Method_eqb a b = true <-> a = b.
Proof. destruct a, b; simpl; split; congruence. Qed.

Lemma FnRef_eqb_eq (a b : DOM.FnRef) : DOM.FnRef_eqb a b = true <-> a = b.
Proof.
  destruct a as [| m | m j | j], b as [| n | n k | k]; simpl;
    try (split; congruence).
  - rewrite Method_eqb_eq. split; congruence.
  - rewrite andb_true_iff, Method_eqb_eq, Nat.eqb_eq.
    split; [intros [-> ->]; reflexivity | intro E; inversion E; auto].
  - rewrite Nat.eqb_eq. split; congruence.
Qed.

Lemma Listener_eqb_eq (a b : DOM.Listener) :
  DOM.Listener_eqb a b = true <-> a = b.
Proof.
  destruct a as [ta fa], b as [tb fb]. unfold DOM.Listener_eqb. simpl.
  rewrite andb_true_iff, FnRef_eqb_eq.
  split.
  - intros [Ht ->]. destruct ta, tb; simpl in Ht; congruence.
  - intro E. inversion E. subst. split; [destruct tb |]; reflexivity.
Qed.

Lemma addEventListener_In (ty : DOM.EventType) (fn : DOM.FnRef) (wn : DOM.Window) :
  In (ty, fn) (DOM.listeners (DOM.addEventListener ty fn wn)).
Proof.
  unfold DOM.addEventListener.
  destruct (existsb _ _) eqn:E.
  - apply existsb_exists in E. destruct E as (l & Hl & Heq).
    apply Listener_eqb_eq in Heq. subst l. exact Hl.
  - simpl. apply in_or_app. right. left. reflexivity.
Qed.

Lemma addEventListener_keeps (ty : DOM.EventType) (fn : DOM.FnRef)
      (wn : DOM.Window) (l : DOM.Listener) :
  In l (DOM.listeners wn) ->
  In l (DOM.listeners (DOM.addEventListener ty fn wn)).
Proof.
  intro H. unfold DOM.addEventListener.
  destruct (existsb _ _); [exact H |].
  simpl. apply in_or_app. left. exact H.
Qed.

Lemma removeEventListener_In (ty : DOM.EventType) (fn : DOM.FnRef)
      (wn : DOM.Window) (l : DOM.Listener) :
  In l (DOM.listeners (DOM.removeEventListener ty fn wn))
  <-> In l (DOM.listeners wn) /\ l <> (ty, fn).
Proof.
  unfold DOM.removeEventListener. simpl. rewrite filter_In, negb_true_iff.
  split; intros [H1 H2]; split; try exact H1.
  - intro E. subst l.
    assert (K : DOM.Listener_eqb (ty, fn) (ty, fn) = true)
      by (apply Listener_eqb_eq; reflexivity).
    congruence.
  - destruct (DOM.Listener_eqb (ty, fn) l) eqn:E; [| reflexivity].
    apply Listener_eqb_eq in E. congruence.
Qed.

Section Lifecycle.

Variable Math_PI : Q.
Variables Math_cos Math_sin : Q -> Q.
Variable random : N -> Q.
Variable ctor_draws : THREE.Class -> N.

Lemma rescheduled_listeners (w : World) :
  DOM.listeners (wnd (rescheduled w)) = DOM.listeners (wnd w).
Proof. reflexivity. Qed.

Lemma upd_svc_wnd (f : ParticleService -> ParticleService) (w : World) :
  wnd (upd_svc f w) = wnd w.
Proof. reflexivity. Qed.

Lemma init_setup_wnd (c : nat) (w : World) : wnd (init_setup ctor_draws c w) = wnd w.
Proof. reflexivity. Qed.

Lemma addEventListener_nextFn (ty : DOM.EventType) (fn : DOM.FnRef)
      (wn : DOM.Window) :
  DOM.nextFn (DOM.addEventListener ty fn wn) = DOM.nextFn wn.
Proof.
  unfold DOM.addEventListener. destruct (existsb _ _); reflexivity.
Qed.

Lemma init_listeners_wnd (w : World) :
  wnd (init_listeners w)
  = DOM.addEventListener DOM.MouseMove
      (DOM.Bound DOM.OnMouseMove (DOM.nextFn (wnd w)))
      (DOM.set_nextFn (S (DOM.nextFn (wnd w)))
         (DOM.addEventListener DOM.Resize DOM.FieldDebouncedOnResize (wnd w))).
Proof.
  unfold init_listeners, DOM.alloc. cbv beta iota zeta. simpl wnd.
  rewrite addEventListener_nextFn. reflexivity.
Qed.

(** [init] leaves in the window the listeners that were there, the resize
    listener and the newly bound mouse listener. *)
Lemma init_wnd_listeners (c : nat) (now anow atime : Q) (w : World) :
  DOM.listeners
    (wnd (init Math_PI Math_cos Math_sin random ctor_draws c now anow atime w))
  = DOM.listeners
      (DOM.addEventListener DOM.MouseMove
         (DOM.Bound DOM.OnMouseMove (DOM.nextFn (wnd w)))
         (DOM.set_nextFn (S (DOM.nextFn (wnd w)))
            (DOM.addEventListener DOM.Resize DOM.FieldDebouncedOnResize
               (wnd w)))).
Proof.
  unfold init. cbv zeta.
  destruct (animate_reschedules Math_sin anow atime
              (upd_svc (set_then now)
                 (onResize (init_listeners
                    (createGalaxySystem Math_PI Math_cos Math_sin random ctor_draws
                       (init_setup ctor_draws c w)))))) as [_ Hw].
  rewrite Hw, rescheduled_listeners, upd_svc_wnd, onResize_wnd,
    init_listeners_wnd, createGalaxySystem_wnd, init_setup_wnd.
  reflexivity.
Qed.

Lemma destroy_wnd_listeners (w : World) :
  DOM.listeners (wnd (destroy w))
  = filter
      (fun l =>
         negb (DOM.Listener_eqb (DOM.MouseMove, DOM.Proto DOM.OnMouseMove) l))
      (filter
         (fun l =>
            negb (DOM.Listener_eqb (DOM.Resize, DOM.FieldDebouncedOnResize) l))
         (DOM.listeners (wnd w))).
Proof.
  unfold destroy. cbv zeta. simpl wnd.
  destruct (negb (Nat.eqb (animationFrameId (svc w)) 0)),
    (resizeTimeout (svc w)); reflexivity.
Qed.

End Lifecycle.

Lemma dispatch_single_mouse_listener (Math_sin : Q -> Q) (n : nat)
      (inp : Inputs) (w : World) :
  DOM.listeners (wnd w) = [(DOM.MouseMove, DOM.Bound DOM.OnMouseMove n)] ->
  dispatchEvent Math_sin DOM.MouseMove inp w
  = onMouseMove (in_event inp) (in_now inp) w
  /\ dispatchEvent Math_sin DOM.Resize inp w = w.
Proof.
  intro H. unfold dispatchEvent. rewrite H. split; reflexivity.
Qed.

(** * The claims *)

(** ** Lifecycle *)

(** C1, as the code has it.  [init] registers the stored resize handler and
    a newly bound mouse handler.  [destroy] removes the resize handler, but
    the reference it passes for the mouse handler is the prototype method,
    not the bound function that was registered: that listener stays, and in
    a window with no other listener a later mouse-move event still runs
    [onMouseMove] on the destroyed service. *)
Theorem destroy_leaves_mouse_listener :
  forall (Math_PI : Q) (Math_cos Math_sin : Q -> Q) (random : N -> Q)
         (ctor_draws : THREE.Class -> N)
         (c : nat) (now anow atime : Q) (w : World),
    let bound := DOM.Bound DOM.OnMouseMove (DOM.nextFn (wnd w)) in
    let w1 := init Math_PI Math_cos Math_sin random ctor_draws c now anow atime w in
    let w2 := destroy w1 in
    In (DOM.Resize, DOM.FieldDebouncedOnResize) (DOM.listeners (wnd w1))
    /\ In (DOM.MouseMove, bound) (DOM.listeners (wnd w1))
    /\ ~ In (DOM.Resize, DOM.FieldDebouncedOnResize) (DOM.listeners (wnd w2))
    /\ In (DOM.MouseMove, bound) (DOM.listeners (wnd w2))
    /\ DOM.Proto DOM.OnMouseMove <> bound
    /\ (DOM.listeners (wnd w) = [] ->
        DOM.listeners (wnd w2) = [(DOM.MouseMove, bound)]
        /\ forall inp : Inputs,
             dispatchEvent Math_sin DOM.MouseMove inp w2
             = onMouseMove (in_event inp) (in_now inp) w2
             /\ dispatchEvent Math_sin DOM.Resize inp w2 = w2).
Proof.
  intros Math_PI Math_cos Math_sin random ctor_draws c now anow atime w bound w1 w2.
  pose proof (init_wnd_listeners Math_PI Math_cos Math_sin random ctor_draws
                c now anow atime w) as Hinit.
  fold w1 bound in Hinit.
  pose proof (destroy_wnd_listeners w1) as Hdes. fold w2 in Hdes.
  assert (R1 : In (DOM.Resize, DOM.FieldDebouncedOnResize)
                 (DOM.listeners (wnd w1))).
  { rewrite Hinit. apply addEventListener_keeps.
    change (In (DOM.Resize, DOM.FieldDebouncedOnResize)
              (DOM.listeners
                 (DOM.addEventListener DOM.Resize DOM.FieldDebouncedOnResize
                    (wnd w)))).
    apply addEventListener_In. }
  assert (M1 : In (DOM.MouseMove, bound) (DOM.listeners (wnd w1))).
  { rewrite Hinit. apply addEventListener_In. }
  split; [exact R1 |]. split; [exact M1 |].
  split.
  { rewrite Hdes. intro K. apply filter_In in K. destruct K as [K _].
    apply filter_In in K. destruct K as [_ K]. simpl in K. discriminate. }
  split.
  { rewrite Hdes. apply filter_In. split; [| reflexivity].
    apply filter_In. split; [exact M1 | reflexivity]. }
  split; [discriminate |].
  intro Hnil.
  assert (L2 : DOM.listeners (wnd w2) = [(DOM.MouseMove, bound)]).
  { rewrite Hdes, Hinit. unfold DOM.addEventListener at 2. rewrite Hnil.
    reflexivity. }
  split; [exact L2 |].
  intro inp. apply (dispatch_single_mouse_listener _ _ _ _ L2).
Qed.

Lemma destroy_leaves_mouse_listener_witness :
  DOM.listeners
    (wnd (destroy
            (init 3 flat flat sample_random sample_draws 7 1000 1000 1000
               (new_World sample_window))))
  = [(DOM.MouseMove,
      DOM.Bound DOM.OnMouseMove (DOM.nextFn (wnd (new_World sample_window))))].
Proof.
  apply (destroy_leaves_mouse_listener 3 flat flat sample_random sample_draws 7
           1000 1000 1000 (new_World sample_window)).
  reflexivity.
Defined.

(** The same on the trial run: after [init] and [destroy] the window still
    holds the bound mouse listener, and a mouse-move event at 5000 ms moves
    the stored position from (0, 0) to (1/2, 1/2). *)
Example mouse_moves_destroyed_service :
  let w := destroy booted in
  let ev := mkInputs (DOM.mkMouseEvent 960 180) 5000 5000 in
  DOM.listeners (wnd w) = [(DOM.MouseMove, DOM.Bound DOM.OnMouseMove 0)]
  /\ mouseX (svc w) == 0
  /\ mouseY (svc w) == 0
  /\ mouseX (svc (dispatchEvent flat DOM.MouseMove ev w)) == 1 # 2
  /\ mouseY (svc (dispatchEvent flat DOM.MouseMove ev w)) == 1 # 2.
Proof. cbv zeta. repeat split; vm_compute; reflexivity. Qed.

(** ** Input adapters *)

(** C2 (amended).  With a camera and a renderer, the resize handler sets
    the output surface to [min(width, 1920)] by [min(height, 1080)], so never
    more than 1920 by 1080, and gives the camera the ratio of these clamped
    dimensions; when the window is no larger than 1920 by 1080 these are the
    window's own dimensions and ratio. *)
Theorem onResize_clamps :
  forall (w : World) (cam : THREE.PerspectiveCamera) (rd : THREE.WebGLRenderer),
    camera (svc w) = Some cam ->
    renderer (svc w) = Some rd ->
    let W := DOM.innerWidth (wnd w) in
    let H := DOM.innerHeight (wnd w) in
    let w' := onResize w in
    outputSize w' = (Z.min W 1920, Z.min H 1080)
    /\ (fst (outputSize w') <= 1920)%Z
    /\ (snd (outputSize w') <= 1080)%Z
    /\ cameraAspect w'
       = inject_Z (fst (outputSize w')) / inject_Z (snd (outputSize w'))
    /\ ((W <= 1920)%Z -> (H <= 1080)%Z ->
        outputSize w' = (W, H) /\ cameraAspect w' = inject_Z W / inject_Z H).
Proof.
  intros w cam rd Hc Hr W H w'.
  assert (Hs : outputSize w' = (Z.min W 1920, Z.min H 1080)).
  { unfold w', onResize, outputSize. rewrite Hc, Hr. reflexivity. }
  assert (Ha : cameraAspect w'
               = inject_Z (Z.min W 1920) / inject_Z (Z.min H 1080)).
  { unfold w', onResize, cameraAspect. rewrite Hc, Hr. reflexivity. }
  rewrite Hs, Ha. simpl fst. simpl snd.
  split; [reflexivity |].
  split; [apply Z.le_min_r |].
  split; [apply Z.le_min_r |].
  split; [reflexivity |].
  intros HW HH. rewrite !Z.min_l by assumption. split; reflexivity.
Qed.

Lemma onResize_clamps_witness :
  outputSize (onResize booted) = (1280, 720)%Z
  /\ cameraAspect (onResize booted) = inject_Z 1280 / inject_Z 720.
Proof.
  eapply (onResize_clamps booted).
  - vm_compute. reflexivity.
  - vm_compute. reflexivity.
  - vm_compute. discriminate.
  - vm_compute. discriminate.
Defined.

(** The window grows to 3840 by 1080 and the handler runs: the surface
    becomes 1920 by 1080, whose ratio 16/9 is half the ratio 32/9 of the
    window. *)
Lemma onResize_halves_wide_ratio :
  let w := onResize (upd_wnd (DOM.set_inner 3840 1080) booted) in
  DOM.innerWidth (wnd w) = 3840%Z
  /\ DOM.innerHeight (wnd w) = 1080%Z
  /\ outputSize w = (1920, 1080)%Z
  /\ cameraAspect w == 16 # 9
  /\ inject_Z (DOM.innerWidth (wnd w)) / inject_Z (DOM.innerHeight (wnd w))
     == 32 # 9
  /\ 1 < Qabs (cameraAspect w
               - inject_Z (DOM.innerWidth (wnd w))
                 / inject_Z (DOM.innerHeight (wnd w))).
Proof.
  cbv zeta. repeat split; vm_compute; reflexivity.
Qed.

(** ** Animation updater and frame scheduler *)

(** C3.  [setProgress p] stores [p] as it is, and the next frame update
    (gate open, handles present) smooths the speed toward the target chosen
    by [0 < p < 100]: 0.05 when it holds, 0.001 otherwise.  So progress 0
    and progress 100 give the idle target 0.001, progress 50 the processing
    target 0.05, and every value below 0 or above 100 the idle target. *)
Theorem setProgress_selects_target :
  forall (Math_sin : Q -> Q) (w : World) (p now time : Q),
    progress (svc (setProgress p w)) = p
    /\ (isProcessing p = true <-> 0 < p /\ p < 100)
    /\ targetSpeed p = (if isProcessing p then 0.05 else 0.001)
    /\ (ready w = true ->
        fpsInterval < elapsed now w ->
        currentRotationSpeed (svc (animate Math_sin now time (setProgress p w)))
        = currentRotationSpeed (svc w)
          + (targetSpeed p - currentRotationSpeed (svc w)) * 0.05)
    /\ targetSpeed 0 = 0.001
    /\ targetSpeed 100 = 0.001
    /\ targetSpeed 50 = 0.05
    /\ (p < 0 \/ 100 < p -> targetSpeed p = 0.001).
Proof.
  intros Math_sin w p now time.
  split; [reflexivity |].
  split; [apply isProcessing_true_iff |].
  split; [reflexivity |].
  split.
  { intros Hr Hg.
    destruct (animate_open_work Math_sin now time (setProgress p w))
      as (Hs & _); [exact Hg | exact Hr | exact Hs]. }
  split; [reflexivity |].
  split; [reflexivity |].
  split; [reflexivity |].
  intros [H | H]; apply targetSpeed_idle; intros [H0 H1]; lra.
Qed.

Lemma setProgress_selects_target_witness :
  currentRotationSpeed (svc (animate flat 1034 1034 (setProgress 50 booted)))
  = currentRotationSpeed (svc booted)
    + (targetSpeed 50 - currentRotationSpeed (svc booted)) * 0.05.
Proof.
  apply (setProgress_selects_target flat booted 50 1034 1034).
  - vm_compute. reflexivity.
  - vm_compute. reflexivity.
Defined.



(** After [init] at 1000 the callback at 1034 draws and re-bases the timer
    to 1033.3333333333333; the one at 1050, where the clock stands three
    intervals of 50/3 ms after 1000, draws again: the elapsed time the code
    computes there is above the interval it holds. *)
Example gate_open_on_whole_clocks :
  let w := animate flat 1034 1034 booted in
  then_ (svc booted) = 1000
  /\ draws w = S (draws booted)
  /\ draws (animate flat 1050 1050 w) = S (draws w).
Proof. cbv zeta. repeat split; vm_compute; reflexivity. Qed.

(** C5 (amended).  The bound counts from the timer's base.  Callbacks at
    any times, none later than 100 ms after the base, draw at most 6 times,
    and callbacks none later than 1000 ms after it at most 60 times (clock
    and timer between 0 and 2^43 ms).  A window of 100 ms that starts
    later can hold one draw more. *)
Theorem frame_rate_bound :
  forall (Math_sin : Q -> Q) (w : World) (times : list Q),
    0 <= then_ (svc w) -> then_ (svc w) <= clock_max ->
    (forall t, In t times -> 0 <= t /\ t <= clock_max) ->
    ((forall t, In t times -> t <= then_ (svc w) + 100) ->
     (draws (callbacks Math_sin times w) - draws w <= 6)%nat)
    /\ ((forall t, In t times -> t <= then_ (svc w) + 1000) ->
        (draws (callbacks Math_sin times w) - draws w <= 60)%nat).
Proof.
  intros Math_sin w times T0 T1 Hall.
  assert (General : forall span : Q,
             0 <= span ->
             (forall t, In t times -> t <= then_ (svc w) + span) ->
             inject_Z (Z.of_nat (draws (callbacks Math_sin times w) - draws w))
             * (fpsInterval - (1 # 256)) <= span + (1 # 256)).
  { intros span Hs Hb.
    destruct (callbacks_advance Math_sin times (then_ (svc w) + span) w)
      as (_ & R & B); try lra.
    intros t Ht. destruct (Hall t Ht) as [A0 A1].
    split; [exact A0 |]. split; [exact A1 | apply Hb; exact Ht]. }
  pose proof fpsInterval_value as HI.
  set (d := (draws (callbacks Math_sin times w) - draws w)%nat) in *.
  split; intro Hb.
  - assert (H100 : 0 <= 100) by discriminate.
    pose proof (General 100 H100 Hb) as G.
    destruct (le_lt_dec d 6) as [Hle | Hgt]; [exact Hle | exfalso].
    assert (H7 : inject_Z 7 <= inject_Z (Z.of_nat d)).
    { rewrite <- Zle_Qle. lia. }
    change (inject_Z 7) with 7 in H7.
    assert (Hm : 7 * (fpsInterval - (1 # 256))
                 <= inject_Z (Z.of_nat d) * (fpsInterval - (1 # 256))).
    { apply Qmult_le_compat_r; [exact H7 | lra]. }
    lra.
  - assert (H1000 : 0 <= 1000) by discriminate.
    pose proof (General 1000 H1000 Hb) as G.
    destruct (le_lt_dec d 60) as [Hle | Hgt]; [exact Hle | exfalso].
    assert (H61 : inject_Z 61 <= inject_Z (Z.of_nat d)).
    { rewrite <- Zle_Qle. lia. }
    change (inject_Z 61) with 61 in H61.
    assert (Hm : 61 * (fpsInterval - (1 # 256))
                 <= inject_Z (Z.of_nat d) * (fpsInterval - (1 # 256))).
    { apply Qmult_le_compat_r; [exact H61 | lra]. }
    lra.
Qed.

Lemma frame_rate_bound_witness :
  (draws (callbacks flat (ticks 1008 8 12) booted) - draws booted <= 6)%nat.
Proof.
  destruct (frame_rate_bound flat booted (ticks 1008 8 12)) as [H _].
  - vm_compute. discriminate.
  - vm_compute. discriminate.
  - apply times_within. vm_compute. reflexivity.
  - apply H. apply times_below. vm_compute. reflexivity.
Defined.

(** The run of the specification's example: twelve callbacks, 8 ms apart,
    after [init] at 1000, draw five times. *)
Example eight_ms_run :
  draws (callbacks flat (ticks 1008 8 12) booted) = 5%nat.
Proof. vm_compute. reflexivity. Qed.

(** Callbacks every 8 ms over a span of 96 ms that do the work seven times,
    not six: after [init] at 1000 and two callbacks that find the gate
    shut, the thirteen callbacks from 1024 to 1120. *)
Lemma draws_in_a_later_window :
  let w := callbacks flat (ticks 1008 8 2) booted in
  draws w = draws booted
  /\ ticks 1024 8 13
     = map (fun k => 1024 + 8 * inject_Z (Z.of_nat k)) (seq 0 13)
  /\ (draws (callbacks flat (ticks 1024 8 13) w) - draws w = 7)%nat.
Proof. cbv zeta. split; [| split]; vm_compute; reflexivity. Qed.

(** ** Point cloud generator *)

(** C6.  The branch angle the generator gives particle [i] is
    [(i mod 3) * (2 * PI / 3)], and particle [i + 3] gets the same angle:
    the assignment to the three arms has period 3 (whatever the draws). *)
Theorem branchAngle_period_3 :
  forall (Math_PI : Q) (Math_cos Math_sin : Q -> Q) (random : N -> Q)
         (i : nat) (k k' : N),
    branchAngle (fst (galaxyParticle Math_PI Math_cos Math_sin random i k))
    = inject_Z (Z.of_nat (i mod 3)) * ((2 * Math_PI) / 3)
    /\ branchAngle
         (fst (galaxyParticle Math_PI Math_cos Math_sin random (i + 3) k'))
       = branchAngle
           (fst (galaxyParticle Math_PI Math_cos Math_sin random i k)).
Proof.
  intros. split; [reflexivity |].
  change (inject_Z (Z.of_nat ((i + 3) mod 3)) * ((2 * Math_PI) / 3)
          = inject_Z (Z.of_nat (i mod 3)) * ((2 * Math_PI) / 3)).
  replace ((i + 3) mod 3)%nat with (i mod 3)%nat; [reflexivity |].
  replace (i + 3)%nat with (i + 1 * 3)%nat by lia.
  symmetry. apply Nat.Div0.mod_add.
Qed.

(** C7.  When every draw of [Math.random()] lies in [[0, 1)], the particle
    made by iteration [i] of the generator (the loop starts where the
    constructor of the geometry left the stream and makes nine draws per
    particle) has a radius in [[0, 200]] and a size in [[0, 2]].  Its colour
    is the linear interpolation from the inner to the outer colour by the
    factor [radius / 200], which lies in [[0, 1]]: every channel is
    [inner + (outer - inner) * factor], the inner colour at factor 0 and the
    outer colour at factor 1.  These are the size and the colour the mesh
    holds for particle [i]. *)
Theorem generated_particle_ranges :
  forall (Math_PI : Q) (Math_cos Math_sin : Q -> Q) (random : N -> Q)
         (ctor_draws : THREE.Class -> N),
    (forall k, 0 <= random k /\ random k < 1) ->
    forall (w : World) (sc : THREE.Scene) (i : nat),
      scene (svc w) = Some sc ->
      (i < particleCount)%nat ->
      let p :=
        fst (galaxyParticle Math_PI Math_cos Math_sin random i
               (rng w + ctor_draws THREE.C_BufferGeometry
                + 9 * N.of_nat i)%N) in
      let factor := radius p / 200 in
      (0 <= radius p /\ radius p <= 200)
      /\ (0 <= psize p /\ psize p <= 2)
      /\ (0 <= factor /\ factor <= 1)
      /\ THREE.r (mixedColor p)
         = THREE.r colorInside
           + (THREE.r colorOutside - THREE.r colorInside) * factor
      /\ THREE.g (mixedColor p)
         = THREE.g colorInside
           + (THREE.g colorOutside - THREE.g colorInside) * factor
      /\ THREE.b (mixedColor p)
         = THREE.b colorInside
           + (THREE.b colorOutside - THREE.b colorInside) * factor
      /\ (factor == 0 ->
          THREE.r (mixedColor p) == THREE.r colorInside
          /\ THREE.g (mixedColor p) == THREE.g colorInside
          /\ THREE.b (mixedColor p) == THREE.b colorInside)
      /\ (factor == 1 ->
          THREE.r (mixedColor p) == THREE.r colorOutside
          /\ THREE.g (mixedColor p) == THREE.g colorOutside
          /\ THREE.b (mixedColor p) == THREE.b colorOutside)
      /\ exists mesh,
           particlesMesh
             (svc (createGalaxySystem Math_PI Math_cos Math_sin random
                     ctor_draws w))
           = Some mesh
           /\ nth i (THREE.attr_size (THREE.geometry mesh)) 0 = psize p
           /\ nth (i * 3) (THREE.attr_color (THREE.geometry mesh)) 0
              = THREE.r (mixedColor p)
           /\ nth (i * 3 + 1) (THREE.attr_color (THREE.geometry mesh)) 0
              = THREE.g (mixedColor p)
           /\ nth (i * 3 + 2) (THREE.attr_color (THREE.geometry mesh)) 0
              = THREE.b (mixedColor p).
Proof.
  intros Math_PI Math_cos Math_sin random ctor_draws Hr w sc i Hsc Hi p factor.
  set (k := (rng w + ctor_draws THREE.C_BufferGeometry + 9 * N.of_nat i)%N)
    in *.
  assert (Hrad : radius p = random k * 200) by reflexivity.
  assert (Hsz : psize p = random (k + 8)%N * 2) by apply particle_psize.
  destruct (Hr k) as [R0 R1].
  destruct (Hr (k + 8)%N) as [S0 S1].
  assert (Hf : factor == random k).
  { unfold factor. rewrite Hrad. field. }
  assert (Er : THREE.r (mixedColor p)
               = THREE.r colorInside
                 + (THREE.r colorOutside - THREE.r colorInside) * factor)
    by reflexivity.
  assert (Eg : THREE.g (mixedColor p)
               = THREE.g colorInside
                 + (THREE.g colorOutside - THREE.g colorInside) * factor)
    by reflexivity.
  assert (Eb : THREE.b (mixedColor p)
               = THREE.b colorInside
                 + (THREE.b colorOutside - THREE.b colorInside) * factor)
    by reflexivity.
  split; [rewrite Hrad; split; lra |].
  split; [rewrite Hsz; split; lra |].
  split; [rewrite Hf; split; lra |].
  split; [exact Er |]. split; [exact Eg |]. split; [exact Eb |].
  split.
  { intro E0. rewrite Er, Eg, Eb, E0. repeat split; ring. }
  split.
  { intro E1. rewrite Er, Eg, Eb, E1. repeat split; ring. }
  destruct (createGalaxySystem_mesh Math_PI Math_cos Math_sin random
              ctor_draws w sc Hsc) as (mesh & Hm & Harr).
  exists mesh. split; [exact Hm |]. apply (Harr i Hi).
Qed.

Lemma generated_particle_ranges_witness :
  let w :=
    upd_svc (set_scene (Some THREE.new_Scene)) (new_World sample_window) in
  let p :=
    fst (galaxyParticle 3 flat flat half_random 4
           (rng w + sample_draws THREE.C_BufferGeometry + 9 * N.of_nat 4)%N) in
  THREE.g (mixedColor p)
  = THREE.g colorInside
    + (THREE.g colorOutside - THREE.g colorInside) * (radius p / 200).
Proof.
  cbv zeta.
  destruct (generated_particle_ranges 3 flat flat half_random sample_draws)
    with (w := upd_svc (set_scene (Some THREE.new_Scene))
                 (new_World sample_window))
         (sc := THREE.new_Scene) (i := 4%nat)
    as (_ & _ & _ & _ & G & _).
  - intro k. unfold half_random. split; [discriminate | reflexivity].
  - reflexivity.
  - unfold particleCount. lia.
  - exact G.
Defined.

(** ** Input adapters, continued *)

(** Sixteen is a binary64 number, and rounding keeps the order: a
    difference of at least 16 ms is one after rounding as well. *)
Lemma throttle_reached (x : Q) :
  MOUSE_MOVE_THROTTLE_MS <= x -> MOUSE_MOVE_THROTTLE_MS <= F64.round x.
Proof.
  intro H. apply round_mono in H.
  assert (E : F64.round MOUSE_MOVE_THROTTLE_MS == MOUSE_MOVE_THROTTLE_MS)
    by (vm_compute; reflexivity).
  rewrite E in H. exact H.
Qed.

Lemma onMouseMove_dropped (ev : DOM.MouseEvent) (now : Q) (w : World) :
  since now w < MOUSE_MOVE_THROTTLE_MS ->
  onMouseMove ev now w = w.
Proof.
  intro Hlt. unfold onMouseMove. unfold since in Hlt.
  apply ltb_true_iff in Hlt. rewrite Hlt. reflexivity.
Qed.

Lemma onMouseMove_accepted (ev : DOM.MouseEvent) (now : Q) (w : World) :
  MOUSE_MOVE_THROTTLE_MS <= since now w ->
  onMouseMove ev now w
  = upd_svc (fun s =>
      set_mouseY
        (- (DOM.clientY ev / inject_Z (DOM.innerHeight (wnd w))) * 2 + 1)
        (set_mouseX
           (DOM.clientX ev / inject_Z (DOM.innerWidth (wnd w)) * 2 - 1)
           (set_lastMouseMoveTime now s))) w.
Proof.
  intro Hge. unfold onMouseMove. unfold since in Hge.
  apply ltb_false_iff in Hge. rewrite Hge. reflexivity.
Qed.

(** C8 (amended).  A mouse-move event at [now] changes the service exactly
    when the difference the handler computes between [now] and the stored
    time of the last accepted event, which is 0 as long as none has been
    accepted, is at least 16 ms; a true difference of at least 16 ms is
    one.  An accepted event stores its time and the position
    [clientX / width * 2 - 1], [-(clientY / height) * 2 + 1], which for a
    position inside a window of positive size lie in [[-1, 1]], the top edge
    at 1 and the bottom edge at -1.  A second event at [later]: after an
    accepted first event it is dropped when it comes 5 ms later and accepted
    when it comes 20 ms later; after a dropped first event the service is
    as before, so the second event is measured against the same stored
    time, and is accepted or dropped by that difference alone. *)
Theorem onMouseMove_throttled :
  forall (w : World) (ev ev2 : DOM.MouseEvent) (now later : Q),
    let w' := onMouseMove ev now w in
    let w'' := onMouseMove ev2 later w' in
    let W := inject_Z (DOM.innerWidth (wnd w)) in
    let H := inject_Z (DOM.innerHeight (wnd w)) in
    (MOUSE_MOVE_THROTTLE_MS <= since now w <-> w' <> w)
    /\ (MOUSE_MOVE_THROTTLE_MS <= now - lastMouseMoveTime (svc w) ->
        MOUSE_MOVE_THROTTLE_MS <= since now w)
    /\ (MOUSE_MOVE_THROTTLE_MS <= since now w ->
        lastMouseMoveTime (svc w') = now
        /\ mouseX (svc w') = DOM.clientX ev / W * 2 - 1
        /\ mouseY (svc w') = - (DOM.clientY ev / H) * 2 + 1
        /\ (0 < W -> 0 < H ->
            0 <= DOM.clientX ev <= W -> 0 <= DOM.clientY ev <= H ->
            (-1 <= mouseX (svc w') <= 1) /\ (-1 <= mouseY (svc w') <= 1)
            /\ (DOM.clientY ev == 0 -> mouseY (svc w') == 1)
            /\ (DOM.clientY ev == H -> mouseY (svc w') == -1)))
    /\ (MOUSE_MOVE_THROTTLE_MS <= since now w ->
        (later - now == 5 -> w'' = w')
        /\ (later - now == 20 ->
            lastMouseMoveTime (svc w'') = later
            /\ mouseX (svc w'') = DOM.clientX ev2 / W * 2 - 1
            /\ mouseY (svc w'') = - (DOM.clientY ev2 / H) * 2 + 1))
    /\ (since now w < MOUSE_MOVE_THROTTLE_MS ->
        w' = w
        /\ (since later w < MOUSE_MOVE_THROTTLE_MS -> w'' = w)
        /\ (MOUSE_MOVE_THROTTLE_MS <= since later w ->
            lastMouseMoveTime (svc w'') = later
            /\ mouseX (svc w'') = DOM.clientX ev2 / W * 2 - 1
            /\ mouseY (svc w'') = - (DOM.clientY ev2 / H) * 2 + 1)).
Proof.
  intros w ev ev2 now later w' w'' W H.
  split.
  { split.
    - intros Hge Heq. unfold w' in Heq.
      rewrite (onMouseMove_accepted _ _ _ Hge) in Heq.
      apply (f_equal (fun v => lastMouseMoveTime (svc v))) in Heq.
      simpl in Heq. unfold since in Hge. rewrite <- Heq in Hge.
      assert (Z0 : F64.round (now - now) = F64.round 0)
        by (apply round_comp; ring).
      rewrite Z0 in Hge. vm_compute in Hge. apply Hge. reflexivity.
    - intro Hne.
      destruct (Qlt_le_dec (since now w) MOUSE_MOVE_THROTTLE_MS)
        as [Hlt | Hge]; [| exact Hge].
      exfalso. apply Hne. apply onMouseMove_dropped. exact Hlt. }
  split; [apply throttle_reached |].
  split.
  { intro Hge. unfold w'. rewrite (onMouseMove_accepted _ _ _ Hge).
    split; [reflexivity |]. split; [reflexivity |]. split; [reflexivity |].
    intros HW HH [Hx0 Hx1] [Hy0 Hy1]. simpl.
    fold W H.
    assert (Ex : 0 <= DOM.clientX ev / W /\ DOM.clientX ev / W <= 1).
    { split; [apply Qle_shift_div_l | apply Qle_shift_div_r]; lra. }
    assert (Ey : 0 <= DOM.clientY ev / H /\ DOM.clientY ev / H <= 1).
    { split; [apply Qle_shift_div_l | apply Qle_shift_div_r]; lra. }
    destruct Ex, Ey.
    split; [split; lra |]. split; [split; lra |].
    split; intro E; rewrite E.
    + unfold Qdiv. lra.
    + assert (K : H / H == 1) by (field; lra). rewrite K. lra. }
  split.
  { intro Hge. unfold w'', w'. rewrite (onMouseMove_accepted _ _ _ Hge).
    set (v := upd_svc _ w).
    assert (Hlast : since later v = F64.round (later - now)) by reflexivity.
    split.
    - intro E5. apply onMouseMove_dropped. rewrite Hlast.
      rewrite (round_comp _ _ E5). vm_compute. reflexivity.
    - intro E20.
      assert (Hge2 : MOUSE_MOVE_THROTTLE_MS <= since later v).
      { rewrite Hlast, (round_comp _ _ E20). vm_compute. discriminate. }
      rewrite (onMouseMove_accepted _ _ _ Hge2).
      split; [reflexivity |]. split; reflexivity. }
  intro Hlt.
  assert (Ew : w' = w) by (apply onMouseMove_dropped; exact Hlt).
  unfold w''. rewrite Ew.
  split; [reflexivity |].
  split; [intro K; apply onMouseMove_dropped; exact K |].
  intro K. rewrite (onMouseMove_accepted _ _ _ K).
  split; [reflexivity |]. split; reflexivity.
Qed.

Lemma onMouseMove_throttled_witness :
  let ev := DOM.mkMouseEvent 960 180 in
  let w' := onMouseMove ev 5000 booted in
  lastMouseMoveTime (svc w') = 5000
  /\ mouseX (svc w')
     = DOM.clientX ev / inject_Z (DOM.innerWidth (wnd booted)) * 2 - 1.
Proof.
  cbv zeta.
  destruct (onMouseMove_throttled booted (DOM.mkMouseEvent 960 180)
              (DOM.mkMouseEvent 10 10) 5000 5005)
    as (_ & _ & A & _).
  destruct A as (H1 & H2 & _).
  - vm_compute. discriminate.
  - split; [exact H1 | exact H2].
Defined.

(** A service that has accepted no mouse event yet holds the time 0.  Two
    events 5 ms apart, 10 and 15 ms after the time origin of
    [performance.now()], are both dropped: no update, not one.  Two events
    20 ms apart, at 10 and 30 ms, give one update, that of the second
    event, not two. *)
Lemma first_mouse_events_dropped :
  let e1 := DOM.mkMouseEvent 960 180 in
  let e2 := DOM.mkMouseEvent 320 540 in
  lastMouseMoveTime (svc booted) = 0
  /\ onMouseMove e1 10 booted = booted
  /\ onMouseMove e2 15 (onMouseMove e1 10 booted) = booted
  /\ lastMouseMoveTime (svc (onMouseMove e2 30 (onMouseMove e1 10 booted)))
     = 30
  /\ mouseX (svc (onMouseMove e2 30 (onMouseMove e1 10 booted)))
     = DOM.clientX e2 / inject_Z (DOM.innerWidth (wnd booted)) * 2 - 1.
Proof.
  cbv zeta.
  assert (D1 : onMouseMove (DOM.mkMouseEvent 960 180) 10 booted = booted)
    by (apply onMouseMove_dropped; vm_compute; reflexivity).
  rewrite D1.
  split; [reflexivity |]. split; [reflexivity |].
  split; [apply onMouseMove_dropped; vm_compute; reflexivity |].
  rewrite onMouseMove_accepted by (vm_compute; discriminate).
  split; reflexivity.
Qed.

(** ** Motion state *)

(** C9.  In a state reached by any run of the service, a frame update whose
    gate opens (handles present) smooths the speed by
    [speed += (target - speed) * 0.05] and then adds the new speed to the
    rotation about the vertical axis, which thereby grows; and no callback,
    gate open or shut, ever makes that angle smaller. *)
Theorem rotation_accumulates_speed :
  forall (Math_PI : Q) (Math_cos Math_sin : Q -> Q) (random : N -> Q)
         (ctor_draws : THREE.Class -> N)
         (wn : DOM.Window) (acts : list Action) (now time : Q),
    let w := run Math_PI Math_cos Math_sin random ctor_draws acts (new_World wn) in
    let w' := animate Math_sin now time w in
    rotationY w <= rotationY w'
    /\ (ready w = true ->
        fpsInterval < elapsed now w ->
        currentRotationSpeed (svc w')
        = currentRotationSpeed (svc w)
          + (targetSpeed (progress (svc w)) - currentRotationSpeed (svc w))
            * 0.05
        /\ rotationY w' = rotationY w + currentRotationSpeed (svc w')
        /\ rotationY w < rotationY w').
Proof.
  intros Math_PI Math_cos Math_sin random ctor_draws wn acts now time w w'.
  pose proof (run_speed Math_PI Math_cos Math_sin random ctor_draws acts wn) as Hin.
  fold w in Hin.
  pose proof (animate_speed Math_sin now time w Hin) as [Hlo' _].
  fold w' in Hlo'.
  assert (Open : ready w = true ->
                 fpsInterval < elapsed now w ->
                 currentRotationSpeed (svc w')
                 = currentRotationSpeed (svc w)
                   + (targetSpeed (progress (svc w))
                      - currentRotationSpeed (svc w)) * 0.05
                 /\ rotationY w' = rotationY w + currentRotationSpeed (svc w')
                 /\ rotationY w < rotationY w').
  { intros Hr Hg.
    destruct (animate_open_work Math_sin now time w Hg Hr) as (Hs & Hy & _).
    fold w' in Hs, Hy.
    split; [exact Hs |]. split; [exact Hy |]. rewrite Hy. lra. }
  split; [| exact Open].
  destruct (Qlt_le_dec fpsInterval (elapsed now w)) as [H | H].
  - destruct (ready w) eqn:Hr.
    + destruct (Open eq_refl H) as (_ & _ & Hlt). lra.
    + unfold w'. rewrite (animate_open_idle Math_sin now time w H Hr).
      unfold rotationY. simpl. lra.
  - unfold w'. rewrite (animate_shut Math_sin now time w H).
    unfold rotationY. simpl. lra.
Qed.

Lemma rotation_accumulates_speed_witness :
  let w :=
    run 3 flat flat sample_random sample_draws [Init 7 1000 1000 1000]
      (new_World sample_window) in
  let w' := animate flat 1034 1034 w in
  currentRotationSpeed (svc w')
  = currentRotationSpeed (svc w)
    + (targetSpeed (progress (svc w)) - currentRotationSpeed (svc w)) * 0.05
  /\ rotationY w' = rotationY w + currentRotationSpeed (svc w')
  /\ rotationY w < rotationY w'.
Proof.
  apply (rotation_accumulates_speed 3 flat flat sample_random sample_draws sample_window
           [Init 7 1000 1000 1000] 1034 1034).
  - cbn [run fold_left step]. apply init_ready.
  - cbn [run fold_left step]. unfold elapsed. rewrite init_then.
    + vm_compute. reflexivity.
    + vm_compute. discriminate.
Defined.

(** C10.  The smoothed rotation speed starts at 0.001 and stays within
    [[0.001, 0.05]] along every run of the service: any sequence of [init],
    [setProgress] and [destroy] calls, resize and mouse events, timer
    expiries and display refreshes, from a new service in any window. *)
Theorem rotation_speed_in_range :
  forall (Math_PI : Q) (Math_cos Math_sin : Q -> Q) (random : N -> Q)
         (ctor_draws : THREE.Class -> N)
         (wn : DOM.Window) (acts : list Action),
    currentRotationSpeed (svc (new_World wn)) = 0.001
    /\ 0.001
       <= currentRotationSpeed
            (svc (run Math_PI Math_cos Math_sin random ctor_draws acts (new_World wn)))
    /\ currentRotationSpeed
         (svc (run Math_PI Math_cos Math_sin random ctor_draws acts (new_World wn)))
       <= 0.05.
Proof.
  intros. split; [reflexivity |].
  apply (run_speed Math_PI Math_cos Math_sin random ctor_draws acts wn).
Qed.

(** * Further properties *)

(** ** The point cloud: shape and extent *)

Section Cloud.

Variable Math_PI : Q.
Variables Math_cos Math_sin : Q -> Q.
Variable random : N -> Q.
Variable ctor_draws : THREE.Class -> N.

Let particle (i : nat) (k : N) : Particle :=
  fst (galaxyParticle Math_PI Math_cos Math_sin random i k).

Let loop := galaxyLoop Math_PI Math_cos Math_sin random.

Lemma loop_frame_positions (n i : nat) (bufs : Buffers) (k : N) :
  forall j, (j < i * 3)%nat ->
    nth j (positions (fst (loop n i bufs k))) 0 = nth j (positions bufs) 0.
Proof.
  revert i bufs k. induction n as [| n IH]; intros i bufs k j Hj.
  - reflexivity.
  - unfold loop. rewrite loop_S. fold loop. rewrite IH by lia.
    rewrite galaxyStep_eq. simpl.
    rewrite !nth_store_neq by lia. reflexivity.
Qed.

(** After the loop, the three position slots of particle [j] hold its
    coordinates. *)
Lemma loop_filled_positions (n i : nat) (bufs : Buffers) (k : N) (j : nat) :
  (i <= j < i + n)%nat ->
  (j * 3 + 2 < length (positions bufs))%nat ->
  let p := particle j (k + 9 * N.of_nat (j - i))%N in
  let out := fst (loop n i bufs k) in
  nth (j * 3) (positions out) 0 = x p
  /\ nth (j * 3 + 1) (positions out) 0 = y p
  /\ nth (j * 3 + 2) (positions out) 0 = z p.
Proof.
  revert i bufs k. induction n as [| n IH]; intros i bufs k Hj Hp; [lia |].
  cbv zeta. unfold loop. rewrite loop_S. fold loop.
  set (bufs1 := fst (galaxyStep Math_PI Math_cos Math_sin random i bufs k)).
  assert (Hl : length (positions bufs1) = length (positions bufs)).
  { unfold bufs1. rewrite galaxyStep_eq. simpl. now rewrite !store_length. }
  destruct (Nat.eq_dec j i) as [-> | Hne].
  - rewrite !loop_frame_positions by lia.
    replace (k + 9 * N.of_nat (i - i))%N with k by lia.
    unfold bufs1. rewrite galaxyStep_eq. simpl.
    rewrite (nth_store_neq _ (i * 3 + 2) (i * 3)) by lia.
    rewrite (nth_store_neq _ (i * 3 + 1) (i * 3)) by lia.
    rewrite nth_store_eq by lia.
    rewrite (nth_store_neq _ (i * 3 + 2) (i * 3 + 1)) by lia.
    rewrite nth_store_eq by (rewrite store_length; lia).
    rewrite nth_store_eq by (rewrite !store_length; lia).
    auto.
  - replace (k + 9 * N.of_nat (j - i))%N
      with (k + 9 + 9 * N.of_nat (j - S i))%N by lia.
    apply IH; lia.
Qed.

(** What [createGalaxySystem] builds when there is a scene. *)
Lemma createGalaxySystem_built (w : World) (sc : THREE.Scene) :
  scene (svc w) = Some sc ->
  let w' := createGalaxySystem Math_PI Math_cos Math_sin random ctor_draws w in
  exists mesh,
    particlesMesh (svc w') = Some mesh
    /\ scene (svc w') = Some (THREE.Scene_add sc)
    /\ rng w'
       = (rng w + ctor_draws THREE.C_BufferGeometry
          + 9 * N.of_nat particleCount
          + ctor_draws (THREE.class_of_texture (getTexture w))
          + ctor_draws THREE.C_PointsMaterial
          + ctor_draws THREE.C_Points)%N
    /\ THREE.rotation mesh = THREE.mkVector3 0 0 0
    /\ THREE.mat_map (THREE.material mesh) = getTexture w
    /\ length (THREE.attr_position (THREE.geometry mesh))
       = (particleCount * 3)%nat
    /\ length (THREE.attr_color (THREE.geometry mesh))
       = (particleCount * 3)%nat
    /\ length (THREE.attr_size (THREE.geometry mesh)) = particleCount
    /\ forall i, (i < particleCount)%nat ->
         let p :=
           particle i
             (rng w + ctor_draws THREE.C_BufferGeometry
              + 9 * N.of_nat i)%N in
         nth (i * 3) (THREE.attr_position (THREE.geometry mesh)) 0 = x p
         /\ nth (i * 3 + 1) (THREE.attr_position (THREE.geometry mesh)) 0
            = y p
         /\ nth (i * 3 + 2) (THREE.attr_position (THREE.geometry mesh)) 0
            = z p.
Proof.
  intro Hsc. unfold createGalaxySystem. rewrite Hsc.
  set (bufs0 := {| positions := repeat 0 (particleCount * 3);
                   colors := repeat 0 (particleCount * 3);
                   sizes := repeat 0 particleCount |}).
  set (k0 := (rng w + ctor_draws THREE.C_BufferGeometry)%N).
  pose proof (fun i => loop_filled_positions particleCount 0 bufs0 k0 i)
    as HF.
  pose proof (loop_lengths Math_PI Math_cos Math_sin random
                particleCount 0 bufs0 k0) as (L1 & L2 & L3).
  pose proof (loop_cursor Math_PI Math_cos Math_sin random
                particleCount 0 bufs0 k0) as HC.
  unfold loop in HF.
  destruct (galaxyLoop Math_PI Math_cos Math_sin random particleCount 0 bufs0
              k0) as [bufs k].
  cbv zeta. eexists. split; [reflexivity |].
  split; [reflexivity |].
  split; [cbn [snd] in HC; cbn [rng]; rewrite HC; reflexivity |].
  split; [reflexivity |].
  split; [reflexivity |].
  simpl fst in *. simpl THREE.geometry. simpl THREE.attr_position.
  simpl THREE.attr_color. simpl THREE.attr_size.
  change (positions bufs0) with (repeat 0 (particleCount * 3)) in L3.
  change (colors bufs0) with (repeat 0 (particleCount * 3)) in L2.
  change (sizes bufs0) with (repeat 0 particleCount) in L1.
  rewrite repeat_length in L1, L2, L3.
  split; [exact L3 |]. split; [exact L2 |]. split; [exact L1 |].
  intros i Hi. specialize (HF i).
  replace (i - 0)%nat with i in HF by lia.
  apply HF; [lia |].
  change (positions bufs0) with (repeat 0 (particleCount * 3)).
  rewrite repeat_length. lia.
Qed.

End Cloud.


Lemma jitter_extent (u s : Q) :
  0 <= u -> u < 1 ->
  -30 <= JS.pow3 u * (if JS.ltb s 0.5 then 1 else -1) * 30
  /\ JS.pow3 u * (if JS.ltb s 0.5 then 1 else -1) * 30 <= 30.
Proof.
  intros H0 H1. unfold JS.pow3.
  assert (Hu2 : 0 <= u * u /\ u * u <= 1) by (split; nra).
  assert (Hu3 : 0 <= u * u * u /\ u * u * u <= 1) by (split; nra).
  destruct (JS.ltb s 0.5); split; lra.
Qed.

(** X2.  With draws in [[0, 1)] and [Math.cos], [Math.sin] within
    [[-1, 1]], every particle the generator stores lies in the flat box
    |x| <= 230, |y| <= 50, |z| <= 230: a disc of radius 200 with a jitter of
    at most 30 on each axis and a thickness that grows with the radius. *)
Theorem galaxy_extent :
  forall (Math_PI : Q) (Math_cos Math_sin : Q -> Q) (random : N -> Q)
         (ctor_draws : THREE.Class -> N),
    (forall k, 0 <= random k /\ random k < 1) ->
    (forall t, -1 <= Math_cos t /\ Math_cos t <= 1) ->
    (forall t, -1 <= Math_sin t /\ Math_sin t <= 1) ->
    forall (w : World) (sc : THREE.Scene) (i : nat),
      scene (svc w) = Some sc ->
      (i < particleCount)%nat ->
      exists mesh,
        particlesMesh
          (svc (createGalaxySystem Math_PI Math_cos Math_sin random ctor_draws w))
        = Some mesh
        /\ (-230 <= nth (i * 3) (THREE.attr_position (THREE.geometry mesh)) 0
            /\ nth (i * 3) (THREE.attr_position (THREE.geometry mesh)) 0
               <= 230)
        /\ (-50 <= nth (i * 3 + 1)
                     (THREE.attr_position (THREE.geometry mesh)) 0
            /\ nth (i * 3 + 1) (THREE.attr_position (THREE.geometry mesh)) 0
               <= 50)
        /\ (-230 <= nth (i * 3 + 2)
                      (THREE.attr_position (THREE.geometry mesh)) 0
            /\ nth (i * 3 + 2) (THREE.attr_position (THREE.geometry mesh)) 0
               <= 230).
Proof.
  intros Math_PI Math_cos Math_sin random ctor_draws Hr Hcos Hsin w sc i Hsc Hi.
  destruct (createGalaxySystem_built Math_PI Math_cos Math_sin random
              ctor_draws w sc Hsc)
    as (mesh & Hm & _ & _ & _ & _ & _ & _ & _ & Hpos).
  exists mesh. split; [exact Hm |].
  destruct (Hpos i Hi) as (Ex & Ey & Ez). rewrite Ex, Ey, Ez.
  set (k := (rng w + ctor_draws THREE.C_BufferGeometry + 9 * N.of_nat i)%N).
  unfold galaxyParticle, bind, Math_random, ret. cbn [fst x y z].
  destruct (Hr k) as [R0 R1].
  destruct (Hr (N.succ (N.succ (N.succ (N.succ (N.succ (N.succ
              (N.succ k)))))))) as [V0 V1].
  pose proof (jitter_extent (random (N.succ k))
                (random (N.succ (N.succ k)))
                (proj1 (Hr _)) (proj2 (Hr _))) as [JX0 JX1].
  pose proof (jitter_extent (random (N.succ (N.succ (N.succ k))))
                (random (N.succ (N.succ (N.succ (N.succ k)))))
                (proj1 (Hr _)) (proj2 (Hr _))) as [JY0 JY1].
  pose proof (jitter_extent
                (random (N.succ (N.succ (N.succ (N.succ (N.succ k))))))
                (random (N.succ (N.succ (N.succ (N.succ (N.succ
                   (N.succ k)))))))
                (proj1 (Hr _)) (proj2 (Hr _))) as [JZ0 JZ1].
  set (jx := JS.pow3 _ * _ * 30) in JX0, JX1 |- *.
  set (jy := JS.pow3 _ * _ * 30) in JY0, JY1 |- *.
  set (jz := JS.pow3 _ * _ * 30) in JZ0, JZ1 |- *.
  set (r := random k) in *.
  set (v := random _) in V0, V1 |- *.
  match goal with
  | |- context [Math_cos ?a] =>
      destruct (Hcos a) as [C0 C1]; destruct (Hsin a) as [S0 S1];
      set (c := Math_cos a) in *; set (s := Math_sin a) in *
  end.
  assert (Hcr : -200 <= c * (r * 200) /\ c * (r * 200) <= 200)
    by (split; nra).
  assert (Hsr : -200 <= s * (r * 200) /\ s * (r * 200) <= 200)
    by (split; nra).
  assert (Hvr : -20 <= (v - 0.5) * (r * 200 * 0.2)
                /\ (v - 0.5) * (r * 200 * 0.2) <= 20)
    by (split; nra).
  repeat split; lra.
Qed.

Lemma galaxy_extent_witness :
  exists mesh,
    particlesMesh
      (svc (createGalaxySystem 3 flat flat half_random sample_draws
              (upd_svc (set_scene (Some THREE.new_Scene))
                 (new_World sample_window))))
    = Some mesh
    /\ (-230 <= nth (7 * 3) (THREE.attr_position (THREE.geometry mesh)) 0
        /\ nth (7 * 3) (THREE.attr_position (THREE.geometry mesh)) 0 <= 230)
    /\ (-50 <= nth (7 * 3 + 1) (THREE.attr_position (THREE.geometry mesh)) 0
        /\ nth (7 * 3 + 1) (THREE.attr_position (THREE.geometry mesh)) 0
           <= 50)
    /\ (-230 <= nth (7 * 3 + 2) (THREE.attr_position (THREE.geometry mesh)) 0
        /\ nth (7 * 3 + 2) (THREE.attr_position (THREE.geometry mesh)) 0
           <= 230).
Proof.
  apply (galaxy_extent 3 flat flat half_random sample_draws) with (sc := THREE.new_Scene).
  - intro k. unfold half_random. split; [discriminate | reflexivity].
  - intro t. unfold flat. split; discriminate.
  - intro t. unfold flat. split; discriminate.
  - reflexivity.
  - unfold particleCount. lia.
Defined.

(** ** A service running alone in its window *)

Lemma running_inv (w : World) :
  running w = true ->
  ready w = true
  /\ (exists m,
        DOM.listeners (wnd w)
        = [(DOM.Resize, DOM.FieldDebouncedOnResize);
           (DOM.MouseMove, DOM.Bound DOM.OnMouseMove m)])
  /\ (exists k,
        DOM.frames (wnd w)
        = [(animationFrameId (svc w), DOM.Bound DOM.Animate k)])
  /\ animationFrameId (svc w) <> 0%nat
  /\ ((DOM.timers (wnd w) = []
       /\ forall id, resizeTimeout (svc w) = Some id ->
                     (id <= DOM.nextTimer (wnd w))%nat)
      \/ exists id j d,
           DOM.timers (wnd w) = [(id, DOM.ResizeArrow j, d)]
           /\ resizeTimeout (svc w) = Some id
           /\ (id <= DOM.nextTimer (wnd w))%nat).
Proof.
  unfold running. rewrite !andb_true_iff. intros [[[Hr Hl] Hf] Ht].
  split; [exact Hr |].
  split.
  { destruct (DOM.listeners (wnd w)) as [| [[|] [| | |]] [| [[|] [| | [|] m |]] [|]]];
      try discriminate Hl. exists m. reflexivity. }
  split; [| split].
  { destruct (DOM.frames (wnd w)) as [| [id [| | [|] k |]] [|]];
      try discriminate Hf.
    apply andb_true_iff in Hf. destruct Hf as [Hf _].
    apply Nat.eqb_eq in Hf. subst id. exists k. reflexivity. }
  { destruct (DOM.frames (wnd w)) as [| [id [| | [|] k |]] [|]];
      try discriminate Hf.
    apply andb_true_iff in Hf. destruct Hf as [Hf Hn].
    apply Nat.eqb_eq in Hf. apply negb_true_iff, Nat.eqb_neq in Hn.
    congruence. }
  destruct (DOM.timers (wnd w)) as [| [[id [| | | j]] d] [|]];
    destruct (resizeTimeout (svc w)) as [id' |]; try discriminate Ht.
  - left. split; [reflexivity |]. intros i Hi. inversion Hi. subst.
    apply Nat.leb_le. exact Ht.
  - left. split; [reflexivity |]. intros i Hi. discriminate.
  - right. apply andb_true_iff in Ht. destruct Ht as [He Hle].
    apply Nat.eqb_eq in He. apply Nat.leb_le in Hle. subst id'.
    exists id, j, d. auto.
Qed.

Lemma running_intro (w : World) (m k : nat) :
  ready w = true ->
  DOM.listeners (wnd w)
  = [(DOM.Resize, DOM.FieldDebouncedOnResize);
     (DOM.MouseMove, DOM.Bound DOM.OnMouseMove m)] ->
  DOM.frames (wnd w)
  = [(animationFrameId (svc w), DOM.Bound DOM.Animate k)] ->
  animationFrameId (svc w) <> 0%nat ->
  ((DOM.timers (wnd w) = []
    /\ forall id, resizeTimeout (svc w) = Some id ->
                  (id <= DOM.nextTimer (wnd w))%nat)
   \/ exists id j d,
        DOM.timers (wnd w) = [(id, DOM.ResizeArrow j, d)]
        /\ resizeTimeout (svc w) = Some id
        /\ (id <= DOM.nextTimer (wnd w))%nat) ->
  running w = true.
Proof.
  intros Hr Hl Hf Hn Ht. unfold running. rewrite Hr, Hl, Hf.
  rewrite Nat.eqb_refl. apply Nat.eqb_neq in Hn. rewrite Hn. simpl.
  destruct Ht as [[Ht Hle] | (id & j & d & Ht & Hrt & Hle)]; rewrite Ht.
  - destruct (resizeTimeout (svc w)) as [id |]; [| reflexivity].
    apply Nat.leb_le. apply Hle. reflexivity.
  - rewrite Hrt, Nat.eqb_refl. apply Nat.leb_le in Hle. rewrite Hle.
    reflexivity.
Qed.

Lemma debouncedOnResize_effect (w : World) :
  let w' := debouncedOnResize w in
  ready w' = ready w
  /\ DOM.listeners (wnd w') = DOM.listeners (wnd w)
  /\ DOM.frames (wnd w') = DOM.frames (wnd w)
  /\ animationFrameId (svc w') = animationFrameId (svc w)
  /\ resizeTimeout (svc w') = Some (S (DOM.nextTimer (wnd w)))
  /\ DOM.nextTimer (wnd w') = S (DOM.nextTimer (wnd w))
  /\ DOM.timers (wnd w')
     = DOM.timers (DOM.clearTimeout (resizeTimeout (svc w)) (wnd w))
       ++ [(S (DOM.nextTimer (wnd w)),
            DOM.ResizeArrow (DOM.nextFn (wnd w)), 150)]
  /\ outputSize w' = outputSize w
  /\ cameraAspect w' = cameraAspect w
  /\ DOM.innerWidth (wnd w') = DOM.innerWidth (wnd w)
  /\ DOM.innerHeight (wnd w') = DOM.innerHeight (wnd w).
Proof.
  unfold debouncedOnResize, DOM.alloc, DOM.setTimeout. cbv zeta.
  destruct (resizeTimeout (svc w)); cbn; repeat split; reflexivity.
Qed.

Lemma running_debouncedOnResize (w : World) :
  running w = true -> running (debouncedOnResize w) = true.
Proof.
  intro H. apply running_inv in H.
  destruct H as (Hr & [m Hl] & [k Hf] & Hn & Ht).
  destruct (debouncedOnResize_effect w)
    as (Er & El & Ef & Ea & Ert & Ent & Ets & _).
  apply (running_intro _ m k).
  - rewrite Er. exact Hr.
  - rewrite El. exact Hl.
  - rewrite Ef, Ea. exact Hf.
  - rewrite Ea. exact Hn.
  - right. exists (S (DOM.nextTimer (wnd w))), (DOM.nextFn (wnd w)), 150.
    rewrite Ert, Ent. split; [| split; [reflexivity | lia]].
    rewrite Ets.
    destruct Ht as [[Ht Hle] | (id & j & d & Ht & Hrt & Hle)].
    + destruct (resizeTimeout (svc w)); simpl; rewrite Ht; reflexivity.
    + rewrite Hrt. simpl. rewrite Ht. simpl. rewrite Nat.eqb_refl.
      reflexivity.
Qed.

Section RunningSteps.

Variable Math_PI : Q.
Variables Math_cos Math_sin : Q -> Q.
Variable random : N -> Q.
Variable ctor_draws : THREE.Class -> N.

(** What [animate] never touches. *)
Lemma animate_keeps (now time : Q) (w : World) :
  let w' := animate Math_sin now time w in
  ready w' = ready w
  /\ resizeTimeout (svc w') = resizeTimeout (svc w)
  /\ lastMouseMoveTime (svc w') = lastMouseMoveTime (svc w)
  /\ progress (svc w') = progress (svc w)
  /\ mouseX (svc w') = mouseX (svc w)
  /\ mouseY (svc w') = mouseY (svc w)
  /\ scene (svc w') = scene (svc w)
  /\ option_map THREE.geometry (particlesMesh (svc w'))
     = option_map THREE.geometry (particlesMesh (svc w))
  /\ option_map THREE.material (particlesMesh (svc w'))
     = option_map THREE.material (particlesMesh (svc w))
  /\ outputSize w' = outputSize w
  /\ cameraAspect w' = cameraAspect w
  /\ rng w' = rng w.
Proof.
  destruct w as [[cv rd sc cam mesh fid pr mx my cur tgt rt lm th] wn k].
  unfold ready, outputSize, cameraAspect.
  unfold animate, DOM.alloc, DOM.requestAnimationFrame.
  cbn -[fpsInterval F64.round JS.gtb JS.rem targetSpeed].
  destruct (JS.gtb (F64.round (now - th)) fpsInterval);
    [| cbn; repeat split; reflexivity].
  destruct sc, cam, rd, mesh; cbn -[fpsInterval F64.round JS.gtb JS.rem targetSpeed];
    repeat split; reflexivity.
Qed.

Lemma running_animate (now time : Q) (w : World) :
  ready w = true ->
  DOM.frames (wnd w) = [] ->
  (exists m,
      DOM.listeners (wnd w)
      = [(DOM.Resize, DOM.FieldDebouncedOnResize);
         (DOM.MouseMove, DOM.Bound DOM.OnMouseMove m)]) ->
  ((DOM.timers (wnd w) = []
    /\ forall id, resizeTimeout (svc w) = Some id ->
                  (id <= DOM.nextTimer (wnd w))%nat)
   \/ exists id j d,
        DOM.timers (wnd w) = [(id, DOM.ResizeArrow j, d)]
        /\ resizeTimeout (svc w) = Some id
        /\ (id <= DOM.nextTimer (wnd w))%nat) ->
  running (animate Math_sin now time w) = true.
Proof.
  intros Hr Hf [m Hl] Ht.
  destruct (animate_reschedules Math_sin now time w) as [Hid Hw].
  destruct (animate_keeps now time w) as (Er & Ert & _).
  apply (running_intro _ m (DOM.nextFn (wnd w))).
  - rewrite Er. exact Hr.
  - rewrite Hw. exact Hl.
  - rewrite Hw, Hid. simpl. rewrite Hf. reflexivity.
  - rewrite Hid. discriminate.
  - rewrite Hw, Ert. exact Ht.
Qed.

Lemma dispatch_running (inp : Inputs) (w : World) (m : nat) :
  DOM.listeners (wnd w)
  = [(DOM.Resize, DOM.FieldDebouncedOnResize);
     (DOM.MouseMove, DOM.Bound DOM.OnMouseMove m)] ->
  dispatchEvent Math_sin DOM.Resize inp w = debouncedOnResize w
  /\ dispatchEvent Math_sin DOM.MouseMove inp w
     = onMouseMove (in_event inp) (in_now inp) w.
Proof. intro H. unfold dispatchEvent. rewrite H. split; reflexivity. Qed.

Lemma running_set_inner (W H : Z) (w : World) :
  running (upd_wnd (DOM.set_inner W H) w) = running w.
Proof. reflexivity. Qed.

Lemma running_onMouseMove (ev : DOM.MouseEvent) (now : Q) (w : World) :
  running (onMouseMove ev now w) = running w.
Proof. unfold onMouseMove. destruct (JS.ltb _ _); reflexivity. Qed.

Lemma running_onResize (w : World) : running (onResize w) = running w.
Proof.
  unfold running. rewrite onResize_ready, onResize_wnd.
  unfold onResize.
  destruct (camera (svc w)), (renderer (svc w)); reflexivity.
Qed.

(** A timeout that expires in a running service is the stored one and runs
    the resize handler; any other handle is no longer, or not yet, pending. *)
Lemma fireTimer_running (id : nat) (inp : Inputs) (w : World) :
  running w = true ->
  (resizeTimeout (svc w) = Some id /\ DOM.timers (wnd w) <> []
   /\ fireTimer Math_sin id inp w
      = onResize (upd_wnd (DOM.clearTimeout (Some id)) w)
   /\ DOM.timers (wnd (fireTimer Math_sin id inp w)) = [])
  \/ fireTimer Math_sin id inp w = w.
Proof.
  intro H. apply running_inv in H.
  destruct H as (_ & _ & _ & _ & Ht).
  unfold fireTimer.
  destruct Ht as [[Ht _] | (id' & j & d & Ht & Hrt & _)]; rewrite Ht.
  - right. reflexivity.
  - simpl find. destruct (Nat.eqb id' id) eqn:E.
    + apply Nat.eqb_eq in E. subst id'. left.
      split; [exact Hrt |]. split; [discriminate |].
      split; [reflexivity |].
      simpl invoke. rewrite onResize_wnd. simpl. rewrite Ht. simpl.
      rewrite Nat.eqb_refl. reflexivity.
    + right. reflexivity.
Qed.

Lemma running_fireTimer (id : nat) (inp : Inputs) (w : World) :
  running w = true -> running (fireTimer Math_sin id inp w) = true.
Proof.
  intro H. destruct (fireTimer_running id inp w H)
    as [(Hrt & _ & E & _) | E]; rewrite E; [| exact H].
  rewrite running_onResize.
  apply running_inv in H.
  destruct H as (Hr & [m Hl] & [k Hf] & Hn & Ht).
  apply (running_intro _ m k).
  - exact Hr.
  - exact Hl.
  - exact Hf.
  - exact Hn.
  - left. simpl.
    destruct Ht as [[Ht Hle] | (id' & j & d & Ht & Hrt' & Hle)].
    + rewrite Ht. split; [reflexivity | exact Hle].
    + rewrite Ht. rewrite Hrt in Hrt'. inversion Hrt'. subst id'.
      simpl. rewrite Nat.eqb_refl. split; [reflexivity |].
      intros i Hi. rewrite Hrt in Hi. inversion Hi. subst. exact Hle.
Qed.

Lemma runFrames_running (inp : Inputs) (w : World) :
  running w = true ->
  runFrames Math_sin inp w
  = animate Math_sin (in_now inp) (in_time inp)
      (upd_wnd (fun wn => DOM.set_frames [] (DOM.nextFrame wn) wn) w).
Proof.
  intro H. apply running_inv in H.
  destruct H as (_ & _ & [k Hf] & _).
  unfold runFrames. rewrite Hf. reflexivity.
Qed.

Lemma running_runFrames (inp : Inputs) (w : World) :
  running w = true -> running (runFrames Math_sin inp w) = true.
Proof.
  intro H. rewrite (runFrames_running inp w H).
  apply running_inv in H.
  destruct H as (Hr & Hl & _ & _ & Ht).
  apply running_animate.
  - exact Hr.
  - reflexivity.
  - exact Hl.
  - exact Ht.
Qed.

(** Every action but [init] and [destroy] keeps a running service running. *)
Lemma running_step (a : Action) (w : World) :
  keeps_running a = true ->
  running w = true ->
  running (step Math_PI Math_cos Math_sin random ctor_draws a w) = true.
Proof.
  intros Ha H. destruct a; try discriminate Ha; simpl step.
  - exact H.
  - pose proof H as H'. rewrite <- (running_set_inner W H0) in H'.
    apply running_inv in H. destruct H as (_ & [m Hl] & _).
    destruct (dispatch_running inp (upd_wnd (DOM.set_inner W H0) w) m Hl)
      as [E _].
    rewrite E. apply running_debouncedOnResize. exact H'.
  - pose proof H as H'.
    apply running_inv in H. destruct H as (_ & [m Hl] & _).
    destruct (dispatch_running inp w m Hl) as [_ E].
    rewrite E, running_onMouseMove. exact H'.
  - apply running_fireTimer. exact H.
  - apply running_runFrames. exact H.
Qed.

Lemma running_run (acts : list Action) (w : World) :
  forallb keeps_running acts = true ->
  running w = true ->
  running (run Math_PI Math_cos Math_sin random ctor_draws acts w) = true.
Proof.
  revert w. induction acts as [| a acts IH]; intros w Ha H; [exact H |].
  simpl in Ha. apply andb_true_iff in Ha. destruct Ha as [Ha Hs].
  unfold run. simpl fold_left.
  apply IH; [exact Hs |]. apply running_step; assumption.
Qed.

End RunningSteps.

Section InitFrames.

Variable Math_PI : Q.
Variables Math_cos Math_sin : Q -> Q.
Variable random : N -> Q.
Variable ctor_draws : THREE.Class -> N.

Lemma createGalaxySystem_keeps (w : World) :
  let w' := createGalaxySystem Math_PI Math_cos Math_sin random ctor_draws w in
  resizeTimeout (svc w') = resizeTimeout (svc w)
  /\ animationFrameId (svc w') = animationFrameId (svc w)
  /\ lastMouseMoveTime (svc w') = lastMouseMoveTime (svc w)
  /\ progress (svc w') = progress (svc w)
  /\ mouseX (svc w') = mouseX (svc w)
  /\ mouseY (svc w') = mouseY (svc w)
  /\ camera (svc w') = camera (svc w)
  /\ renderer (svc w') = renderer (svc w)
  /\ canvas (svc w') = canvas (svc w).
Proof.
  unfold createGalaxySystem. destruct (scene (svc w));
    [| repeat split; reflexivity].
  destruct (galaxyLoop _ _ _ _ _ _ _ _). cbv zeta. repeat split; reflexivity.
Qed.

Lemma onResize_keeps (w : World) :
  let w' := onResize w in
  resizeTimeout (svc w') = resizeTimeout (svc w)
  /\ animationFrameId (svc w') = animationFrameId (svc w)
  /\ lastMouseMoveTime (svc w') = lastMouseMoveTime (svc w)
  /\ progress (svc w') = progress (svc w)
  /\ mouseX (svc w') = mouseX (svc w)
  /\ mouseY (svc w') = mouseY (svc w)
  /\ scene (svc w') = scene (svc w)
  /\ particlesMesh (svc w') = particlesMesh (svc w)
  /\ rng w' = rng w.
Proof.
  unfold onResize. destruct (camera (svc w)), (renderer (svc w));
    repeat split; reflexivity.
Qed.

Lemma rescheduled_wnd (w : World) : wnd (rescheduled w) = request_frame (wnd w).
Proof. reflexivity. Qed.

(** The window after [init] depends on the window before it only. *)
Lemma init_wnd (c : nat) (now anow atime : Q) (w : World) :
  wnd (init Math_PI Math_cos Math_sin random ctor_draws c now anow atime w)
  = init_window (wnd w).
Proof.
  unfold init. cbv zeta.
  destruct (animate_reschedules Math_sin anow atime
              (upd_svc (set_then now)
                 (onResize (init_listeners
                    (createGalaxySystem Math_PI Math_cos Math_sin random ctor_draws
                       (init_setup ctor_draws c w)))))) as [_ Hw].
  rewrite Hw, rescheduled_wnd, upd_svc_wnd, onResize_wnd,
    init_listeners_wnd, createGalaxySystem_wnd, init_setup_wnd.
  reflexivity.
Qed.

Lemma request_frame_nextFrame (wn : DOM.Window) :
  DOM.nextFrame (request_frame wn) = S (DOM.nextFrame wn).
Proof. reflexivity. Qed.

Lemma addEventListener_keeps_queues (ty : DOM.EventType) (fn : DOM.FnRef)
      (wn : DOM.Window) :
  DOM.frames (DOM.addEventListener ty fn wn) = DOM.frames wn
  /\ DOM.timers (DOM.addEventListener ty fn wn) = DOM.timers wn
  /\ DOM.nextFrame (DOM.addEventListener ty fn wn) = DOM.nextFrame wn
  /\ DOM.nextTimer (DOM.addEventListener ty fn wn) = DOM.nextTimer wn.
Proof.
  unfold DOM.addEventListener. destruct (existsb _ _); repeat split; reflexivity.
Qed.

Lemma set_then_keeps (v : Q) (w : World) :
  resizeTimeout (svc (upd_svc (set_then v) w)) = resizeTimeout (svc w)
  /\ animationFrameId (svc (upd_svc (set_then v) w))
     = animationFrameId (svc w).
Proof. split; reflexivity. Qed.

Lemma init_listeners_svc (w : World) : svc (init_listeners w) = svc w.
Proof. reflexivity. Qed.

(** [init] leaves the stored timeout handle alone and stores the handle of
    the frame it requested. *)
Lemma init_handles (c : nat) (now anow atime : Q) (w : World) :
  resizeTimeout
    (svc (init Math_PI Math_cos Math_sin random ctor_draws c now anow atime w))
  = resizeTimeout (svc w)
  /\ animationFrameId
       (svc (init Math_PI Math_cos Math_sin random ctor_draws c now anow atime w))
     = S (DOM.nextFrame (wnd w)).
Proof.
  split.
  - unfold init. cbv zeta.
    rewrite (proj1 (proj2 (animate_keeps Math_sin anow atime _))).
    rewrite (proj1 (set_then_keeps now _)).
    rewrite (proj1 (onResize_keeps _)).
    rewrite init_listeners_svc.
    rewrite (proj1 (createGalaxySystem_keeps _)). reflexivity.
  - pose proof (init_wnd c now anow atime w) as Hw.
    unfold init in *. cbv zeta in *.
    destruct (animate_reschedules Math_sin anow atime
                (upd_svc (set_then now)
                   (onResize (init_listeners
                      (createGalaxySystem Math_PI Math_cos Math_sin random ctor_draws
                         (init_setup ctor_draws c w)))))) as [Hid _].
    rewrite Hid, upd_svc_wnd, onResize_wnd, init_listeners_wnd,
      createGalaxySystem_wnd, init_setup_wnd.
    destruct (addEventListener_keeps_queues DOM.MouseMove
                (DOM.Bound DOM.OnMouseMove (DOM.nextFn (wnd w)))
                (DOM.set_nextFn (S (DOM.nextFn (wnd w)))
                   (DOM.addEventListener DOM.Resize
                      DOM.FieldDebouncedOnResize (wnd w))))
      as (_ & _ & E1 & _).
    rewrite E1. simpl.
    apply f_equal.
    apply (addEventListener_keeps_queues DOM.Resize
             DOM.FieldDebouncedOnResize (wnd w)).
Qed.

(** [init] on a service that never ran, in a window where nothing is
    registered or pending, starts a running service. *)
Lemma init_running (c : nat) (now anow atime : Q) (w : World) :
  resizeTimeout (svc w) = None ->
  DOM.listeners (wnd w) = [] ->
  DOM.frames (wnd w) = [] ->
  DOM.timers (wnd w) = [] ->
  running (init Math_PI Math_cos Math_sin random ctor_draws c now anow atime w) = true.
Proof.
  intros Hrt Hl Hf Ht.
  destruct (init_handles c now anow atime w) as [Ert Eid].
  pose proof (init_wnd c now anow atime w) as Ew.
  pose proof (init_ready Math_PI Math_cos Math_sin random ctor_draws c now anow atime w)
    as Er.
  revert Ert Eid Ew Er.
  generalize (init Math_PI Math_cos Math_sin random ctor_draws c now anow atime w).
  intros v Ert Eid Ew Er.
  assert (Ewn : init_window (wnd w)
                = DOM.mkWindow (DOM.innerWidth (wnd w))
                    (DOM.innerHeight (wnd w))
                    (DOM.devicePixelRatio (wnd w)) (DOM.context2d (wnd w))
                    [(DOM.Resize, DOM.FieldDebouncedOnResize);
                     (DOM.MouseMove,
                      DOM.Bound DOM.OnMouseMove (DOM.nextFn (wnd w)))]
                    []
                    [(S (DOM.nextFrame (wnd w)),
                      DOM.Bound DOM.Animate (S (DOM.nextFn (wnd w))))]
                    (DOM.nextTimer (wnd w)) (S (DOM.nextFrame (wnd w)))
                    (S (S (DOM.nextFn (wnd w))))).
  { destruct (wnd w) as [iw ih dpr ctx ls ts fs nt nfr nfn].
    simpl in Hl, Hf, Ht. subst ls fs ts. reflexivity. }
  rewrite Ewn in Ew.
  apply (running_intro v (DOM.nextFn (wnd w)) (S (DOM.nextFn (wnd w)))).
  - exact Er.
  - rewrite Ew. reflexivity.
  - rewrite Ew, Eid. reflexivity.
  - rewrite Eid. discriminate.
  - left. rewrite Ew, Ert, Hrt. split; [reflexivity |]. discriminate.
Qed.

End InitFrames.

(** ** Shutting down *)

Lemma set_frames_nil (wn : DOM.Window) :
  DOM.frames wn = [] -> DOM.set_frames [] (DOM.nextFrame wn) wn = wn.
Proof. destruct wn. simpl. intros ->. reflexivity. Qed.

(** With no frame and no timeout pending and only a mouse listener left,
    neither a display refresh, nor an expiring timeout, nor a resize event
    reaches the service. *)
Lemma quiet_window (Math_sin : Q -> Q) (w : World) (m : nat) :
  DOM.frames (wnd w) = [] ->
  DOM.timers (wnd w) = [] ->
  DOM.listeners (wnd w) = [(DOM.MouseMove, DOM.Bound DOM.OnMouseMove m)] ->
  forall (inp : Inputs) (id : nat),
    runFrames Math_sin inp w = w
    /\ fireTimer Math_sin id inp w = w
    /\ dispatchEvent Math_sin DOM.Resize inp w = w.
Proof.
  intros Hf Ht Hl inp id. split; [| split].
  - unfold runFrames. rewrite Hf. simpl. destruct w as [s wn k].
    unfold upd_wnd. simpl in *. rewrite (set_frames_nil wn Hf). reflexivity.
  - unfold fireTimer. rewrite Ht. reflexivity.
  - unfold dispatchEvent. rewrite Hl. reflexivity.
Qed.

Lemma destroy_running (w : World) :
  running w = true ->
  DOM.frames (wnd (destroy w)) = []
  /\ DOM.timers (wnd (destroy w)) = []
  /\ (exists m,
        DOM.listeners (wnd (destroy w))
        = [(DOM.MouseMove, DOM.Bound DOM.OnMouseMove m)])
  /\ (exists rd,
        renderer (svc (destroy w)) = Some rd /\ THREE.disposed rd = true)
  /\ draws (destroy w) = draws w.
Proof.
  intro H. apply running_inv in H.
  destruct H as (Hr & [m Hl] & [k Hf] & Hn & Ht).
  apply Nat.eqb_neq in Hn.
  unfold ready in Hr. unfold draws.
  destruct w as [[cv rd sc cam mesh fid pr mx my cur tgt rt lm th]
                 [iw ih dpr ctx ls ts fs nt nfr nfn] r].
  simpl in *. subst ls fs.
  destruct sc, cam, rd as [rd |], mesh; try discriminate Hr.
  unfold destroy. cbn. rewrite Hn.
  destruct Ht as [[-> _] | (id & j & d & -> & -> & _)].
  - destruct rt; cbn; rewrite Nat.eqb_refl; cbn; repeat split; eauto.
  - cbn. rewrite !Nat.eqb_refl. cbn. repeat split; eauto.
Qed.

(** X3.  A service initialised once in a window of its own and then driven
    by any calls and events other than [init] and [destroy]: [destroy]
    leaves no animation frame and no timeout pending, takes the resize
    listener away and disposes of the renderer.  From then on a display
    refresh, an expiring timeout and a resize event leave the world as it
    is; the one listener left is the bound mouse handler. *)
Theorem destroy_quiesces :
  forall (Math_PI : Q) (Math_cos Math_sin : Q -> Q) (random : N -> Q)
         (ctor_draws : THREE.Class -> N)
         (c : nat) (now anow atime : Q) (W H : Z) (dpr : Q) (ctx : bool)
         (acts : list Action),
    forallb keeps_running acts = true ->
    let w :=
      run Math_PI Math_cos Math_sin random ctor_draws acts
        (init Math_PI Math_cos Math_sin random ctor_draws c now anow atime
           (new_World (DOM.fresh W H dpr ctx))) in
    DOM.frames (wnd (destroy w)) = []
    /\ DOM.timers (wnd (destroy w)) = []
    /\ (exists m,
          DOM.listeners (wnd (destroy w))
          = [(DOM.MouseMove, DOM.Bound DOM.OnMouseMove m)])
    /\ (exists rd,
          renderer (svc (destroy w)) = Some rd /\ THREE.disposed rd = true)
    /\ forall (inp : Inputs) (id : nat),
         runFrames Math_sin inp (destroy w) = destroy w
         /\ fireTimer Math_sin id inp (destroy w) = destroy w
         /\ dispatchEvent Math_sin DOM.Resize inp (destroy w) = destroy w.
Proof.
  intros Math_PI Math_cos Math_sin random ctor_draws c now anow atime W H dpr ctx acts
         Ha w.
  assert (Hrun : running w = true).
  { unfold w. apply running_run; [exact Ha |].
    apply init_running; reflexivity. }
  destruct (destroy_running w Hrun) as (Hf & Ht & [m Hl] & Hd & _).
  split; [exact Hf |]. split; [exact Ht |].
  split; [exists m; exact Hl |]. split; [exact Hd |].
  apply (quiet_window Math_sin (destroy w) m Hf Ht Hl).
Qed.

Lemma destroy_quiesces_witness :
  DOM.frames
    (wnd (destroy
            (run 3 flat flat sample_random sample_draws
               [SetProgress 50;
                Refreshed (mkInputs (DOM.mkMouseEvent 0 0) 1034 1034);
                WindowResized 800 600
                  (mkInputs (DOM.mkMouseEvent 0 0) 1040 1040);
                MouseMoved (mkInputs (DOM.mkMouseEvent 400 300) 1050 1050)]
               (init 3 flat flat sample_random sample_draws 7 1000 1000 1000
                  (new_World (DOM.fresh 1280 720 1 true))))))
  = [].
Proof.
  apply (destroy_quiesces 3 flat flat sample_random sample_draws 7 1000 1000 1000
           1280 720 1 true).
  reflexivity.
Defined.

(** ** The debounce of resize events *)

Lemma onResize_output (w : World) :
  ready w = true ->
  outputSize (onResize w)
  = (Z.min (DOM.innerWidth (wnd w)) MAX_WIDTH,
     Z.min (DOM.innerHeight (wnd w)) MAX_HEIGHT)
  /\ cameraAspect (onResize w)
     = inject_Z (Z.min (DOM.innerWidth (wnd w)) MAX_WIDTH)
       / inject_Z (Z.min (DOM.innerHeight (wnd w)) MAX_HEIGHT).
Proof.
  unfold ready, onResize, outputSize, cameraAspect.
  destruct (scene (svc w)), (camera (svc w)), (renderer (svc w)),
    (particlesMesh (svc w)); try discriminate.
  intros _. split; reflexivity.
Qed.

Section Debounce.

Variable Math_PI : Q.
Variables Math_cos Math_sin : Q -> Q.
Variable random : N -> Q.
Variable ctor_draws : THREE.Class -> N.

Lemma run_cons (a : Action) (acts : list Action) (w : World) :
  run Math_PI Math_cos Math_sin random ctor_draws (a :: acts) w
  = run Math_PI Math_cos Math_sin random ctor_draws acts
      (step Math_PI Math_cos Math_sin random ctor_draws a w).
Proof. reflexivity. Qed.

Lemma run_app (acts acts' : list Action) (w : World) :
  run Math_PI Math_cos Math_sin random ctor_draws (acts ++ acts') w
  = run Math_PI Math_cos Math_sin random ctor_draws acts'
      (run Math_PI Math_cos Math_sin random ctor_draws acts w).
Proof. unfold run. apply fold_left_app. Qed.

Lemma resized_step (W H : Z) (inp : Inputs) (w : World) :
  running w = true ->
  step Math_PI Math_cos Math_sin random ctor_draws (WindowResized W H inp) w
  = debouncedOnResize (upd_wnd (DOM.set_inner W H) w).
Proof.
  intro Hr. rewrite <- (running_set_inner W H) in Hr.
  apply running_inv in Hr. destruct Hr as (_ & [m Hl] & _).
  simpl step.
  apply (dispatch_running Math_sin inp (upd_wnd (DOM.set_inner W H) w) m Hl).
Qed.

(** A burst of resize events leaves the service running and the output
    surface and the camera as they were. *)
Lemma burst_keeps (es : list (Z * Z * Inputs)) :
  forall w : World,
    running w = true ->
    let w' := run Math_PI Math_cos Math_sin random ctor_draws (map resized es) w in
    running w' = true
    /\ outputSize w' = outputSize w
    /\ cameraAspect w' = cameraAspect w.
Proof.
  induction es as [| [[W H] inp] es IH]; intros w Hr; cbv zeta.
  - auto.
  - simpl map. rewrite run_cons.
    change (resized (W, H, inp)) with (WindowResized W H inp).
    rewrite (resized_step W H inp w Hr).
    assert (Hr' : running (debouncedOnResize (upd_wnd (DOM.set_inner W H) w))
                  = true).
    { apply running_debouncedOnResize. rewrite running_set_inner. exact Hr. }
    destruct (IH _ Hr') as (R & S & A).
    destruct (debouncedOnResize_effect (upd_wnd (DOM.set_inner W H) w))
      as (_ & _ & _ & _ & _ & _ & _ & Es & Ea & _).
    split; [exact R |].
    split; [rewrite S, Es | rewrite A, Ea]; reflexivity.
Qed.

End Debounce.

(** X4.  The debounce.  In a running service any burst of resize events
    changes neither the output surface nor the camera; it leaves exactly one
    timeout pending, of 150 ms, armed by the last event.  When that timeout
    expires the resize handler runs once, for the size the window has then;
    every other handle, those of the superseded timeouts included, is dead:
    its expiry changes nothing. *)
Theorem resize_debounced :
  forall (Math_PI : Q) (Math_cos Math_sin : Q -> Q) (random : N -> Q)
         (ctor_draws : THREE.Class -> N)
         (w : World) (es : list (Z * Z * Inputs)) (W H : Z)
         (inp inp' : Inputs),
    running w = true ->
    let w1 :=
      run Math_PI Math_cos Math_sin random ctor_draws
        (map resized es ++ [WindowResized W H inp]) w in
    outputSize w1 = outputSize w
    /\ cameraAspect w1 = cameraAspect w
    /\ exists id j,
         DOM.timers (wnd w1) = [(id, DOM.ResizeArrow j, 150)]
         /\ resizeTimeout (svc w1) = Some id
         /\ outputSize (fireTimer Math_sin id inp' w1)
            = (Z.min W 1920, Z.min H 1080)
         /\ DOM.timers (wnd (fireTimer Math_sin id inp' w1)) = []
         /\ forall id', id' <> id -> fireTimer Math_sin id' inp' w1 = w1.
Proof.
  intros Math_PI Math_cos Math_sin random ctor_draws w es W H inp inp' Hr w1.
  destruct (burst_keeps Math_PI Math_cos Math_sin random ctor_draws es w Hr)
    as (R0 & S0 & A0).
  set (w0 := run Math_PI Math_cos Math_sin random ctor_draws (map resized es) w) in *.
  assert (E1 : w1 = debouncedOnResize (upd_wnd (DOM.set_inner W H) w0)).
  { unfold w1. rewrite run_app, run_cons. fold w0.
    rewrite (resized_step Math_PI Math_cos Math_sin random ctor_draws W H inp w0 R0).
    reflexivity. }
  set (v := upd_wnd (DOM.set_inner W H) w0) in *.
  assert (Rv : running v = true)
    by (unfold v; rewrite running_set_inner; exact R0).
  assert (Sv : outputSize v = outputSize w) by exact S0.
  assert (Av : cameraAspect v = cameraAspect w) by exact A0.
  assert (Wv : DOM.innerWidth (wnd v) = W) by reflexivity.
  assert (Hv : DOM.innerHeight (wnd v) = H) by reflexivity.
  clearbody w1 v. clear w0 R0 S0 A0. subst w1.
  destruct (debouncedOnResize_effect v)
    as (Er & _ & _ & _ & Ert & _ & Ets & Es & Ea & Ew & Eh).
  assert (R1 : running (debouncedOnResize v) = true)
    by (apply running_debouncedOnResize; exact Rv).
  split; [rewrite Es; exact Sv |].
  split; [rewrite Ea; exact Av |].
  assert (Hts : DOM.timers (wnd (debouncedOnResize v))
                = [(S (DOM.nextTimer (wnd v)),
                    DOM.ResizeArrow (DOM.nextFn (wnd v)), 150)]).
  { rewrite Ets. apply running_inv in Rv.
    destruct Rv as (_ & _ & _ & _ & Ht).
    destruct Ht as [[Ht _] | (id & j & d & Ht & Hrt & _)].
    - destruct (resizeTimeout (svc v)); simpl; rewrite Ht; reflexivity.
    - rewrite Hrt. simpl. rewrite Ht. simpl. rewrite Nat.eqb_refl.
      reflexivity. }
  revert Er Ert Es Ea Ew Eh R1 Hts.
  generalize (debouncedOnResize v). intros w1 Er Ert Es Ea Ew Eh R1 Hts.
  exists (S (DOM.nextTimer (wnd v))), (DOM.nextFn (wnd v)).
  split; [exact Hts |]. split; [exact Ert |].
  assert (Hfire : fireTimer Math_sin (S (DOM.nextTimer (wnd v))) inp' w1
                  = onResize
                      (upd_wnd
                         (DOM.clearTimeout (Some (S (DOM.nextTimer (wnd v)))))
                         w1)).
  { unfold fireTimer. rewrite Hts. simpl find. rewrite Nat.eqb_refl.
    reflexivity. }
  split; [| split].
  - rewrite Hfire.
    assert (Hrd : ready (upd_wnd
                           (DOM.clearTimeout
                              (Some (S (DOM.nextTimer (wnd v))))) w1) = true).
    { change (ready w1 = true). apply running_inv in R1. apply R1. }
    rewrite (proj1 (onResize_output _ Hrd)).
    change (DOM.innerWidth
              (wnd (upd_wnd
                      (DOM.clearTimeout (Some (S (DOM.nextTimer (wnd v)))))
                      w1)))
      with (DOM.innerWidth (wnd w1)).
    change (DOM.innerHeight
              (wnd (upd_wnd
                      (DOM.clearTimeout (Some (S (DOM.nextTimer (wnd v)))))
                      w1)))
      with (DOM.innerHeight (wnd w1)).
    rewrite Ew, Eh, Wv, Hv. reflexivity.
  - rewrite Hfire, onResize_wnd. simpl. rewrite Hts. simpl.
    rewrite Nat.eqb_refl. reflexivity.
  - intros id' Hne. unfold fireTimer. rewrite Hts. cbn [find fst].
    destruct (Nat.eqb (S (DOM.nextTimer (wnd v))) id') eqn:E;
      [| reflexivity].
    apply Nat.eqb_eq in E. congruence.
Qed.

Lemma resize_debounced_witness :
  let w1 :=
    run 3 flat flat sample_random sample_draws
      (map resized
         [(1000%Z, 700%Z, mkInputs (DOM.mkMouseEvent 0 0) 2000 2000);
          (1600%Z, 900%Z, mkInputs (DOM.mkMouseEvent 0 0) 2010 2010)]
       ++ [WindowResized 2560 1440
             (mkInputs (DOM.mkMouseEvent 0 0) 2020 2020)])
      booted in
  outputSize w1 = outputSize booted.
Proof.
  cbv zeta.
  apply (resize_debounced 3 flat flat sample_random sample_draws booted
           [(1000%Z, 700%Z, mkInputs (DOM.mkMouseEvent 0 0) 2000 2000);
            (1600%Z, 900%Z, mkInputs (DOM.mkMouseEvent 0 0) 2010 2010)]
           2560 1440 (mkInputs (DOM.mkMouseEvent 0 0) 2020 2020)
           (mkInputs (DOM.mkMouseEvent 0 0) 2200 2200)).
  vm_compute. reflexivity.
Defined.

(** ** Initialising twice *)

Lemma destroy_ready (w : World) : ready (destroy w) = ready w.
Proof.
  unfold destroy, ready. cbn.
  destruct (renderer (svc w)) eqn:E; cbn; rewrite ?E; reflexivity.
Qed.

Lemma destroy_then (w : World) : then_ (svc (destroy w)) = then_ (svc w).
Proof. unfold destroy. cbn. destruct (renderer (svc w)); reflexivity. Qed.

(** X5.  [init] called twice without a [destroy] in between, on a new
    service in a window of its own: the resize listener is registered once
    (the same function object), but there are two bound mouse listeners and
    two pending animation frames.  [destroy] then cancels only the frame
    whose handle is stored, the second: the first loop stays pending and,
    at the next display refresh past one interval, still draws, on the
    disposed renderer. *)
Theorem second_init_leaks_a_loop :
  forall (Math_PI : Q) (Math_cos Math_sin : Q -> Q) (random : N -> Q)
         (ctor_draws : THREE.Class -> N)
         (c c' : nat) (now anow atime now' anow' atime' : Q)
         (W H : Z) (dpr : Q) (ctx : bool),
    let w1 :=
      init Math_PI Math_cos Math_sin random ctor_draws c now anow atime
        (new_World (DOM.fresh W H dpr ctx)) in
    let w2 := init Math_PI Math_cos Math_sin random ctor_draws c' now' anow' atime' w1 in
    DOM.listeners (wnd w2)
    = [(DOM.Resize, DOM.FieldDebouncedOnResize);
       (DOM.MouseMove, DOM.Bound DOM.OnMouseMove 0);
       (DOM.MouseMove, DOM.Bound DOM.OnMouseMove 2)]
    /\ DOM.frames (wnd w2)
       = [(1%nat, DOM.Bound DOM.Animate 1); (2%nat, DOM.Bound DOM.Animate 3)]
    /\ animationFrameId (svc w2) = 2%nat
    /\ DOM.frames (wnd (destroy w2)) = [(1%nat, DOM.Bound DOM.Animate 1)]
    /\ DOM.listeners (wnd (destroy w2))
       = [(DOM.MouseMove, DOM.Bound DOM.OnMouseMove 0);
          (DOM.MouseMove, DOM.Bound DOM.OnMouseMove 2)]
    /\ (exists rd,
          renderer (svc (destroy w2)) = Some rd /\ THREE.disposed rd = true)
    /\ forall inp : Inputs,
         fpsInterval < elapsed (in_now inp) (destroy w2) ->
         draws (runFrames Math_sin inp (destroy w2))
         = S (draws (destroy w2)).
Proof.
  intros Math_PI Math_cos Math_sin random ctor_draws c c' now anow atime
         now' anow' atime' W H dpr ctx w1 w2.
  pose proof (init_wnd Math_PI Math_cos Math_sin random ctor_draws c now anow atime
                (new_World (DOM.fresh W H dpr ctx))) as Ew1.
  fold w1 in Ew1.
  pose proof (init_wnd Math_PI Math_cos Math_sin random ctor_draws c' now' anow' atime'
                w1) as Ew2.
  fold w2 in Ew2. rewrite Ew1 in Ew2.
  destruct (init_handles Math_PI Math_cos Math_sin random ctor_draws c now anow atime
              (new_World (DOM.fresh W H dpr ctx))) as [Ert1 _].
  fold w1 in Ert1.
  destruct (init_handles Math_PI Math_cos Math_sin random ctor_draws c' now' anow' atime'
              w1) as [Ert2 Eid2].
  fold w2 in Ert2, Eid2. rewrite Ert1 in Ert2. rewrite Ew1 in Eid2.
  pose proof (init_ready Math_PI Math_cos Math_sin random ctor_draws c' now' anow' atime'
                w1) as Er2.
  fold w2 in Er2.
  clearbody w2. clear Ew1 Ert1. clearbody w1.
  cbn in Ew2, Eid2, Ert2.
  split; [rewrite Ew2; reflexivity |].
  split; [rewrite Ew2; reflexivity |].
  split; [exact Eid2 |].
  assert (Ed : wnd (destroy w2)
               = DOM.mkWindow W H dpr ctx
                   [(DOM.MouseMove, DOM.Bound DOM.OnMouseMove 0);
                    (DOM.MouseMove, DOM.Bound DOM.OnMouseMove 2)]
                   [] [(1%nat, DOM.Bound DOM.Animate 1)] 0 2 4).
  { unfold destroy. cbn. rewrite Eid2, Ert2, Ew2. reflexivity. }
  split; [rewrite Ed; reflexivity |].
  split; [rewrite Ed; reflexivity |].
  assert (Hrd : ready (destroy w2) = true)
    by (rewrite destroy_ready; exact Er2).
  split.
  { unfold ready in Er2. unfold destroy. cbn.
    destruct (scene (svc w2)), (camera (svc w2)), (renderer (svc w2)) as [rd |],
      (particlesMesh (svc w2)); try discriminate Er2.
    exists (THREE.dispose rd). split; reflexivity. }
  intros inp Hg.
  revert Ed Hrd Hg. generalize (destroy w2). intros v Ed Hrd Hg.
  unfold runFrames. rewrite Ed. cbn [DOM.frames fold_left snd invoke].
  set (v0 := upd_wnd _ v).
  assert (Hrd0 : ready v0 = true) by exact Hrd.
  assert (Hg0 : fpsInterval < elapsed (in_now inp) v0) by exact Hg.
  destruct (animate_open_work Math_sin (in_now inp) (in_time inp) v0 Hg0 Hrd0)
    as (_ & _ & Hd & _).
  rewrite Hd. reflexivity.
Qed.

(** ** Repeating [destroy] and [onResize] *)

Lemma filter_twice {A : Type} (p q : A -> bool) (l : list A) :
  filter p (filter q (filter p (filter q l))) = filter p (filter q l).
Proof.
  induction l as [| a l IH]; [reflexivity |].
  simpl. destruct (q a) eqn:Eq; simpl; [| exact IH].
  destruct (p a) eqn:Ep; simpl; [| exact IH].
  rewrite Eq. simpl. rewrite Ep. rewrite IH. reflexivity.
Qed.

Lemma filter_idem {A : Type} (p : A -> bool) (l : list A) :
  filter p (filter p l) = filter p l.
Proof.
  induction l as [| a l IH]; [reflexivity |].
  simpl. destruct (p a) eqn:Ep; simpl; rewrite ?Ep, IH; reflexivity.
Qed.

Lemma destroy_wnd (w : World) :
  wnd (destroy w)
  = destroy_window (animationFrameId (svc w)) (resizeTimeout (svc w)) (wnd w).
Proof. reflexivity. Qed.

Lemma destroy_window_fields (fid : nat) (rt : option nat) (wn : DOM.Window) :
  DOM.listeners (destroy_window fid rt wn)
  = filter
      (fun l =>
         negb (DOM.Listener_eqb (DOM.MouseMove, DOM.Proto DOM.OnMouseMove) l))
      (filter
         (fun l =>
            negb (DOM.Listener_eqb (DOM.Resize, DOM.FieldDebouncedOnResize) l))
         (DOM.listeners wn))
  /\ DOM.timers (destroy_window fid rt wn)
     = match rt with
       | Some id =>
           filter (fun t => negb (Nat.eqb (fst (fst t)) id)) (DOM.timers wn)
       | None => DOM.timers wn
       end
  /\ DOM.frames (destroy_window fid rt wn)
     = (if negb (Nat.eqb fid 0)
        then filter (fun f => negb (Nat.eqb (fst f) fid)) (DOM.frames wn)
        else DOM.frames wn)
  /\ DOM.innerWidth (destroy_window fid rt wn) = DOM.innerWidth wn
  /\ DOM.innerHeight (destroy_window fid rt wn) = DOM.innerHeight wn
  /\ DOM.devicePixelRatio (destroy_window fid rt wn) = DOM.devicePixelRatio wn
  /\ DOM.context2d (destroy_window fid rt wn) = DOM.context2d wn
  /\ DOM.nextTimer (destroy_window fid rt wn) = DOM.nextTimer wn
  /\ DOM.nextFrame (destroy_window fid rt wn) = DOM.nextFrame wn
  /\ DOM.nextFn (destroy_window fid rt wn) = DOM.nextFn wn.
Proof.
  unfold destroy_window.
  destruct (negb (Nat.eqb fid 0)); destruct rt; repeat split; reflexivity.
Qed.

Lemma window_ext (a b : DOM.Window) :
  DOM.innerWidth a = DOM.innerWidth b ->
  DOM.innerHeight a = DOM.innerHeight b ->
  DOM.devicePixelRatio a = DOM.devicePixelRatio b ->
  DOM.context2d a = DOM.context2d b ->
  DOM.listeners a = DOM.listeners b ->
  DOM.timers a = DOM.timers b ->
  DOM.frames a = DOM.frames b ->
  DOM.nextTimer a = DOM.nextTimer b ->
  DOM.nextFrame a = DOM.nextFrame b ->
  DOM.nextFn a = DOM.nextFn b ->
  a = b.
Proof.
  destruct a, b. simpl. intros. subst. reflexivity.
Qed.

Lemma world_ext (a b : World) :
  svc a = svc b -> wnd a = wnd b -> rng a = rng b -> a = b.
Proof. destruct a, b. simpl. intros. subst. reflexivity. Qed.

Lemma destroy_window_idem (fid : nat) (rt : option nat) (wn : DOM.Window) :
  destroy_window fid rt (destroy_window fid rt wn) = destroy_window fid rt wn.
Proof.
  destruct (destroy_window_fields fid rt (destroy_window fid rt wn))
    as (L2 & T2 & F2 & A2 & B2 & C2 & D2 & E2 & G2 & H2).
  destruct (destroy_window_fields fid rt wn)
    as (L1 & T1 & F1 & A1 & B1 & C1 & D1 & E1 & G1 & H1).
  apply window_ext; try congruence.
  - rewrite L2, L1. apply filter_twice.
  - rewrite T2, T1. destruct rt; [apply filter_idem | reflexivity].
  - rewrite F2, F1. destruct (negb (Nat.eqb fid 0));
      [apply filter_idem | reflexivity].
Qed.

(** X6.  [destroy] is safe to repeat and safe before [init]: a second
    [destroy] changes nothing, and on a service that was never initialised
    [destroy] leaves the service, the random stream and the pending frames
    and timeouts of the window as they are (in a window where nothing is
    registered, the whole world). *)
Theorem destroy_idempotent :
  forall (w : World) (wn : DOM.Window) (W H : Z) (dpr : Q) (ctx : bool),
    destroy (destroy w) = destroy w
    /\ svc (destroy (new_World wn)) = new_ParticleService
    /\ rng (destroy (new_World wn)) = 0%N
    /\ DOM.frames (wnd (destroy (new_World wn))) = DOM.frames wn
    /\ DOM.timers (wnd (destroy (new_World wn))) = DOM.timers wn
    /\ destroy (new_World (DOM.fresh W H dpr ctx))
       = new_World (DOM.fresh W H dpr ctx).
Proof.
  intros w wn W H dpr ctx.
  split; [| repeat split; reflexivity].
  assert (Es : svc (destroy (destroy w)) = svc (destroy w)).
  { unfold destroy. cbv zeta. cbn [svc].
    destruct (renderer (svc w)) as [rd |] eqn:E.
    - cbn [renderer set_renderer]. reflexivity.
    - rewrite E. reflexivity. }
  assert (Ew : wnd (destroy (destroy w)) = wnd (destroy w)).
  { rewrite (destroy_wnd (destroy w)).
    assert (Ef : animationFrameId (svc (destroy w)) = animationFrameId (svc w)
                 /\ resizeTimeout (svc (destroy w)) = resizeTimeout (svc w)).
    { unfold destroy. cbv zeta. cbn [svc].
      destruct (renderer (svc w)); split; reflexivity. }
    destruct Ef as [-> ->]. rewrite (destroy_wnd w).
    apply destroy_window_idem. }
  apply world_ext; [exact Es | exact Ew | reflexivity].
Qed.

(** X7.  The resize handler is idempotent: run twice for the same window it
    leaves what one run leaves.  Without a camera or without a renderer it
    does nothing. *)
Theorem onResize_idempotent :
  forall w : World,
    onResize (onResize w) = onResize w
    /\ (camera (svc w) = None \/ renderer (svc w) = None -> onResize w = w).
Proof.
  intro w. split.
  - destruct w as [[cv rd sc cam mesh fid pr mx my cur tgt rt lm th] wn k].
    unfold onResize. cbn [svc wnd camera renderer].
    destruct cam as [cam |], rd as [rd |]; try reflexivity.
  - unfold onResize. intros [H | H]; rewrite H; [reflexivity |].
    destruct (camera (svc w)); reflexivity.
Qed.

(** ** Camera and renderer along a run *)

Section View.

Variable Math_PI : Q.
Variables Math_cos Math_sin : Q -> Q.
Variable random : N -> Q.
Variable ctor_draws : THREE.Class -> N.

Hypothesis sin_range : forall x, -1 <= Math_sin x /\ Math_sin x <= 1.

Lemma view_animate (now time : Q) (w : World) :
  view_ok w -> view_ok (animate Math_sin now time w).
Proof.
  destruct w as [[cv rd sc cam mesh fid pr mx my cur tgt rt lm th] wn k].
  unfold view_ok, ready, camera_placed.
  unfold animate, DOM.alloc, DOM.requestAnimationFrame.
  cbn -[fpsInterval F64.round JS.gtb JS.rem targetSpeed MAX_WIDTH MAX_HEIGHT].
  destruct (JS.gtb (F64.round (now - th)) fpsInterval);
    [| cbn -[MAX_WIDTH MAX_HEIGHT]; exact (fun H => H)].
  destruct sc, cam as [cam |], rd as [rd |], mesh;
    cbn -[fpsInterval F64.round JS.gtb JS.rem targetSpeed MAX_WIDTH MAX_HEIGHT];
    try exact (fun H => H).
  intros (_ & (F & Nr & Fr & X & Z & _ & _ & _) & P & A & An & W & H & As & Pj).
  destruct (sin_range (time * 0.0005)) as [S0 S1].
  repeat split; first [assumption | reflexivity | lra].
Qed.

Lemma view_onResize (w : World) : view_ok w -> view_ok (onResize w).
Proof.
  destruct w as [[cv rd sc cam mesh fid pr mx my cur tgt rt lm th] wn k].
  unfold view_ok, ready, camera_placed, onResize.
  cbn -[MAX_WIDTH MAX_HEIGHT].
  destruct cam as [cam |], rd as [rd |]; cbn -[MAX_WIDTH MAX_HEIGHT];
    try exact (fun H => H).
  intros (R & (F & Nr & Fr & X & Z & Y0 & Y1 & L) & P & A & An & _).
  rewrite F, Nr, Fr.
  repeat split; first [assumption | reflexivity | apply Z.le_min_r].
Qed.

Lemma view_debouncedOnResize (w : World) :
  view_ok w -> view_ok (debouncedOnResize w).
Proof.
  unfold debouncedOnResize, DOM.alloc, DOM.setTimeout. cbv zeta beta iota.
  exact (fun H => H).
Qed.

Lemma view_onMouseMove (ev : DOM.MouseEvent) (now : Q) (w : World) :
  view_ok w -> view_ok (onMouseMove ev now w).
Proof.
  unfold onMouseMove. destruct (JS.ltb _ _); exact (fun H => H).
Qed.

Lemma view_destroy (w : World) : view_ok w -> view_ok (destroy w).
Proof.
  unfold view_ok, ready, destroy. cbv zeta. simpl svc.
  destruct (camera (svc w)) as [cam |] eqn:Ec,
    (renderer (svc w)) as [rd |] eqn:Er; simpl; rewrite ?Ec, ?Er;
    exact (fun H => H).
Qed.

Lemma view_init (c : nat) (now anow atime : Q) (w : World) :
  view_ok (init Math_PI Math_cos Math_sin random ctor_draws c now anow atime w).
Proof.
  unfold init. cbv zeta. apply view_animate.
  pose (cam0 :=
          THREE.lookAt 0 0 0
            (THREE.set_position (THREE.mkVector3 0 100 400)
               (THREE.set_position (THREE.mkVector3 0 0 400)
                  (THREE.new_PerspectiveCamera 60
                     (inject_Z (DOM.innerWidth (wnd w))
                      / inject_Z (DOM.innerHeight (wnd w))) 0.1 1000)))).
  pose (rd0 :=
          THREE.setPixelRatio (Qmin (DOM.devicePixelRatio (wnd w)) 1.5)
            (THREE.new_WebGLRenderer c true true)).
  assert (Hc : camera (svc (init_setup ctor_draws c w)) = Some cam0) by reflexivity.
  assert (Hd : renderer (svc (init_setup ctor_draws c w)) = Some rd0) by reflexivity.
  assert (Hs : scene (svc (init_setup ctor_draws c w)) = Some THREE.new_Scene)
    by reflexivity.
  pose proof (createGalaxySystem_ready Math_PI Math_cos Math_sin random ctor_draws
                (init_setup ctor_draws c w) THREE.new_Scene cam0 rd0 Hs Hc Hd) as Hr.
  destruct (createGalaxySystem_keeps Math_PI Math_cos Math_sin random ctor_draws
              (init_setup ctor_draws c w))
    as (_ & _ & _ & _ & _ & _ & Ec & Er & _).
  rewrite Hc in Ec. rewrite Hd in Er.
  revert Hr Ec Er.
  generalize (createGalaxySystem Math_PI Math_cos Math_sin random ctor_draws
                (init_setup ctor_draws c w)).
  intros w2 Hr Ec Er.
  destruct w2 as [[cv rd sc cam mesh fid pr mx my cur tgt rt lm th] wn k].
  simpl in Ec, Er. subst cam rd.
  unfold ready in Hr. simpl in Hr.
  destruct sc, mesh; try discriminate.
  unfold view_ok, ready, camera_placed, onResize, init_listeners, DOM.alloc.
  unfold cam0, rd0.
  cbn -[MAX_WIDTH MAX_HEIGHT Qmin].
  repeat split;
    first [reflexivity | apply Z.le_min_r | apply Q.le_min_r | lra].
Qed.

Lemma view_invoke (fn : DOM.FnRef) (inp : Inputs) (w : World) :
  view_ok w -> view_ok (invoke Math_sin fn inp w).
Proof.
  intro H. destruct fn as [| m | [|] j | j]; simpl.
  - apply view_debouncedOnResize. exact H.
  - exact H.
  - apply view_onMouseMove. exact H.
  - apply view_animate. exact H.
  - apply view_onResize. exact H.
Qed.

Lemma view_step (a : Action) (w : World) :
  view_ok w -> view_ok (step Math_PI Math_cos Math_sin random ctor_draws a w).
Proof.
  intro H. destruct a; simpl.
  - apply view_init.
  - exact H.
  - apply view_destroy. exact H.
  - unfold dispatchEvent. apply fold_left_invariant; [| exact H].
    intros acc l Hacc. destruct (DOM.EventType_eqb _ _); [| exact Hacc].
    apply view_invoke. exact Hacc.
  - unfold dispatchEvent. apply fold_left_invariant; [| exact H].
    intros acc l Hacc. destruct (DOM.EventType_eqb _ _); [| exact Hacc].
    apply view_invoke. exact Hacc.
  - unfold fireTimer. destruct (find _ _) as [[[i fn] d] |]; [| exact H].
    apply view_invoke. exact H.
  - unfold runFrames. apply fold_left_invariant; [| exact H].
    intros acc f Hacc. apply view_invoke. exact Hacc.
Qed.

End View.

(** X8.  With a sine that stays in [-1, 1], every state a service reaches
    from its construction, by whatever calls and events, is either without
    any handle (never initialised) or has all four, a camera with the lens
    of [init] (60, 0.1, 1000), standing at x = 0, z = 400 and a height in
    [90, 110], aimed at the origin from there, a renderer with alpha and
    antialiasing, pixel ratio at most 1.5 and surface at most 1920 by 1080,
    and the camera's aspect and projection agree with that surface. *)
Theorem view_invariant :
  forall (Math_PI : Q) (Math_cos Math_sin : Q -> Q) (random : N -> Q)
         (ctor_draws : THREE.Class -> N)
         (acts : list Action) (wn : DOM.Window),
    (forall x, -1 <= Math_sin x /\ Math_sin x <= 1) ->
    view_ok (run Math_PI Math_cos Math_sin random ctor_draws acts (new_World wn)).
Proof.
  intros Math_PI Math_cos Math_sin random ctor_draws acts wn Hsin.
  unfold run. apply fold_left_invariant.
  - intros acc a Hacc. apply view_step; assumption.
  - split; reflexivity.
Qed.

Lemma view_invariant_witness :
  view_ok
    (run 3 flat flat sample_random sample_draws
       [Init 7 1000 1000 1000;
        WindowResized 2560 1440 (mkInputs (DOM.mkMouseEvent 0 0) 1010 1010);
        TimerFired 1 (mkInputs (DOM.mkMouseEvent 0 0) 1160 1160);
        Refreshed (mkInputs (DOM.mkMouseEvent 0 0) 1200 1200);
        Destroy]
       (new_World sample_window)).
Proof.
  apply view_invariant.
  intro x. unfold flat. split; lra.
Defined.

(** ** What only [init] builds *)

Lemma same_cloud_refl (w : World) : same_cloud w w.
Proof. repeat split; reflexivity. Qed.

Lemma same_cloud_trans (a b c : World) :
  same_cloud a b -> same_cloud b c -> same_cloud a c.
Proof.
  intros (A1 & A2 & A3 & A4 & A5) (B1 & B2 & B3 & B4 & B5).
  repeat split; congruence.
Qed.

Section Static.

Variable Math_PI : Q.
Variables Math_cos Math_sin : Q -> Q.
Variable random : N -> Q.
Variable ctor_draws : THREE.Class -> N.

Lemma cloud_animate (now time : Q) (w : World) :
  same_cloud w (animate Math_sin now time w).
Proof.
  destruct w as [[cv rd sc cam mesh fid pr mx my cur tgt rt lm th] wn k].
  unfold same_cloud.
  unfold animate, DOM.alloc, DOM.requestAnimationFrame.
  cbn -[fpsInterval F64.round JS.gtb JS.rem targetSpeed].
  destruct (JS.gtb (F64.round (now - th)) fpsInterval);
    [| cbn; repeat split; reflexivity].
  destruct sc, cam, rd, mesh; cbn -[fpsInterval F64.round JS.gtb JS.rem targetSpeed];
    repeat split; reflexivity.
Qed.

Lemma cloud_onResize (w : World) : same_cloud w (onResize w).
Proof.
  unfold same_cloud, onResize.
  destruct (camera (svc w)), (renderer (svc w)); repeat split; reflexivity.
Qed.

Lemma cloud_onMouseMove (ev : DOM.MouseEvent) (now : Q) (w : World) :
  same_cloud w (onMouseMove ev now w).
Proof.
  unfold same_cloud, onMouseMove.
  destruct (JS.ltb _ _); repeat split; reflexivity.
Qed.

Lemma cloud_debouncedOnResize (w : World) :
  same_cloud w (debouncedOnResize w).
Proof. repeat split; reflexivity. Qed.

Lemma cloud_destroy (w : World) : same_cloud w (destroy w).
Proof.
  unfold same_cloud, destroy. cbv zeta. simpl svc. simpl rng.
  destruct (renderer (svc w)); repeat split; reflexivity.
Qed.

Lemma cloud_invoke (fn : DOM.FnRef) (inp : Inputs) (w : World) :
  same_cloud w (invoke Math_sin fn inp w).
Proof.
  destruct fn as [| m | [|] j | j]; simpl.
  - apply cloud_debouncedOnResize.
  - apply same_cloud_refl.
  - apply cloud_onMouseMove.
  - apply cloud_animate.
  - apply cloud_onResize.
Qed.

Lemma cloud_step (a : Action) (w : World) :
  rebuilds a = false ->
  same_cloud w (step Math_PI Math_cos Math_sin random ctor_draws a w).
Proof.
  intro Ha. destruct a; try discriminate; simpl.
  - repeat split; reflexivity.
  - apply cloud_destroy.
  - unfold dispatchEvent.
    apply (fold_left_invariant (same_cloud w));
      [| repeat split; reflexivity].
    intros acc l Hacc. destruct (DOM.EventType_eqb _ _); [| exact Hacc].
    apply (same_cloud_trans _ _ _ Hacc). apply cloud_invoke.
  - unfold dispatchEvent.
    apply (fold_left_invariant (same_cloud w)); [| apply same_cloud_refl].
    intros acc l Hacc. destruct (DOM.EventType_eqb _ _); [| exact Hacc].
    apply (same_cloud_trans _ _ _ Hacc). apply cloud_invoke.
  - unfold fireTimer. destruct (find _ _) as [[[i fn] d] |];
      [| apply same_cloud_refl].
    apply (same_cloud_trans _ (upd_wnd (DOM.clearTimeout (Some id)) w));
      [repeat split; reflexivity | apply cloud_invoke].
  - unfold runFrames.
    apply (fold_left_invariant (same_cloud w));
      [| repeat split; reflexivity].
    intros acc f Hacc.
    apply (same_cloud_trans _ _ _ Hacc). apply cloud_invoke.
Qed.

End Static.

(** X9.  Only [init] builds the point cloud: over any sequence of calls and
    events without an [init] (progress updates, resizes, mouse moves,
    timers, frames, even [destroy]) the canvas, the scene, the mesh's
    position, colour and size buffers, its material and the position in the
    random stream stay what they were.  Animation only turns the mesh. *)
Theorem cloud_is_static :
  forall (Math_PI : Q) (Math_cos Math_sin : Q -> Q) (random : N -> Q)
         (ctor_draws : THREE.Class -> N)
         (acts : list Action) (w : World),
    forallb (fun a => negb (rebuilds a)) acts = true ->
    same_cloud w (run Math_PI Math_cos Math_sin random ctor_draws acts w).
Proof.
  intros Math_PI Math_cos Math_sin random ctor_draws acts.
  induction acts as [| a acts IH]; intros w Hall.
  - apply same_cloud_refl.
  - simpl in Hall. apply andb_true_iff in Hall. destruct Hall as [Ha Hall].
    apply negb_true_iff in Ha.
    unfold run. simpl fold_left.
    apply (same_cloud_trans _
             (step Math_PI Math_cos Math_sin random ctor_draws a w)).
    + apply cloud_step. exact Ha.
    + apply IH. exact Hall.
Qed.

Lemma cloud_is_static_witness :
  same_cloud booted
    (run 3 flat flat sample_random sample_draws
       [SetProgress 50;
        Refreshed (mkInputs (DOM.mkMouseEvent 0 0) 1034 1034);
        MouseMoved (mkInputs (DOM.mkMouseEvent 400 300) 1050 1050);
        Destroy]
       booted).
Proof.
  apply cloud_is_static. reflexivity.
Defined.

(** ** Smoothing on a slow display *)

Section Smoothing.

Variable Math_sin : Q -> Q.

(** Past one interval and with all handles, the tilt moves a twentieth of
    the way to the target the mouse sets. *)
Lemma animate_open_tilt (now time : Q) (w : World) :
  fpsInterval < elapsed now w ->
  ready w = true ->
  rotationX (animate Math_sin now time w)
  = rotationX w + (mouseY (svc w) * 0.2 - rotationX w) * 0.05
  /\ rotationZ (animate Math_sin now time w)
     = rotationZ w + (mouseX (svc w) * 0.1 - rotationZ w) * 0.05.
Proof.
  unfold elapsed. intros H Hr. apply gtb_true_iff in H.
  destruct w as [[cv rd sc cam mesh fid pr mx my cur tgt rt lm th] wn k].
  unfold ready, rotationX, rotationZ in *.
  unfold animate, DOM.alloc, DOM.requestAnimationFrame.
  cbn -[fpsInterval F64.round JS.gtb JS.rem targetSpeed] in *.
  rewrite H.
  destruct sc, cam, rd, mesh; try discriminate.
  cbn -[fpsInterval F64.round JS.gtb JS.rem targetSpeed].
  split; reflexivity.
Qed.

Lemma callbacks_snoc (times : list Q) (t : Q) (w : World) :
  callbacks Math_sin (times ++ [t]) w
  = animate Math_sin t t (callbacks Math_sin times w).
Proof. unfold callbacks. rewrite fold_left_app. reflexivity. Qed.

Lemma ticks_S (first period : Q) (n : nat) :
  ticks first period (S n)
  = ticks first period n ++ [first + period * inject_Z (Z.of_nat n)].
Proof. unfold ticks. rewrite seq_S, map_app. reflexivity. Qed.

Lemma decay_S (n : nat) :
  0.95 ^ Z.of_nat (S n) == 0.95 * 0.95 ^ Z.of_nat n.
Proof.
  rewrite Nat2Z.inj_succ, <- Z.add_1_l.
  rewrite Qpower_plus by (intro E; discriminate E).
  reflexivity.
Qed.

Lemma inject_Z_S (n : nat) :
  inject_Z (Z.of_nat (S n)) == inject_Z (Z.of_nat n) + 1.
Proof.
  rewrite Nat2Z.inj_succ, <- Z.add_1_r, inject_Z_plus. reflexivity.
Qed.

(** On a display slower than the frame rate cap every callback finds the
    gate open: the timer never passes the clock reading it was re-based
    at, so one period later more than one interval has elapsed. *)
Lemma slow_ticks (first period : Q) (n : nat) (w : World) :
  ready w = true ->
  fpsInterval < elapsed first w ->
  fpsInterval < F64.round period ->
  (forall k, (k < n)%nat ->
     F64.double (first + period * inject_Z (Z.of_nat k))) ->
  let w' := callbacks Math_sin (ticks first period n) w in
  ready w' = true
  /\ fpsInterval < elapsed (first + period * inject_Z (Z.of_nat n)) w'
  /\ progress (svc w') = progress (svc w)
  /\ mouseX (svc w') = mouseX (svc w)
  /\ mouseY (svc w') = mouseY (svc w)
  /\ draws w' = (draws w + n)%nat
  /\ currentRotationSpeed (svc w') - targetSpeed (progress (svc w))
     == 0.95 ^ Z.of_nat n
        * (currentRotationSpeed (svc w) - targetSpeed (progress (svc w)))
  /\ rotationX w' - mouseY (svc w) * 0.2
     == 0.95 ^ Z.of_nat n * (rotationX w - mouseY (svc w) * 0.2)
  /\ rotationZ w' - mouseX (svc w) * 0.1
     == 0.95 ^ Z.of_nat n * (rotationZ w - mouseX (svc w) * 0.1).
Proof.
  intros Hr H0 Hp. cbv zeta.
  induction n as [| n IH]; intro Hdb.
  - unfold ticks, callbacks. simpl fold_left.
    change (0.95 ^ Z.of_nat 0) with 1.
    assert (E0 : elapsed (first + period * inject_Z (Z.of_nat 0)) w
                 = elapsed first w).
    { unfold elapsed. apply round_comp.
      change (inject_Z (Z.of_nat 0)) with 0. ring. }
    rewrite E0.
    repeat split; try reflexivity; try assumption; try lra.
    rewrite Nat.add_0_r. reflexivity.
  - assert (Hdb' : forall k, (k < n)%nat ->
                     F64.double (first + period * inject_Z (Z.of_nat k)))
      by (intros k Hk; apply Hdb; lia).
    destruct (IH Hdb') as (Ir & Ig & Ipr & Imx & Imy & Id & Is & Ix & Iz).
    pose proof (Hdb n (Nat.lt_succ_diag_r n)) as Hdt.
    rewrite ticks_S, callbacks_snoc.
    set (wn := callbacks Math_sin (ticks first period n) w) in *.
    clearbody wn.
    set (t := first + period * inject_Z (Z.of_nat n)) in *.
    destruct (animate_open_work Math_sin t t wn Ig Ir) as (Es & _ & Ed & Er).
    destruct (animate_open_tilt t t wn Ig Ir) as (Ex & Ez).
    destruct (animate_keeps Math_sin t t wn)
      as (_ & _ & _ & Kp & Kx & Ky & _).
    pose proof (animate_open_then Math_sin t t wn Ig) as Et.
    assert (Hle : fpsInterval <= elapsed t wn) by lra.
    destruct (rem_whole _ _ fpsInterval_pos Hle) as (_ & _ & R0 & _).
    split; [exact Er |].
    split.
    { unfold elapsed at 1. rewrite Et.
      set (rm := JS.rem (elapsed t wn) fpsInterval) in *.
      assert (Hb : F64.round (t - rm) <= t).
      { unfold F64.double in Hdt.
        assert (K : t - rm <= t) by lra.
        apply round_mono in K. lra. }
      assert (Ht : t == first + period * inject_Z (Z.of_nat n))
        by reflexivity.
      assert (Hq : period
                   <= first + period * inject_Z (Z.of_nat (S n))
                      - F64.round (t - rm)).
      { rewrite inject_Z_S. clearbody t. lra. }
      apply round_mono in Hq. lra. }
    split; [congruence |]. split; [congruence |]. split; [congruence |].
    split; [rewrite Ed, Id; lia |].
    rewrite decay_S, Es, Ex, Ez, Ipr, Imx, Imy.
    set (p := 0.95 ^ Z.of_nat n) in *.
    repeat split; nra.
Qed.

End Smoothing.

(** X10.  On a display whose refresh period is longer than the interval no
    frame is skipped: n callbacks at clock readings one period apart
    (binary64 numbers, as all clock readings are), the first of which finds
    the gate open, each draw once.  Each closes a twentieth of the gap, so
    after n of them the distance of the rotation speed from its target, and
    of the two tilts from theirs (0.2 times mouseY, 0.1 times mouseX), is
    0.95^n times what it was. *)
Theorem slow_display_converges :
  forall (Math_sin : Q -> Q) (first period : Q) (n : nat) (w : World),
    ready w = true ->
    fpsInterval < elapsed first w ->
    fpsInterval < F64.round period ->
    (forall k, (k < n)%nat ->
       F64.double (first + period * inject_Z (Z.of_nat k))) ->
    draws (callbacks Math_sin (ticks first period n) w) = (draws w + n)%nat
    /\ currentRotationSpeed
         (svc (callbacks Math_sin (ticks first period n) w))
       - targetSpeed (progress (svc w))
       == 0.95 ^ Z.of_nat n
          * (currentRotationSpeed (svc w) - targetSpeed (progress (svc w)))
    /\ rotationX (callbacks Math_sin (ticks first period n) w)
       - mouseY (svc w) * 0.2
       == 0.95 ^ Z.of_nat n * (rotationX w - mouseY (svc w) * 0.2)
    /\ rotationZ (callbacks Math_sin (ticks first period n) w)
       - mouseX (svc w) * 0.1
       == 0.95 ^ Z.of_nat n * (rotationZ w - mouseX (svc w) * 0.1).
Proof.
  intros Math_sin first period n w Hr H0 Hp Hdb.
  destruct (slow_ticks Math_sin first period n w Hr H0 Hp Hdb)
    as (_ & _ & _ & _ & _ & Hd & Hs & Hx & Hz).
  repeat split; assumption.
Qed.

Lemma slow_display_converges_witness :
  draws (callbacks flat (ticks 1020 20 3) booted) = (draws booted + 3)%nat
  /\ currentRotationSpeed (svc (callbacks flat (ticks 1020 20 3) booted))
     - targetSpeed (progress (svc booted))
     == 0.95 ^ Z.of_nat 3
        * (currentRotationSpeed (svc booted)
           - targetSpeed (progress (svc booted)))
  /\ rotationX (callbacks flat (ticks 1020 20 3) booted)
     - mouseY (svc booted) * 0.2
     == 0.95 ^ Z.of_nat 3 * (rotationX booted - mouseY (svc booted) * 0.2)
  /\ rotationZ (callbacks flat (ticks 1020 20 3) booted)
     - mouseX (svc booted) * 0.1
     == 0.95 ^ Z.of_nat 3 * (rotationZ booted - mouseX (svc booted) * 0.1).
Proof.
  apply (slow_display_converges flat 1020 20 3 booted).
  - reflexivity.
  - vm_compute. reflexivity.
  - vm_compute. reflexivity.
  - intros k Hk. destruct k as [| [| [| k]]]; [| | | lia];
      vm_compute; reflexivity.
Defined.

(** ** The frame timer and the clock *)

Section Timer.

Variable Math_sin : Q -> Q.

Lemma animate_then_cases (now time : Q) (w : World) :
  (elapsed now w <= fpsInterval
   /\ then_ (svc (animate Math_sin now time w)) = then_ (svc w))
  \/ (fpsInterval < elapsed now w
      /\ then_ (svc (animate Math_sin now time w))
         = F64.round (now - JS.rem (elapsed now w) fpsInterval)).
Proof.
  destruct (Qlt_le_dec fpsInterval (elapsed now w)) as [H | H].
  - right. split; [exact H |]. apply animate_open_then. exact H.
  - left. split; [exact H |]. rewrite (animate_shut Math_sin now time w H).
    reflexivity.
Qed.

End Timer.

(** X11.  The timer follows the clock from behind.  At a binary64 clock
    reading [now], with a binary64 timer: a callback that finds the gate
    shut leaves the timer alone; one that finds it open re-bases it to a
    binary64 number between [round (now - fpsInterval)] and [now], never
    ahead of the clock, and, the clock being less than 2^53 ms ahead of the
    timer, never behind the timer's old value. *)
Theorem timer_trails_clock :
  forall (Math_sin : Q -> Q) (w : World) (now time : Q),
    F64.double now ->
    F64.double (then_ (svc w)) ->
    let w' := animate Math_sin now time w in
    F64.double (then_ (svc w'))
    /\ (elapsed now w <= fpsInterval -> then_ (svc w') = then_ (svc w))
    /\ (fpsInterval < elapsed now w ->
        F64.round (now - fpsInterval) <= then_ (svc w')
        /\ then_ (svc w') <= now
        /\ (now - then_ (svc w) <= 9007199254740992 ->
            then_ (svc w) <= then_ (svc w'))).
Proof.
  intros Math_sin w now time Hn Ht. cbv zeta.
  unfold F64.double in Hn, Ht.
  split.
  { destruct (animate_then_cases Math_sin now time w) as [[_ ->] | [_ ->]];
      [exact Ht | apply round_idem]. }
  split.
  { intro H. rewrite (animate_shut Math_sin now time w H). reflexivity. }
  intro H. rewrite (animate_open_then Math_sin now time w H).
  pose proof (elapsed_open now w H) as Hx.
  assert (Hle : fpsInterval <= elapsed now w) by lra.
  destruct (rem_whole _ _ fpsInterval_pos Hle) as (K1 & Kr & R0 & R1).
  pose proof fpsInterval_pos as Hd.
  assert (Kq : 1 <= inject_Z (JS.trunc (elapsed now w / fpsInterval))).
  { change 1 with (inject_Z 1). rewrite <- Zle_Qle. exact K1. }
  assert (Kd : fpsInterval * 1
               <= fpsInterval
                  * inject_Z (JS.trunc (elapsed now w / fpsInterval))).
  { apply Qmult_le_l; [exact Hd | exact Kq]. }
  set (q := inject_Z (JS.trunc (elapsed now w / fpsInterval))) in *.
  set (rm := JS.rem (elapsed now w) fpsInterval) in *.
  split.
  { apply round_mono. lra. }
  split.
  { assert (K : now - rm <= now) by lra. apply round_mono in K. lra. }
  intro Hfar.
  destruct (round_close (now - then_ (svc w)) (now - then_ (svc w)))
    as [_ E1]; [lra | lra |].
  fold (elapsed now w) in E1.
  pose proof (pow2_pos (-53)) as P.
  assert (Hs : (now - then_ (svc w)) * F64.pow2 (-53)
               <= 9007199254740992 * F64.pow2 (-53)).
  { apply Qmult_le_compat_r; lra. }
  assert (Hone : 9007199254740992 * F64.pow2 (-53) == 1)
    by (vm_compute; reflexivity).
  pose proof fpsInterval_value as HI.
  assert (K : then_ (svc w) <= now - rm) by lra.
  apply round_mono in K. lra.
Qed.

Lemma timer_trails_clock_witness :
  F64.double (then_ (svc (animate flat 1050 1050 booted)))
  /\ F64.round (1050 - fpsInterval)
     <= then_ (svc (animate flat 1050 1050 booted))
  /\ then_ (svc (animate flat 1050 1050 booted)) <= 1050.
Proof.
  destruct (timer_trails_clock flat booted 1050 1050) as (D & _ & O).
  - vm_compute. reflexivity.
  - vm_compute. reflexivity.
  - destruct O as (A & B & _).
    + vm_compute. reflexivity.
    + split; [exact D |]. split; [exact A | exact B].
Defined.

(** Rounding at work: 50 ms after a timer of 1000 the gate opens and the
    timer is re-based to 1033.3333333333333, short of 1000 plus twice the
    interval; a second callback at the same clock reading then finds
    16.66666666666674 ms elapsed, more than the interval, and draws
    again. *)
Example gate_opens_twice_at_one_reading :
  let w := animate flat 1050 1050 booted in
  draws w = S (draws booted)
  /\ then_ (svc w) == 4544648061474133 # 4398046511104
  /\ draws (animate flat 1050 1050 w) = S (draws w).
Proof. cbv zeta. repeat split; vm_compute; reflexivity. Qed.

(** ** Mounting again and again *)

Lemma bound_mouse_listeners_S (n : nat) :
  bound_mouse_listeners (S n)
  = bound_mouse_listeners n
    ++ [(DOM.MouseMove, DOM.Bound DOM.OnMouseMove (2 * n))].
Proof. unfold bound_mouse_listeners. rewrite seq_S, map_app. reflexivity. Qed.

Lemma bound_mouse_listeners_In (n : nat) (l : DOM.Listener) :
  In l (bound_mouse_listeners n) ->
  exists j, (j < n)%nat /\ l = (DOM.MouseMove, DOM.Bound DOM.OnMouseMove (2 * j)).
Proof.
  unfold bound_mouse_listeners. intro H. apply in_map_iff in H.
  destruct H as (j & E & Hj). apply in_seq in Hj.
  exists j. split; [lia | symmetry; exact E].
Qed.

Lemma existsb_none {A : Type} (p : A -> bool) (l : list A) :
  (forall x, In x l -> p x = false) -> existsb p l = false.
Proof.
  intro H. destruct (existsb p l) eqn:E; [| reflexivity].
  apply existsb_exists in E. destruct E as (x & Hx & Px).
  rewrite (H x Hx) in Px. discriminate.
Qed.

Lemma filter_all {A : Type} (p : A -> bool) (l : list A) :
  (forall x, In x l -> p x = true) -> filter p l = l.
Proof.
  induction l as [| a l IH]; intro H; simpl; [reflexivity |].
  rewrite (H a (or_introl eq_refl)). f_equal. apply IH.
  intros x Hx. apply H. right. exact Hx.
Qed.

(** What one mounting does to a window that has seen [n] of them. *)
Lemma mounting_window (W H : Z) (dpr : Q) (ctx : bool) (n : nat) :
  destroy_window (S n) None (init_window (remounted_window W H dpr ctx n))
  = remounted_window W H dpr ctx (S n).
Proof.
  set (R := (DOM.Resize, DOM.FieldDebouncedOnResize)).
  set (M := (DOM.MouseMove, DOM.Bound DOM.OnMouseMove (2 * n))).
  assert (X1 : existsb (DOM.Listener_eqb R) (bound_mouse_listeners n) = false).
  { apply existsb_none. intros l Hl.
    apply bound_mouse_listeners_In in Hl. destruct Hl as (j & _ & ->).
    reflexivity. }
  assert (X2 : existsb (DOM.Listener_eqb M) (bound_mouse_listeners n ++ [R])
               = false).
  { apply existsb_none. intros l Hl. apply in_app_or in Hl.
    destruct Hl as [Hl | [<- | []]]; [| reflexivity].
    apply bound_mouse_listeners_In in Hl. destruct Hl as (j & Hj & ->).
    unfold M, DOM.Listener_eqb. cbn [fst snd DOM.EventType_eqb DOM.FnRef_eqb
                                     DOM.Method_eqb andb].
    apply Nat.eqb_neq. lia. }
  assert (F1 : filter (fun l => negb (DOM.Listener_eqb R l))
                 ((bound_mouse_listeners n ++ [R]) ++ [M])
               = bound_mouse_listeners n ++ [M]).
  { rewrite !filter_app. cbn [filter]. unfold M at 1.
    change (DOM.Listener_eqb R R) with true.
    change (DOM.Listener_eqb R
              (DOM.MouseMove, DOM.Bound DOM.OnMouseMove (2 * n)))
      with false.
    cbn [negb]. rewrite app_nil_r. f_equal.
    apply filter_all. intros l Hl.
    apply bound_mouse_listeners_In in Hl. destruct Hl as (j & _ & ->).
    reflexivity. }
  assert (F2 : filter
                 (fun l =>
                    negb (DOM.Listener_eqb
                            (DOM.MouseMove, DOM.Proto DOM.OnMouseMove) l))
                 (bound_mouse_listeners n ++ [M])
               = bound_mouse_listeners n ++ [M]).
  { apply filter_all. intros l Hl. apply in_app_or in Hl.
    destruct Hl as [Hl | [<- | []]]; [| reflexivity].
    apply bound_mouse_listeners_In in Hl. destruct Hl as (j & _ & ->).
    reflexivity. }
  destruct (destroy_window_fields (S n) None
              (init_window (remounted_window W H dpr ctx n)))
    as (L & T & F & A & B & C & D & E & G & K).
  apply window_ext; rewrite ?L, ?T, ?F, ?A, ?B, ?C, ?D, ?E, ?G, ?K;
    unfold init_window, request_frame, remounted_window, DOM.addEventListener;
    cbn [DOM.listeners DOM.nextFn DOM.nextFrame DOM.set_nextFn DOM.frames
         DOM.timers DOM.nextTimer DOM.innerWidth DOM.innerHeight
         DOM.devicePixelRatio DOM.context2d];
    fold R; rewrite X1;
    cbn [DOM.listeners DOM.nextFn DOM.nextFrame DOM.set_nextFn DOM.frames
         DOM.timers DOM.nextTimer DOM.innerWidth DOM.innerHeight
         DOM.devicePixelRatio DOM.context2d DOM.set_listeners DOM.set_frames];
    fold M; rewrite ?X2;
    cbn [DOM.listeners DOM.nextFn DOM.nextFrame DOM.set_nextFn DOM.frames
         DOM.timers DOM.nextTimer DOM.innerWidth DOM.innerHeight
         DOM.devicePixelRatio DOM.context2d DOM.set_listeners DOM.set_frames];
    try reflexivity.
  - rewrite F1, F2. symmetry. apply bound_mouse_listeners_S.
  - cbn [negb Nat.eqb app filter fst]. rewrite Nat.eqb_refl. reflexivity.
  - lia.
Qed.

Lemma destroy_resizeTimeout (w : World) :
  resizeTimeout (svc (destroy w)) = resizeTimeout (svc w).
Proof. unfold destroy. cbn. destruct (renderer (svc w)); reflexivity. Qed.

Lemma bound_mouse_listeners_length (n : nat) :
  length (bound_mouse_listeners n) = n.
Proof.
  unfold bound_mouse_listeners. rewrite length_map, length_seq. reflexivity.
Qed.

Lemma NoDup_map_injective {A B : Type} (f : A -> B) (l : list A) :
  (forall a b, f a = f b -> a = b) -> NoDup l -> NoDup (map f l).
Proof.
  intros Hf Hl. induction Hl as [| a l Ha Hl IH]; simpl; constructor.
  - intro Hin. apply in_map_iff in Hin. destruct Hin as (b & E & Hb).
    apply Hf in E. subst b. contradiction.
  - exact IH.
Qed.

Section Mountings.

Variable Math_PI : Q.
Variables Math_cos Math_sin : Q -> Q.
Variable random : N -> Q.
Variable ctor_draws : THREE.Class -> N.

Lemma mountings_window (W H : Z) (dpr : Q) (ctx : bool)
      (es : list (nat * Q * Q * Q)) :
  forall (n : nat) (w : World),
    wnd w = remounted_window W H dpr ctx n ->
    resizeTimeout (svc w) = None ->
    wnd (run Math_PI Math_cos Math_sin random ctor_draws (flat_map mounting es) w)
    = remounted_window W H dpr ctx (n + length es).
Proof.
  induction es as [| e es IH]; intros n w Hw Hrt.
  - cbn [flat_map length]. rewrite Nat.add_0_r. exact Hw.
  - cbn [flat_map mounting app length]. rewrite !run_cons. cbn [step].
    rewrite Nat.add_succ_r, <- Nat.add_succ_l.
    destruct (init_handles Math_PI Math_cos Math_sin random ctor_draws
                (fst (fst (fst e))) (snd (fst (fst e))) (snd (fst e)) (snd e)
                w) as [Ert Efid].
    apply IH.
    + rewrite destroy_wnd, init_wnd, Efid, Ert, Hrt, Hw.
      apply mounting_window.
    + rewrite destroy_resizeTimeout, Ert. exact Hrt.
Qed.

(** Each of the bound mouse listeners runs the mouse handler, and no
    listener is left for a resize event. *)
Lemma dispatch_bound_list (inp : Inputs) (js : list nat) :
  forall w : World,
    fold_left
      (fun acc l =>
         if DOM.EventType_eqb (fst l) DOM.MouseMove
         then invoke Math_sin (snd l) inp acc else acc)
      (map (fun j => (DOM.MouseMove, DOM.Bound DOM.OnMouseMove (2 * j))) js)
      w
    = Nat.iter (length js) (onMouseMove (in_event inp) (in_now inp)) w
    /\ fold_left
         (fun acc l =>
            if DOM.EventType_eqb (fst l) DOM.Resize
            then invoke Math_sin (snd l) inp acc else acc)
         (map (fun j => (DOM.MouseMove, DOM.Bound DOM.OnMouseMove (2 * j)))
            js)
         w
       = w.
Proof.
  induction js as [| j js IH]; intro w; [split; reflexivity |].
  cbn [map fold_left fst snd DOM.EventType_eqb invoke length].
  destruct (IH (onMouseMove (in_event inp) (in_now inp) w)) as [E1 _].
  destruct (IH w) as [_ E2].
  split; [| exact E2].
  rewrite E1. symmetry. apply Nat.iter_succ_r.
Qed.

Lemma dispatch_bound_mouse_listeners (inp : Inputs) (n : nat) (w : World) :
  DOM.listeners (wnd w) = bound_mouse_listeners n ->
  dispatchEvent Math_sin DOM.MouseMove inp w
  = Nat.iter n (onMouseMove (in_event inp) (in_now inp)) w
  /\ dispatchEvent Math_sin DOM.Resize inp w = w.
Proof.
  intro Hl. unfold dispatchEvent. rewrite Hl. unfold bound_mouse_listeners.
  destruct (dispatch_bound_list inp (seq 0 n) w) as [E1 E2].
  rewrite length_seq in E1. split; assumption.
Qed.

End Mountings.

(** X12.  The view that hosts the service mounted n times in a row, each
    time [init] and then [destroy], in a window of its own: every mounting
    leaves its bound mouse listener behind.  After n of them the window
    holds n mouse listeners, all different objects, and nothing else: no
    resize listener, no pending frame, no pending timeout.  A mouse event
    then runs the mouse handler n times; a resize event, a display refresh
    and an expiring timeout reach nothing. *)
Theorem each_mounting_leaks_a_mouse_listener :
  forall (Math_PI : Q) (Math_cos Math_sin : Q -> Q) (random : N -> Q)
         (ctor_draws : THREE.Class -> N)
         (es : list (nat * Q * Q * Q)) (W H : Z) (dpr : Q) (ctx : bool),
    let w :=
      run Math_PI Math_cos Math_sin random ctor_draws (flat_map mounting es)
        (new_World (DOM.fresh W H dpr ctx)) in
    wnd w = remounted_window W H dpr ctx (length es)
    /\ length (DOM.listeners (wnd w)) = length es
    /\ NoDup (DOM.listeners (wnd w))
    /\ forall (inp : Inputs) (id : nat),
         dispatchEvent Math_sin DOM.MouseMove inp w
         = Nat.iter (length es) (onMouseMove (in_event inp) (in_now inp)) w
         /\ dispatchEvent Math_sin DOM.Resize inp w = w
         /\ runFrames Math_sin inp w = w
         /\ fireTimer Math_sin id inp w = w.
Proof.
  intros Math_PI Math_cos Math_sin random ctor_draws es W H dpr ctx w.
  assert (Hw : wnd w = remounted_window W H dpr ctx (length es)).
  { unfold w.
    apply (mountings_window Math_PI Math_cos Math_sin random ctor_draws W H dpr ctx es
             0 (new_World (DOM.fresh W H dpr ctx))); reflexivity. }
  clearbody w.
  assert (Hl : DOM.listeners (wnd w) = bound_mouse_listeners (length es))
    by (rewrite Hw; reflexivity).
  split; [exact Hw |].
  split; [rewrite Hl; apply bound_mouse_listeners_length |].
  split.
  { rewrite Hl. unfold bound_mouse_listeners.
    apply NoDup_map_injective; [| apply seq_NoDup].
    intros a b E. inversion E. lia. }
  intros inp id.
  destruct (dispatch_bound_mouse_listeners Math_sin inp (length es) w Hl)
    as [Hm Hr].
  split; [exact Hm |]. split; [exact Hr |].
  split.
  - unfold runFrames. rewrite Hw. cbn [DOM.frames remounted_window fold_left].
    destruct w as [s wn k]. unfold upd_wnd. cbn [wnd svc rng] in *.
    rewrite Hw. reflexivity.
  - unfold fireTimer. rewrite Hw. reflexivity.
Qed.
